(** * App review trend analyzer: scrape cache, taxonomy and consolidation

    A shallow embedding of the review pipeline (scraper.py, storage.py,
    topic_extractor.py, topic_mapper.py, consolidator.py, main.py) and the
    properties of its caching, merging, gating and promotion logic.

    Conventions of the embedding:
    - a Python [dict] is an association list in insertion order;
    - a parsed JSON reply of the language model is a [json] value, and so
      is a dict that the program builds;
    - a [datetime] is a number of seconds, a calendar date a number of days;
    - the file system, the log of model calls and the log of fetch calls
      form the [world] threaded through the effectful functions;
    - an exception is an explicit [Raise] outcome. *)

From Stdlib Require Import ZArith String Ascii List Lia.
From Stdlib Require Import PrimFloat FloatOps.
From Stdlib Require Import Sorting.Sorted.
From stdpp Require Import base option list gmap strings.

Open Scope Z_scope.

(** ** Python values *)

Module Py.

(** A hashable value: what can key a [dict] or be a member of a [set]. *)
Inductive atom :=
| ANone
| ABool (b : bool)
| AInt (n : Z)
| AFloat (f : float)
| AStr (s : string).

(** What [json.loads] can return, and the dicts the program builds from
    such values: [JObj] is a dict whose keys are all strings, [JDict] a
    dict with a key that is not a string, which no parsed reply holds. *)
#[warnings="-register-all"]
Inductive json :=
| JNull
| JBool (b : bool)
| JInt (n : Z)
| JFloat (f : float)
| JStr (s : string)
| JArr (items : list json)
| JObj (fields : list (string * json))
| JDict (entries : list (atom * json)).

Inductive exn :=
| TypeError
| AttributeError
| Unmodelled.

(** A pure computation that may raise. *)
Inductive pyres (A : Type) :=
| Val (a : A)
| Exc (e : exn).
Arguments Val {A} a.
Arguments Exc {A} e.

Definition pbind {A B} (c : pyres A) (k : A -> pyres B) : pyres B :=
  match c with
  | Val a => k a
  | Exc e => Exc e
  end.

(** *** str *)

Definition isspace (c : ascii) : bool :=
  let n := nat_of_ascii c in
  (Nat.leb 9 n && Nat.leb n 13) || (Nat.leb 28 n && Nat.leb n 32).

Definition isupper (c : ascii) : bool :=
  let n := nat_of_ascii c in Nat.leb 65 n && Nat.leb n 90.

Definition islower (c : ascii) : bool :=
  let n := nat_of_ascii c in Nat.leb 97 n && Nat.leb n 122.

Definition isdigit (c : ascii) : bool :=
  let n := nat_of_ascii c in Nat.leb 48 n && Nat.leb n 57.

Definition lower_char (c : ascii) : ascii :=
  if isupper c then ascii_of_nat (nat_of_ascii c + 32) else c.

Definition upper_char (c : ascii) : ascii :=
  if islower c then ascii_of_nat (nat_of_ascii c - 32) else c.

(** [s.lower()], on the ASCII letters. *)
Fixpoint lower (s : string) : string :=
  match s with
  | EmptyString => EmptyString
  | String c s' => String (lower_char c) (lower s')
  end.

Fixpoint lstrip (s : string) : string :=
  match s with
  | EmptyString => EmptyString
  | String c s' => if isspace c then lstrip s' else s
  end.

Fixpoint rstrip (s : string) : string :=
  match s with
  | EmptyString => EmptyString
  | String c s' =>
      match rstrip s' with
      | EmptyString => if isspace c then EmptyString else String c EmptyString
      | r => String c r
      end
  end.

(** [s.strip()]. *)
Definition strip (s : string) : string := lstrip (rstrip s).

(** [s.rstrip('_')]. *)
Fixpoint rstrip_underscore (s : string) : string :=
  match s with
  | EmptyString => EmptyString
  | String c s' =>
      match rstrip_underscore s' with
      | EmptyString =>
          if Ascii.eqb c "_" then EmptyString else String c EmptyString
      | r => String c r
      end
  end.

(** [s.title()]: a letter that follows a letter is lowered, any other
    letter is raised. *)
Fixpoint title_from (after_letter : bool) (s : string) : string :=
  match s with
  | EmptyString => EmptyString
  | String c s' =>
      if isupper c || islower c
      then String (if after_letter then lower_char c else upper_char c)
                  (title_from true s')
      else String c (title_from false s')
  end.

Definition title (s : string) : string := title_from false s.

(** [re.sub(r'[^a-z0-9\s]', '', s)]. *)
Fixpoint remove_special (s : string) : string :=
  match s with
  | EmptyString => EmptyString
  | String c s' =>
      if islower c || isdigit c || isspace c
      then String c (remove_special s')
      else remove_special s'
  end.

(** [re.sub(r'\s+', '_', s)]: every maximal run of white space becomes one
    underscore. *)
Fixpoint spaces_to_underscore (in_run : bool) (s : string) : string :=
  match s with
  | EmptyString => EmptyString
  | String c s' =>
      if isspace c
      then if in_run then spaces_to_underscore true s'
           else String "_" (spaces_to_underscore true s')
      else String c (spaces_to_underscore false s')
  end.

(** [iter(s)]: the one-character strings of [s]. *)
Fixpoint chars (s : string) : list string :=
  match s with
  | EmptyString => []
  | String c s' => String c EmptyString :: chars s'
  end.

(** *** dict, in insertion order *)

Definition pydict (V : Type) := list (string * V).

(** [d.get(k)]. *)
Fixpoint dict_get {V} (k : string) (d : pydict V) : option V :=
  match d with
  | [] => None
  | (k', v) :: d' => if String.eqb k k' then Some v else dict_get k d'
  end.

(** [d[k] = v]: a present key keeps its place, a new key goes last. *)
Fixpoint dict_set {V} (k : string) (v : V) (d : pydict V) : pydict V :=
  match d with
  | [] => [(k, v)]
  | (k', v') :: d' =>
      if String.eqb k k' then (k, v) :: d' else (k', v') :: dict_set k v d'
  end.

Definition dict_keys {V} (d : pydict V) : list string := map fst d.
Definition dict_values {V} (d : pydict V) : list V := map snd d.

(** [d.get(k, default)]. *)
Definition get_default (k : string) (default : json) (d : pydict json) : json :=
  match dict_get k d with
  | Some v => v
  | None => default
  end.

(** [c[k] += 1] on a [Counter]. *)
Definition counter_incr (k : string) (c : pydict Z) : pydict Z :=
  dict_set k (match dict_get k c with Some n => n + 1 | None => 1 end) c.

(** [Counter(iterable)]. *)
Definition Counter (keys : list string) : pydict Z :=
  fold_left (fun c k => counter_incr k c) keys [].

(** [d[k].append(x)] on a [defaultdict(list)]. *)
Definition dict_append {V} (k : string) (x : V) (d : pydict (list V))
  : pydict (list V) :=
  dict_set k (match dict_get k d with Some l => l ++ [x] | None => [x] end) d.

(** *** dict and set with any hashable key *)

(** What [==] and [hash] make of a key: [True], [1] and [1.0] are one
    key, a float that is no integer is a key of its own, and so is the
    [nan] that [json.loads] returns. *)
Inductive key_class :=
| KNone
| KNum (n : Z)
| KFloat (f : SpecFloat.spec_float)
| KStr (s : string).

Definition float_class (f : float) : key_class :=
  match Prim2SF f with
  | SpecFloat.S754_zero _ => KNum 0
  | SpecFloat.S754_finite neg m e =>
      let v := if neg then Z.neg m else Z.pos m in
      if 0 <=? e then KNum (v * 2 ^ e)
      else if Z.pos m mod 2 ^ (- e) =? 0 then KNum (v / 2 ^ (- e))
      else KFloat (SpecFloat.S754_finite neg m e)
  | sf => KFloat sf
  end.

Definition atom_class (a : atom) : key_class :=
  match a with
  | ANone => KNone
  | ABool b => KNum (if b then 1 else 0)
  | AInt n => KNum n
  | AFloat f => float_class f
  | AStr s => KStr s
  end.

#[global] Instance spec_float_eq_dec : EqDecision SpecFloat.spec_float.
Proof. solve_decision. Defined.

#[global] Instance key_class_eq_dec : EqDecision key_class.
Proof. solve_decision. Defined.

(** Two keys that a dict or a set takes for the same. *)
Definition atom_eqb (a b : atom) : bool :=
  bool_decide (atom_class a = atom_class b).

(** [x in s] for a set [s]. *)
Definition set_mem (x : atom) (s : list atom) : bool :=
  existsb (atom_eqb x) s.

(** A dict in insertion order, with any hashable keys. *)
Definition kdict (V : Type) := list (atom * V).

(** [d.get(k)]. *)
Fixpoint kdict_get {V} (k : atom) (d : kdict V) : option V :=
  match d with
  | [] => None
  | (k', v) :: d' => if atom_eqb k k' then Some v else kdict_get k d'
  end.

(** [d[k] = v]: a present key stays as it is, in its place, and gets the
    value; a new key goes last. *)
Fixpoint kdict_set {V} (k : atom) (v : V) (d : kdict V) : kdict V :=
  match d with
  | [] => [(k, v)]
  | (k', v') :: d' =>
      if atom_eqb k k' then (k', v) :: d' else (k', v') :: kdict_set k v d'
  end.

(** [c[k] += 1] on a [Counter]. *)
Definition kcounter_incr (k : atom) (c : kdict Z) : kdict Z :=
  kdict_set k (match kdict_get k c with Some n => n + 1 | None => 1 end) c.

(** [d[k].append(x)] on a [defaultdict(list)]. *)
Definition kdict_append {V} (k : atom) (x : V) (d : kdict (list V))
  : kdict (list V) :=
  kdict_set k (match kdict_get k d with Some l => l ++ [x] | None => [x] end) d.

(** The value as a key: lists and dicts are unhashable. *)
Definition as_atom (v : json) : pyres atom :=
  match v with
  | JNull => Val ANone
  | JBool b => Val (ABool b)
  | JInt n => Val (AInt n)
  | JFloat f => Val (AFloat f)
  | JStr s => Val (AStr s)
  | JArr _ | JObj _ | JDict _ => Exc TypeError
  end.

Definition atom_json (a : atom) : json :=
  match a with
  | ANone => JNull
  | ABool b => JBool b
  | AInt n => JInt n
  | AFloat f => JFloat f
  | AStr s => JStr s
  end.

(** The entries of a dict whose keys are all strings. *)
Fixpoint str_keyed (entries : list (atom * json)) : option (pydict json) :=
  match entries with
  | [] => Some []
  | (AStr k, v) :: entries' =>
      match str_keyed entries' with
      | Some d => Some ((k, v) :: d)
      | None => None
      end
  | _ => None
  end.

(** The dict with these entries, as a value. *)
Definition py_dict (entries : list (atom * json)) : json :=
  match str_keyed entries with
  | Some d => JObj d
  | None => JDict entries
  end.

(** *** truth and order *)

(** [bool(v)]. *)
Definition truthy (v : json) : bool :=
  match v with
  | JNull => false
  | JBool b => b
  | JInt n => negb (n =? 0)
  | JFloat f => negb (PrimFloat.eqb f 0%float)
  | JStr s => negb (String.eqb s "")
  | JArr l => match l with [] => false | _ => true end
  | JObj d => match d with [] => false | _ => true end
  | JDict d => match d with [] => false | _ => true end
  end.

(** [n < f] for an [int] and a [float]: Python compares the exact values. *)
Definition int_lt_float (n : Z) (f : float) : bool :=
  match Prim2SF f with
  | SpecFloat.S754_nan => false
  | SpecFloat.S754_infinity neg => negb neg
  | SpecFloat.S754_zero _ => n <? 0
  | SpecFloat.S754_finite neg m e =>
      let v := if neg then Z.neg m else Z.pos m in
      if 0 <=? e then n <? v * 2 ^ e else n * 2 ^ (- e) <? v
  end.

(** [v < f] for a parsed JSON value and a [float]; [None], strings, lists
    and dicts raise [TypeError]. *)
Definition lt_float (v : json) (f : float) : pyres bool :=
  match v with
  | JBool b => Val (int_lt_float (if b then 1 else 0) f)
  | JInt n => Val (int_lt_float n f)
  | JFloat x => Val (PrimFloat.ltb x f)
  | _ => Exc TypeError
  end.

(** [for x in v]. *)
Definition iterate (v : json) : pyres (list json) :=
  match v with
  | JArr l => Val l
  | JStr s => Val (map JStr (chars s))
  | JObj d => Val (map JStr (dict_keys d))
  | JDict d => Val (map (fun kv => atom_json (fst kv)) d)
  | _ => Exc TypeError
  end.

(** [len(v)]. *)
Definition py_len (v : json) : pyres nat :=
  match v with
  | JStr s => Val (String.length s)
  | JArr l => Val (length l)
  | JObj d => Val (length d)
  | JDict d => Val (length d)
  | _ => Exc TypeError
  end.

(** [v.get(k, default)]: only a dict has [get]. *)
Definition obj_get (k : string) (default : json) (v : json) : pyres json :=
  match v with
  | JObj d => Val (get_default k default d)
  | JDict d => Val (match kdict_get (AStr k) d with
                    | Some v => v
                    | None => default
                    end)
  | _ => Exc AttributeError
  end.

(** A method of [str] called on [v]. *)
Definition as_str (v : json) : pyres string :=
  match v with
  | JStr s => Val s
  | _ => Exc AttributeError
  end.

(** An item of the sequence passed to [", ".join]. *)
Definition str_item (v : json) : pyres string :=
  match v with
  | JStr s => Val s
  | _ => Exc TypeError
  end.

(** [l[i:i+n]] for [i] in [range(0, len(l), n)]. *)
Fixpoint chunks_fuel {A} (fuel : nat) (n : nat) (l : list A) : list (list A) :=
  match fuel with
  | O => []
  | S fuel' =>
      match l with
      | [] => []
      | _ => firstn n l :: chunks_fuel fuel' n (skipn n l)
      end
  end.

Definition chunks {A} (n : nat) (l : list A) : list (list A) :=
  chunks_fuel (length l) n l.

End Py.

Export Py.

Notation "x <~ c ;; k" := (pbind c (fun x => k))
  (at level 100, c at next level, right associativity).

(** ** config/settings.py *)

Definition BATCH_SIZE : nat := 20.
Definition TREND_WINDOW_DAYS : Z := 1.
Definition MIN_TOPIC_OCCURRENCES : Z := 5.
(** The [float] nearest to 0.70. *)
Definition CONFIDENCE_THRESHOLD : float := 0x1.6666666666666p-1%float.

(** ** Data *)

(** A row of the reviews table; [at_] is the column [at]. *)
Record review := {
  reviewId : string;
  userName : string;
  score : Z;
  at_ : Z;
  content : string;
  thumbsUpCount : option Z;
  appVersion : option string;
  replyContent : option string;
  repliedAt : option Z
}.

(** A DataFrame of reviews, row by row. *)
Abbreviation DataFrame := (list review).

(** A topic of a taxonomy.  Its id keys dicts and sets; its name and its
    category are whatever the model suggested for them. *)
Record topic := {
  topic_id : atom;
  topic_name : json;
  category : json;
  variations : list string;
  description : string;
  added_date : Z;
  is_seed : bool;
  app_specific : bool
}.

Record taxonomy := {
  tx_app_id : string;
  topics : list topic;
  last_updated : Z
}.

Definition with_topics (ts : list topic) (t : taxonomy) : taxonomy :=
  {| tx_app_id := tx_app_id t; topics := ts; last_updated := last_updated t |}.

Definition with_last_updated (u : Z) (t : taxonomy) : taxonomy :=
  {| tx_app_id := tx_app_id t; topics := topics t; last_updated := u |}.

(** The variable parts of the four prompts sent to the language model. *)
Inductive prompt :=
| ExtractionPrompt (reviews : DataFrame)
| MappingPrompt (tx : taxonomy) (extracted_topic : string)
| BatchMappingPrompt (tx : taxonomy) (extracted_topics : list string)
| ValidationPrompt (existing_topics : list string) (new_topic : string).

(** One reply of the Play Store to [reviews(..., continuation_token)]. *)
Inductive page_reply :=
| PageError
| Page (result : DataFrame) (continuation_token : option string).

(** A call of [fetch_reviews_by_date_range]. *)
Record fetch_call := {
  fc_app_id : string;
  fc_reference_date : Z;
  fc_cutoff_date : Z
}.

(** ** The world: files, clock, collaborators and their call logs *)

Record world := {
  reviews_csv : gmap string DataFrame;
  taxonomy_json : gmap string taxonomy;
  batch_json : gmap (string * Z) json;
  details_json : gmap (string * Z) json;
  now : Z;
  play_store : string -> list page_reply;
  hash_order : list string -> list string;
  llm_calls : list prompt;
  fetch_calls : list fetch_call
}.

Definition set_reviews_csv (f : gmap string DataFrame -> gmap string DataFrame)
    (w : world) : world :=
  {| reviews_csv := f (reviews_csv w); taxonomy_json := taxonomy_json w;
     batch_json := batch_json w; details_json := details_json w;
     now := now w; play_store := play_store w; hash_order := hash_order w;
     llm_calls := llm_calls w; fetch_calls := fetch_calls w |}.

Definition set_taxonomy_json (f : gmap string taxonomy -> gmap string taxonomy)
    (w : world) : world :=
  {| reviews_csv := reviews_csv w; taxonomy_json := f (taxonomy_json w);
     batch_json := batch_json w; details_json := details_json w;
     now := now w; play_store := play_store w; hash_order := hash_order w;
     llm_calls := llm_calls w; fetch_calls := fetch_calls w |}.

Definition set_batch_json (f : gmap (string * Z) json -> gmap (string * Z) json)
    (w : world) : world :=
  {| reviews_csv := reviews_csv w; taxonomy_json := taxonomy_json w;
     batch_json := f (batch_json w); details_json := details_json w;
     now := now w; play_store := play_store w; hash_order := hash_order w;
     llm_calls := llm_calls w; fetch_calls := fetch_calls w |}.

Definition set_details_json (f : gmap (string * Z) json -> gmap (string * Z) json)
    (w : world) : world :=
  {| reviews_csv := reviews_csv w; taxonomy_json := taxonomy_json w;
     batch_json := batch_json w; details_json := f (details_json w);
     now := now w; play_store := play_store w; hash_order := hash_order w;
     llm_calls := llm_calls w; fetch_calls := fetch_calls w |}.

Definition log_llm_call (p : prompt) (w : world) : world :=
  {| reviews_csv := reviews_csv w; taxonomy_json := taxonomy_json w;
     batch_json := batch_json w; details_json := details_json w;
     now := now w; play_store := play_store w; hash_order := hash_order w;
     llm_calls := llm_calls w ++ [p]; fetch_calls := fetch_calls w |}.

Definition log_fetch_call (c : fetch_call) (w : world) : world :=
  {| reviews_csv := reviews_csv w; taxonomy_json := taxonomy_json w;
     batch_json := batch_json w; details_json := details_json w;
     now := now w; play_store := play_store w; hash_order := hash_order w;
     llm_calls := llm_calls w; fetch_calls := fetch_calls w ++ [c] |}.

(** The result of running an effectful function. *)
Inductive outcome (A : Type) :=
| Ok (a : A) (w : world)
| Raise (e : exn) (w : world).
Arguments Ok {A} a w.
Arguments Raise {A} e w.

Definition M (A : Type) : Type := world -> outcome A.

Definition ret {A} (a : A) : M A := fun w => Ok a w.

Definition bind {A B} (c : M A) (k : A -> M B) : M B :=
  fun w =>
    match c w with
    | Ok a w' => k a w'
    | Raise e w' => Raise e w'
    end.

Definition lift {A} (c : pyres A) : M A :=
  fun w =>
    match c with
    | Val a => Ok a w
    | Exc e => Raise e w
    end.

Definition final_world {A} (o : outcome A) : world :=
  match o with
  | Ok _ w => w
  | Raise _ w => w
  end.

Notation "x <- c ;; k" := (bind c (fun x => k))
  (at level 100, c at next level, right associativity).
Notation "c ;;; k" := (bind c (fun _ => k))
  (at level 100, right associativity).

(** A [for] loop threading an accumulator. *)
Fixpoint for_each {A S} (f : S -> A -> M S) (l : list A) (s : S) : M S :=
  match l with
  | [] => ret s
  | x :: l' => s' <- f s x ;; for_each f l' s'
  end.

Fixpoint pfor_each {A S} (f : S -> A -> pyres S) (l : list A) (s : S)
  : pyres S :=
  match l with
  | [] => Val s
  | x :: l' => s' <~ f s x ;; pfor_each f l' s'
  end.

Fixpoint pmap {A B} (f : A -> pyres B) (l : list A) : pyres (list B) :=
  match l with
  | [] => Val []
  | x :: l' => y <~ f x ;; ys <~ pmap f l' ;; Val (y :: ys)
  end.

(** ** src/utils/date_utils.py *)

Definition SECONDS_PER_DAY : Z := 86400.

(** [dt.date()]. *)
Definition date (dt : Z) : Z := dt / SECONDS_PER_DAY.

(** Midnight of a day, what [parse_iso_date] returns. *)
Definition parse_iso_date (day : Z) : Z := day * SECONDS_PER_DAY.

Definition get_trend_date_range (target_date : Z) : Z * Z :=
  let end_date := parse_iso_date target_date in
  let start_date := end_date - TREND_WINDOW_DAYS * SECONDS_PER_DAY in
  (start_date, end_date).

(** The [while current <= end_date] loop; at most [fuel] days. *)
Fixpoint date_range_from (fuel : nat) (current end_date : Z) : list Z :=
  match fuel with
  | O => []
  | S fuel' =>
      if current <=? end_date
      then current :: date_range_from fuel' (current + SECONDS_PER_DAY) end_date
      else []
  end.

Definition date_range (start_date end_date : Z) : list Z :=
  date_range_from (Z.to_nat (date end_date - date start_date + 1))
                  start_date end_date.

Definition get_date_strings_in_range (target_date : Z) : list Z :=
  let '(start_date, end_date) := get_trend_date_range target_date in
  map date (date_range start_date end_date).

(** ** config/seed_topics.py *)

Definition seed (id name cat : string) (vars : list string) (descr : string)
  : string * string * string * list string * string :=
  (id, name, cat, vars, descr).

Definition SEED_TOPICS : list (string * string * string * list string * string) :=
  [ seed "delivery_delay" "Delivery/Service Delay" "issue"
      ["late delivery"; "slow service"; "took too long";
       "delayed"; "waiting time"; "takes forever"]
      "Service or delivery slower than expected";
    seed "quality_issue" "Product/Service Quality Issue" "issue"
      ["poor quality"; "bad quality"; "stale"; "damaged";
       "not fresh"; "low quality"; "substandard"]
      "Problems with quality of product/service";
    seed "staff_behavior" "Staff/Representative Behavior Issue" "issue"
      ["rude staff"; "unprofessional"; "bad behavior";
       "misbehaved"; "impolite"; "disrespectful"]
      "Negative interaction with staff/representatives";
    seed "order_accuracy" "Order/Request Incorrect" "issue"
      ["wrong order"; "missing items"; "incorrect";
       "didn't receive"; "wrong item"; "incomplete order"]
      "Received something different than requested";
    seed "payment_issue" "Payment/Refund Issue" "issue"
      ["payment failed"; "refund pending"; "charged extra";
       "billing problem"; "money deducted"; "double charged"]
      "Problems with payments or refunds";
    seed "app_technical" "App Technical Issue" "issue"
      ["app crash"; "not working"; "login problem";
       "slow app"; "freezing"; "glitch"; "bug"; "error"]
      "Technical problems with the application";
    seed "customer_support" "Customer Support Issue" "issue"
      ["no response"; "support unhelpful"; "can't reach support";
       "poor customer service"; "no help"; "ignored"]
      "Issues with customer service quality";
    seed "pricing" "Pricing/Charges Issue" "issue"
      ["too expensive"; "overpriced"; "hidden charges";
       "high fees"; "extra charges"; "costly"]
      "Complaints about pricing or fees";
    seed "packaging" "Packaging/Presentation Issue" "issue"
      ["poor packaging"; "leaked"; "damaged package";
       "messy"; "spilled"; "broken seal"]
      "Problems with packaging or presentation";
    seed "feature_request" "Feature Request/Suggestion" "request"
      ["add feature"; "bring back"; "need option";
       "suggestion"; "would be great if"; "please add"]
      "User requests for features or improvements" ].

Definition get_seed_topics_as_taxonomy (app_id : string) (clock : Z)
  : taxonomy :=
  {| tx_app_id := app_id;
     topics :=
       map (fun '(id, name, cat, vars, descr) =>
              {| topic_id := AStr id; topic_name := JStr name;
                 category := JStr cat;
                 variations := vars; description := descr;
                 added_date := date clock;
                 is_seed := true; app_specific := false |})
           SEED_TOPICS;
     last_updated := clock |}.

(** ** src/utils/storage.py *)

Definition load_app_taxonomy (app_id : string) : M taxonomy :=
  fun w =>
    match taxonomy_json w !! app_id with
    | Some tx => Ok tx w
    | None =>
        let tx := get_seed_topics_as_taxonomy app_id (now w) in
        Ok tx (set_taxonomy_json (insert app_id tx) w)
    end.

Definition save_app_taxonomy (app_id : string) (tx : taxonomy) : M unit :=
  fun w =>
    Ok tt (set_taxonomy_json (insert app_id (with_last_updated (now w) tx)) w).

Definition add_topics_to_taxonomy (app_id : string) (new_topics : list topic)
  : M unit :=
  tx <- load_app_taxonomy app_id ;;
  let existing_ids := map topic_id (topics tx) in
  let tx' :=
    fold_left
      (fun acc t =>
         if set_mem (topic_id t) existing_ids then acc
         else with_topics (topics acc ++ [t]) acc)
      new_topics tx in
  save_app_taxonomy app_id tx'.

Definition load_batch (app_id : string) (date_str : Z) : M (option json) :=
  fun w => Ok (batch_json w !! (app_id, date_str)) w.

Definition save_batch (app_id : string) (date_str : Z) (batch_data : json)
  : M unit :=
  fun w => Ok tt (set_batch_json (insert (app_id, date_str) batch_data) w).

Definition save_details (app_id : string) (date_str : Z) (detailed_data : json)
  : M unit :=
  fun w => Ok tt (set_details_json (insert (app_id, date_str) detailed_data) w).

Definition reviews_csv_exists (app_id : string) : M bool :=
  fun w => Ok (bool_decide (is_Some (reviews_csv w !! app_id))) w.

Definition load_reviews_csv (app_id : string) : M DataFrame :=
  fun w => Ok (default [] (reviews_csv w !! app_id)) w.

Definition save_reviews_csv (app_id : string) (df : DataFrame) : M unit :=
  fun w => Ok tt (set_reviews_csv (insert app_id df) w).

(** ** src/scraper.py *)

(** [df.sort_values('at', ascending=False)]; rows with equal [at] keep
    their order here. *)
Fixpoint insert_desc (r : review) (df : DataFrame) : DataFrame :=
  match df with
  | [] => [r]
  | x :: df' =>
      if at_ x <=? at_ r then r :: x :: df' else x :: insert_desc r df'
  end.

Fixpoint sort_values_desc (df : DataFrame) : DataFrame :=
  match df with
  | [] => []
  | r :: df' => insert_desc r (sort_values_desc df')
  end.

Definition _convert_to_dataframe (reviews_list : DataFrame) : DataFrame :=
  match reviews_list with
  | [] => []
  | _ => sort_values_desc reviews_list
  end.

(** The [for r in result] loop of one page: the rows kept so far and
    whether the cutoff was crossed. *)
Fixpoint scan_page (result : DataFrame) (reference_date cutoff_date : Z)
    (all_reviews : DataFrame) : DataFrame * bool :=
  match result with
  | [] => (all_reviews, false)
  | r :: result' =>
      if at_ r <? cutoff_date then (all_reviews, true)
      else scan_page result' reference_date cutoff_date
             (if at_ r <=? reference_date then all_reviews ++ [r]
              else all_reviews)
  end.

(** The [while True] loop over the replies of the store. *)
Fixpoint fetch_pages (replies : list page_reply) (reference_date cutoff_date : Z)
    (all_reviews : DataFrame) : DataFrame :=
  match replies with
  | [] => all_reviews
  | PageError :: _ => all_reviews
  | Page result continuation_token :: replies' =>
      match result with
      | [] => all_reviews
      | _ =>
          let '(all_reviews', crossed) :=
            scan_page result reference_date cutoff_date all_reviews in
          if crossed then all_reviews'
          else match continuation_token with
               | None => all_reviews'
               | Some _ =>
                   fetch_pages replies' reference_date cutoff_date all_reviews'
               end
      end
  end.

Definition fetch_reviews_by_date_range (app_id : string)
    (reference_date cutoff_date : Z) : M DataFrame :=
  fun w =>
    Ok (_convert_to_dataframe
          (fetch_pages (play_store w app_id) reference_date cutoff_date []))
       (log_fetch_call {| fc_app_id := app_id;
                          fc_reference_date := reference_date;
                          fc_cutoff_date := cutoff_date |} w).

Definition in_date_range (start_date end_date : Z) (r : review) : bool :=
  (date start_date <=? date (at_ r)) && (date (at_ r) <=? date end_date).

Definition filter_by_date_range (df : DataFrame) (start_date end_date : Z)
  : DataFrame :=
  match df with
  | [] => df
  | _ => List.filter (in_date_range start_date end_date) df
  end.

(** [df.drop_duplicates(subset=['reviewId'], keep='last')]. *)
Fixpoint drop_duplicates_last (df : DataFrame) : DataFrame :=
  match df with
  | [] => []
  | r :: df' =>
      if bool_decide (reviewId r ∈ map reviewId df')
      then drop_duplicates_last df'
      else r :: drop_duplicates_last df'
  end.

(** Lines 233-235 of [smart_scrape]: concat, drop duplicates, sort. *)
Definition merge (existing_df new_reviews : DataFrame) : DataFrame :=
  let combined := existing_df ++ new_reviews in
  let combined := drop_duplicates_last combined in
  sort_values_desc combined.

(** [df['at'].min()] and [df['at'].max()]. *)
Definition at_min (df : DataFrame) : Z :=
  match df with
  | [] => 0
  | r :: df' => fold_left Z.min (map at_ df') (at_ r)
  end.

Definition at_max (df : DataFrame) : Z :=
  match df with
  | [] => 0
  | r :: df' => fold_left Z.max (map at_ df') (at_ r)
  end.

Definition is_empty {A} (l : list A) : bool :=
  match l with
  | [] => true
  | _ => false
  end.

Definition smart_scrape (app_id : string) (target_date : Z) : M DataFrame :=
  let '(start_date, end_date) := get_trend_date_range target_date in
  csv_exists <- reviews_csv_exists app_id ;;
  if negb csv_exists then
    all_reviews <- fetch_reviews_by_date_range app_id end_date start_date ;;
    save_reviews_csv app_id all_reviews ;;;
    ret all_reviews
  else
    existing_df <- load_reviews_csv app_id ;;
    if is_empty existing_df then
      all_reviews <- fetch_reviews_by_date_range app_id end_date start_date ;;
      save_reviews_csv app_id all_reviews ;;;
      ret all_reviews
    else
      let csv_min_date := at_min existing_df in
      let csv_max_date := at_max existing_df in
      if (date csv_min_date <=? date start_date)
         && (date end_date <=? date csv_max_date)
      then ret (filter_by_date_range existing_df start_date end_date)
      else if date csv_max_date <? date end_date then
        new_reviews <-
          fetch_reviews_by_date_range app_id end_date csv_max_date ;;
        let combined := merge existing_df new_reviews in
        save_reviews_csv app_id combined ;;;
        ret (filter_by_date_range combined start_date end_date)
      else if date start_date <? date csv_min_date then
        ret (filter_by_date_range existing_df start_date end_date)
      else
        ret (filter_by_date_range existing_df start_date end_date).

Definition get_reviews_for_date (df : DataFrame) (date_str : Z) : DataFrame :=
  List.filter (fun r => date (at_ r) =? date_str) df.

(** ** src/utils/groq_client.py *)

(** The client, as far as the pipeline sees it: the parsed reply to a
    prompt, or [None] once the retries are used up or the reply does not
    parse.  The reply may depend on every prompt sent before. *)
Definition GroqClient := list prompt -> prompt -> option json.

(** What the caller gets: a reply that parses to [null] is the [None] of
    a failed call. *)
Definition parsed (reply : option json) : option json :=
  match reply with
  | Some JNull => None
  | _ => reply
  end.

Definition send_message_json (groq_client : GroqClient) (p : prompt)
  : M (option json) :=
  fun w => Ok (parsed (groq_client (llm_calls w) p)) (log_llm_call p w).

(** ** src/agents/topic_extractor.py *)

Definition empty_extraction (r : review) : json :=
  JObj [("reviewId", JStr (reviewId r)); ("extractedTopics", JArr [])].

Definition extract_topics_from_batch (reviews : DataFrame)
    (groq_client : GroqClient) : M (list json) :=
  if is_empty reviews then ret []
  else
    result <- send_message_json groq_client (ExtractionPrompt reviews) ;;
    match result with
    | None => ret (map empty_extraction reviews)
    | Some (JArr items) => ret items
    | Some _ => ret (map empty_extraction reviews)
    end.

(** [len(r.get('extractedTopics', []))]. *)
Definition count_extracted (r : json) : pyres nat :=
  extracted <~ obj_get "extractedTopics" (JArr []) r ;;
  py_len extracted.

Definition extract_topics_for_reviews (reviews_df : DataFrame)
    (groq_client : GroqClient) : M (list json) :=
  if is_empty reviews_df then ret []
  else
    all_results <-
      for_each
        (fun all_results batch =>
           batch_results <- extract_topics_from_batch batch groq_client ;;
           ret (all_results ++ batch_results))
        (chunks BATCH_SIZE reviews_df) [] ;;
    total_topics <- lift (pmap count_extracted all_results) ;;
    ret all_results.

(** ** src/agents/topic_mapper.py *)

(** [type(v)], as an f-string prints it. *)
Definition type_repr (v : json) : string :=
  match v with
  | JNull => "<class 'NoneType'>"
  | JBool _ => "<class 'bool'>"
  | JInt _ => "<class 'int'>"
  | JFloat _ => "<class 'float'>"
  | JStr _ => "<class 'str'>"
  | JArr _ => "<class 'list'>"
  | JObj _ | JDict _ => "<class 'dict'>"
  end.

Definition failed_mapping (extracted_topic reasoning : string) : json :=
  JObj [("extracted_topic", JStr extracted_topic);
        ("mapped_topic_id", JNull);
        ("confidence", JFloat 0%float);
        ("reasoning", JStr reasoning)].

Definition map_single_topic (extracted_topic : string) (tx : taxonomy)
    (groq_client : GroqClient) : M json :=
  result <- send_message_json groq_client (MappingPrompt tx extracted_topic) ;;
  match result with
  | None => ret (failed_mapping extracted_topic "Failed to get mapping from LLM")
  | Some (JObj d) =>
      let d := dict_set "extracted_topic" (JStr extracted_topic) d in
      let confidence := get_default "confidence" (JFloat 0%float) d in
      below <- lift (lt_float confidence CONFIDENCE_THRESHOLD) ;;
      ret (JObj (if below then dict_set "mapped_topic_id" JNull d else d))
  | Some v =>
      ret (failed_mapping extracted_topic
             (String.append "Unexpected response format: " (type_repr v)))
  end.

(** One round of [for r in result]: read the confidence, null the id. *)
Definition apply_confidence_threshold (r : json) : pyres json :=
  confidence <~ obj_get "confidence" (JFloat 0%float) r ;;
  below <~ lt_float confidence CONFIDENCE_THRESHOLD ;;
  match r with
  | JObj d => Val (JObj (if below then dict_set "mapped_topic_id" JNull d else d))
  | _ => Exc AttributeError
  end.

Definition map_topics_batch (extracted_topics : list string) (tx : taxonomy)
    (groq_client : GroqClient) : M (list json) :=
  if is_empty extracted_topics then ret []
  else
    result <-
      send_message_json groq_client (BatchMappingPrompt tx extracted_topics) ;;
    match result with
    | Some (JArr items) => lift (pmap apply_confidence_threshold items)
    | _ =>
        ret (map (fun t => failed_mapping t "Batch mapping failed")
                 extracted_topics)
    end.

Definition MAPPING_BATCH_SIZE : nat := 10.

(** [all_topics.add(x)] on a set kept in first-insertion order; the order
    in which [list(all_topics)] enumerates it is [hash_order]. *)
Definition set_add (x : string) (xs : list string) : list string :=
  if bool_decide (x ∈ xs) then xs else xs ++ [x].

Definition collect_topic (all_topics : list string) (t : json)
  : pyres (list string) :=
  if truthy t then
    s <~ as_str t ;;
    if String.eqb (strip s) "" then Val all_topics
    else Val (set_add (lower (strip s)) all_topics)
  else Val all_topics.

Definition collect_topics (all_topics : list string) (result : json)
  : pyres (list string) :=
  extracted <~ obj_get "extractedTopics" (JArr []) result ;;
  items <~ iterate extracted ;;
  pfor_each collect_topic items all_topics.

Definition record_mapping (all_mappings : pydict json) (result : json)
  : pyres (pydict json) :=
  t <~ obj_get "extracted_topic" (JStr "") result ;;
  s <~ as_str t ;;
  Val (dict_set (lower s) result all_mappings).

Definition map_topics_to_taxonomy (extraction_results : list json)
    (tx : taxonomy) (groq_client : GroqClient) : M (pydict json) :=
  all_topics <- lift (pfor_each collect_topics extraction_results []) ;;
  all_topics <- (fun w => Ok (hash_order w all_topics) w) ;;
  if is_empty all_topics then ret []
  else
    for_each
      (fun all_mappings batch =>
         results <- map_topics_batch batch tx groq_client ;;
         lift (pfor_each record_mapping results all_mappings))
      (chunks MAPPING_BATCH_SIZE all_topics) [].

(** ** src/agents/consolidator.py *)

Definition generate_topic_id (topic_name : string) : string :=
  let topic_id := lower topic_name in
  let topic_id := remove_special topic_id in
  let topic_id := spaces_to_underscore false (strip topic_id) in
  if Nat.ltb 30 (String.length topic_id)
  then rstrip_underscore (substring 0 30 topic_id)
  else topic_id.

Definition validate_new_topic (new_topic : string)
    (existing_topics : list json) (groq_client : GroqClient) : M json :=
  existing_str <- lift (pmap str_item (firstn 20 existing_topics)) ;;
  result <-
    send_message_json groq_client (ValidationPrompt existing_str new_topic) ;;
  match result with
  | None =>
      ret (JObj [("topic", JStr new_topic);
                 ("is_valid", JBool false);
                 ("reasoning", JStr "Failed to validate with LLM")])
  | Some v => ret v
  end.

Definition opt_json {A} (f : A -> json) (o : option A) : json :=
  match o with
  | Some a => f a
  | None => JNull
  end.

(** The entry of [reviews_lookup] built from a row; time stamps stay
    numbers. *)
Definition review_dict (r : review) : pydict json :=
  [("reviewId", JStr (reviewId r));
   ("userName", JStr (userName r));
   ("score", JInt (score r));
   ("at", JInt (at_ r));
   ("content", JStr (content r));
   ("thumbsUpCount", JInt (default 0 (thumbsUpCount r)));
   ("appVersion", opt_json JStr (appVersion r));
   ("replyContent", opt_json JStr (replyContent r));
   ("repliedAt", opt_json JInt (repliedAt r))].

Definition build_reviews_lookup (reviews_df : DataFrame)
  : pydict (pydict json) :=
  fold_left (fun lookup r => dict_set (reviewId r) (review_dict r) lookup)
            reviews_df [].

(** The five accumulators of the counting loop. *)
Record tally := {
  topic_counts : kdict Z;
  unmapped_topics : list string;
  reviews_by_topic : kdict (list json);
  reviews_with_no_topics : list json;
  unmapped_reviews : pydict (list json)
}.

Definition empty_tally : tally :=
  {| topic_counts := []; unmapped_topics := []; reviews_by_topic := [];
     reviews_with_no_topics := []; unmapped_reviews := [] |}.

(** [reviews_lookup.get(review_id, {"reviewId": review_id})]. *)
Definition lookup_review (reviews_lookup : pydict (pydict json))
    (review_id : json) : pyres (pydict json) :=
  match review_id with
  | JStr s => Val (default [("reviewId", review_id)] (dict_get s reviews_lookup))
  | JArr _ | JObj _ | JDict _ => Exc TypeError
  | _ => Val [("reviewId", review_id)]
  end.

(** The body of [for topic in extracted_topics]. *)
Definition count_topic (mappings : pydict json) (review_data : pydict json)
    (acc : tally) (t : json) : pyres tally :=
  s <~ as_str t ;;
  let topic_lower := lower (strip s) in
  let mapping := default (JObj []) (dict_get topic_lower mappings) in
  mapped_id <~ obj_get "mapped_topic_id" JNull mapping ;;
  if truthy mapped_id then
    key <~ as_atom mapped_id ;;
    confidence <~ obj_get "confidence" (JInt 0) mapping ;;
    let review_entry :=
      dict_set "confidence" confidence
        (dict_set "extracted_topic" t review_data) in
    Val {| topic_counts := kcounter_incr key (topic_counts acc);
           unmapped_topics := unmapped_topics acc;
           reviews_by_topic :=
             kdict_append key (JObj review_entry) (reviews_by_topic acc);
           reviews_with_no_topics := reviews_with_no_topics acc;
           unmapped_reviews := unmapped_reviews acc |}
  else
    Val {| topic_counts := topic_counts acc;
           unmapped_topics := unmapped_topics acc ++ [s];
           reviews_by_topic := reviews_by_topic acc;
           reviews_with_no_topics := reviews_with_no_topics acc;
           unmapped_reviews :=
             dict_append topic_lower
               (JObj (dict_set "extracted_topic" t review_data))
               (unmapped_reviews acc) |}.

(** The body of [for result in extraction_results]. *)
Definition count_review (reviews_lookup : pydict (pydict json))
    (mappings : pydict json) (acc : tally) (result : json) : pyres tally :=
  review_id <~ obj_get "reviewId" (JStr "") result ;;
  extracted_topics <~ obj_get "extractedTopics" (JArr []) result ;;
  review_data <~ lookup_review reviews_lookup review_id ;;
  if negb (truthy extracted_topics) then
    Val {| topic_counts := topic_counts acc;
           unmapped_topics := unmapped_topics acc;
           reviews_by_topic := reviews_by_topic acc;
           reviews_with_no_topics :=
             reviews_with_no_topics acc ++ [JObj review_data];
           unmapped_reviews := unmapped_reviews acc |}
  else
    items <~ iterate extracted_topics ;;
    pfor_each (count_topic mappings review_data) items acc.

Definition count_reviews (reviews_lookup : pydict (pydict json))
    (mappings : pydict json) (extraction_results : list json) : pyres tally :=
  pfor_each (count_review reviews_lookup mappings) extraction_results
            empty_tally.

(** What the promotion loop carries. *)
Record promotion := {
  new_topics_to_add : list topic;
  p_topic_counts : kdict Z;
  p_reviews_by_topic : kdict (list json);
  topic_id_to_name : kdict json
}.

(** The body of [for topic, count in unmapped_counts.items()].  The new
    topic takes the suggestions of the model as they come; its id then
    keys [topic_counts], which a list or a dict cannot. *)
Definition consider_topic (existing_names : list json)
    (the_unmapped_reviews : pydict (list json)) (date_str : Z)
    (groq_client : GroqClient) (acc : promotion) (item : string * Z)
  : M promotion :=
  let '(phrase, count) := item in
  if MIN_TOPIC_OCCURRENCES <=? count then
    validation <- validate_new_topic phrase existing_names groq_client ;;
    is_valid <- lift (obj_get "is_valid" (JBool false) validation) ;;
    if truthy is_valid then
      suggested_id <-
        lift (obj_get "suggested_topic_id" (JStr (generate_topic_id phrase))
                      validation) ;;
      name <-
        lift (obj_get "suggested_topic_name" (JStr (title phrase))
                      validation) ;;
      cat <- lift (obj_get "suggested_category" (JStr "issue") validation) ;;
      id <- lift (as_atom suggested_id) ;;
      let new_topic :=
        {| topic_id := id; topic_name := name; category := cat;
           variations := [phrase];
           description := String.append "Auto-discovered topic: " phrase;
           added_date := date_str; is_seed := false; app_specific := true |} in
      ret {| new_topics_to_add := new_topics_to_add acc ++ [new_topic];
             p_topic_counts := kdict_set id count (p_topic_counts acc);
             p_reviews_by_topic :=
               kdict_set id (default [] (dict_get phrase the_unmapped_reviews))
                         (p_reviews_by_topic acc);
             topic_id_to_name := kdict_set id name (topic_id_to_name acc) |}
    else ret acc
  else ret acc.

(** Lines 208-245: load the taxonomy, then validate and promote the
    frequent unmapped phrases. *)
Definition discover_new_topics (counted : tally) (unmapped_counts : pydict Z)
    (app_id : string) (date_str : Z) (groq_client : GroqClient)
  : M promotion :=
  tx <- load_app_taxonomy app_id ;;
  let existing_names := map topic_name (topics tx) in
  for_each
    (consider_topic existing_names (unmapped_reviews counted) date_str
                    groq_client)
    unmapped_counts
    {| new_topics_to_add := [];
       p_topic_counts := topic_counts counted;
       p_reviews_by_topic := reviews_by_topic counted;
       topic_id_to_name :=
         fold_left (fun d t => kdict_set (topic_id t) (topic_name t) d)
                   (topics tx) [] |}.

(** [sum(c.values())]. *)
Definition sum_values {K} (c : list (K * Z)) : Z :=
  fold_left Z.add (map snd c) 0.

Definition len {A} (l : list A) : Z := Z.of_nat (length l).

Definition count_json (c : pydict Z) : json :=
  JObj (map (fun '(k, n) => (k, JInt n)) c).

(** [dict(topic_counts)]. *)
Definition frequencies_json (c : kdict Z) : json :=
  py_dict (map (fun '(k, n) => (k, JInt n)) c).

Definition topic_entry (names : kdict json) (item : atom * list json)
  : atom * json :=
  let '(id, reviews_list) := item in
  (id, JObj [("topic_name", default (atom_json id) (kdict_get id names));
             ("count", JInt (len reviews_list));
             ("reviews", JArr reviews_list)]).

Definition unmapped_entry (item : string * list json) : string * json :=
  let '(topic_text, reviews_list) := item in
  (topic_text, JObj [("count", JInt (len reviews_list));
                     ("reviews", JArr reviews_list)]).

(** [not any(t['topic_id'] == generate_topic_id(topic_text) for t in
    new_topics_to_add)]. *)
Definition not_promoted (new_topics : list topic) (item : string * list json)
  : bool :=
  negb (existsb (fun t => atom_eqb (topic_id t)
                                   (AStr (generate_topic_id (fst item))))
                new_topics).

Definition below_threshold (item : string * Z) : bool :=
  snd item <? MIN_TOPIC_OCCURRENCES.

Definition get_now : M Z := fun w => Ok (now w) w.

Definition consolidate_and_discover (extraction_results : list json)
    (mappings : pydict json) (app_id : string) (date_str : Z)
    (reviews_df : DataFrame) (groq_client : GroqClient) : M json :=
  let reviews_lookup := build_reviews_lookup reviews_df in
  counted <- lift (count_reviews reviews_lookup mappings extraction_results) ;;
  let unmapped_counts := Counter (map lower (unmapped_topics counted)) in
  promoted <-
    discover_new_topics counted unmapped_counts app_id date_str groq_client ;;
  (if is_empty (new_topics_to_add promoted) then ret tt
   else add_topics_to_taxonomy app_id (new_topics_to_add promoted)) ;;;
  processed_at <- get_now ;;
  let total_reviews := len extraction_results in
  let without := len (reviews_with_no_topics counted) in
  let mentions := sum_values (p_topic_counts promoted) in
  let batch_data :=
    JObj [("app_id", JStr app_id);
          ("date", JInt date_str);
          ("total_reviews", JInt total_reviews);
          ("reviews_with_topics", JInt (total_reviews - without));
          ("reviews_without_topics", JInt without);
          ("total_topic_mentions", JInt mentions);
          ("topic_frequencies", frequencies_json (p_topic_counts promoted));
          ("new_topics_discovered",
            JArr (map (fun t => atom_json (topic_id t))
                      (new_topics_to_add promoted)));
          ("unmapped_count",
            JInt (len (List.filter below_threshold unmapped_counts)));
          ("processed_at", JInt processed_at)] in
  save_batch app_id date_str batch_data ;;;
  generated_at <- get_now ;;
  let detailed_data :=
    JObj [("app_id", JStr app_id);
          ("date", JInt date_str);
          ("generated_at", JInt generated_at);
          ("summary",
            JObj [("total_reviews", JInt total_reviews);
                  ("reviews_with_topics", JInt (total_reviews - without));
                  ("reviews_without_topics", JInt without);
                  ("total_topic_mentions", JInt mentions);
                  ("unique_topics", JInt (len (p_topic_counts promoted)))]);
          ("topics",
            py_dict (map (topic_entry (topic_id_to_name promoted))
                         (p_reviews_by_topic promoted)));
          ("unmapped_topics",
            JObj (map unmapped_entry
                      (List.filter (not_promoted (new_topics_to_add promoted))
                                   (unmapped_reviews counted))));
          ("reviews_without_extractable_topics",
            JArr (reviews_with_no_topics counted))] in
  save_details app_id date_str detailed_data ;;;
  ret batch_data.

(** ** main.py *)

Definition process_single_day (reviews_df : DataFrame) (date_str : Z)
    (app_id : string) (groq_client : GroqClient) : M json :=
  let day_reviews := get_reviews_for_date reviews_df date_str in
  if is_empty day_reviews then
    ret (JObj [("app_id", JStr app_id);
               ("date", JInt date_str);
               ("total_reviews", JInt 0);
               ("topic_frequencies", JObj []);
               ("new_topics_discovered", JArr [])])
  else
    extraction_results <- extract_topics_for_reviews day_reviews groq_client ;;
    tx <- load_app_taxonomy app_id ;;
    mappings <- map_topics_to_taxonomy extraction_results tx groq_client ;;
    consolidate_and_discover extraction_results mappings app_id date_str
                             day_reviews groq_client.

(** Step 4 of [orchestrate_analysis]: the loop over the days. *)
Definition process_days (reviews_df : DataFrame) (date_strings : list Z)
    (app_id : string) (groq_client : GroqClient) : M unit :=
  for_each
    (fun _ date_str =>
       process_single_day reviews_df date_str app_id groq_client ;;; ret tt)
    date_strings tt.

(** Steps 2 to 4 of [orchestrate_analysis]; the report of step 5 reads the
    saved batches and writes none. *)
Definition orchestrate_analysis (app_id : string) (target_date : Z)
    (groq_client : GroqClient) : M unit :=
  reviews_df <- smart_scrape app_id target_date ;;
  if is_empty reviews_df then ret tt
  else
    process_days reviews_df (get_date_strings_in_range target_date)
                 app_id groq_client.

(** ** More of src/agents/consolidator.py *)

(** [sorted(items, key=lambda x: x[1], reverse=True)]: items with equal
    counts keep their order. *)
Fixpoint insert_by_count (item : string * Z) (l : list (string * Z))
  : list (string * Z) :=
  match l with
  | [] => [item]
  | x :: l' =>
      if snd x <=? snd item then item :: x :: l'
      else x :: insert_by_count item l'
  end.

Fixpoint sorted_by_count (l : list (string * Z)) : list (string * Z) :=
  match l with
  | [] => []
  | item :: l' => insert_by_count item (sorted_by_count l')
  end.

(** The counts of a saved [topic_frequencies] object; the model follows
    integer counts only. *)
Fixpoint frequency_items (d : pydict json) : pyres (list (string * Z)) :=
  match d with
  | [] => Val []
  | (k, JInt n) :: d' => items <~ frequency_items d' ;; Val ((k, n) :: items)
  | _ => Exc Unmodelled
  end.

Definition get_topic_frequency_summary (batch_data : json)
  : pyres (list (string * Z)) :=
  frequencies <~ obj_get "topic_frequencies" (JObj []) batch_data ;;
  match frequencies with
  | JObj d => items <~ frequency_items d ;; Val (sorted_by_count items)
  | _ => Exc AttributeError
  end.

(** ** More of src/utils/groq_client.py *)

Definition MAX_RETRIES : nat := 3.

(** What one call of [chat.completions.create] does: it raises, or it
    returns a message whose content may be [None]. *)
Inductive api_reply :=
| ApiError
| ApiContent (message_content : option string).

(** What [send_message] returns, with the attempts it made and the
    seconds it slept between them. *)
Record sent := {
  sent_response : option string;
  sent_attempts : nat;
  sent_sleeps : list Z
}.

(** The [for attempt in range(MAX_RETRIES)] loop from [attempt] on, with
    [remaining] rounds left; [api n] is the outcome of the call number
    [n]. *)
Fixpoint send_message_from (api : nat -> api_reply) (attempt remaining : nat)
    (sleeps : list Z) : sent :=
  match remaining with
  | O => {| sent_response := None; sent_attempts := attempt;
            sent_sleeps := sleeps |}
  | S remaining' =>
      match api attempt with
      | ApiContent c =>
          {| sent_response := c; sent_attempts := S attempt;
             sent_sleeps := sleeps |}
      | ApiError =>
          if Nat.ltb attempt (MAX_RETRIES - 1)
          then send_message_from api (S attempt) remaining'
                 (sleeps ++ [2 ^ Z.of_nat attempt])
          else {| sent_response := None; sent_attempts := S attempt;
                  sent_sleeps := sleeps |}
      end
  end.

Definition send_message (api : nat -> api_reply) : sent :=
  send_message_from api 0 MAX_RETRIES [].

(** ** More of src/utils/date_utils.py *)

Definition is_date_in_range (dt start_date end_date : Z) : bool :=
  (start_date <=? dt) && (dt <=? end_date).

(** * Specification vocabulary *)

(** The field of a JSON object. *)
Definition field (k : string) (v : json) : option json :=
  match v with
  | JObj d => dict_get k d
  | JDict d => kdict_get (AStr k) d
  | _ => None
  end.

(** ** Confidence gating *)

(** The confidence the consolidator reads from a mapping is below the
    threshold. *)
Definition confidence_below_threshold (r : json) : Prop :=
  ∃ c, obj_get "confidence" (JFloat 0%float) r = Val c
       ∧ lt_float c CONFIDENCE_THRESHOLD = Val true.

(** The mapping carries an explicit null id. *)
Definition mapped_topic_id_null (r : json) : Prop :=
  ∃ d, r = JObj d ∧ dict_get "mapped_topic_id" d = Some JNull.

Definition gated (r : json) : Prop :=
  confidence_below_threshold r → mapped_topic_id_null r.

Definition all_gated (mappings : pydict json) : Prop :=
  ∀ key r, dict_get key mappings = Some r → gated r.

(** The mapping results the topic mapper hands out: from one call for one
    topic, from one batch call, and as the values of the dictionary passed
    to the consolidator. *)
Inductive mapper_result (groq_client : GroqClient) (r : json) : Prop :=
| from_single (extracted_topic : string) (tx : taxonomy) (w w' : world) :
    map_single_topic extracted_topic tx groq_client w = Ok r w' →
    mapper_result groq_client r
| from_batch (extracted_topics : list string) (tx : taxonomy)
    (w w' : world) (results : list json) :
    map_topics_batch extracted_topics tx groq_client w = Ok results w' →
    r ∈ results →
    mapper_result groq_client r
| from_mappings (extraction_results : list json) (tx : taxonomy)
    (w w' : world) (mappings : pydict json) (key : string) :
    map_topics_to_taxonomy extraction_results tx groq_client w
      = Ok mappings w' →
    dict_get key mappings = Some r →
    mapper_result groq_client r.

(** ** The review store *)

Definition ids (df : DataFrame) : list string := map reviewId df.

(** The last row of [df] that carries the id, if any. *)
Fixpoint last_with_id (id : string) (df : DataFrame) : option review :=
  match df with
  | [] => None
  | r :: df' =>
      match last_with_id id df' with
      | Some r' => Some r'
      | None => if String.eqb id (reviewId r) then Some r else None
      end
  end.

(** Newest first. *)
Definition sorted_desc (df : DataFrame) : Prop :=
  Sorted (λ a b, at_ b ≤ at_ a) df.

(** The date of every row lies in the window. *)
Definition within_window (start_date end_date : Z) (df : DataFrame) : Prop :=
  Forall (λ r, date start_date ≤ date (at_ r) ≤ date end_date) df.

(** The rows of a table that are dated within the window, in the order
    of the table. *)
Definition rows_in_window (start_date end_date : Z) (df : DataFrame)
  : DataFrame :=
  List.filter
    (λ r, bool_decide (date start_date ≤ date (at_ r) ≤ date end_date)) df.

(** The store covers the window, day-wise. *)
Definition covered (start_date end_date : Z) (store : DataFrame) : Prop :=
  date (at_min store) ≤ date start_date ∧ date end_date ≤ date (at_max store).

(** ** Promotion *)

(** The count a counter holds for a key, 0 when the key is absent. *)
Definition get0 (k : string) (c : pydict Z) : Z := default 0 (dict_get k c).

Definition kget0 (k : atom) (c : kdict Z) : Z := default 0 (kdict_get k c).

(** How often the phrase occurs in a list of phrases. *)
Definition occurrences (p : string) (l : list string) : Z :=
  len (List.filter (String.eqb p) l).

(** The phrases extracted for one review, as the loops iterate them. *)
Definition extracted_phrases (result : json) : list string :=
  match field "extractedTopics" result with
  | Some (JArr items) =>
      omap (λ t, match t with JStr s => Some s | _ => None end) items
  | Some (JStr s) => chars s
  | Some (JObj d) => dict_keys d
  | Some (JDict d) =>
      omap (λ kv, match fst kv with AStr s => Some s | _ => None end) d
  | _ => []
  end.

(** The phrase has no mapping, or a mapping without a topic id. *)
Definition is_unmapped (mappings : pydict json) (s : string) : bool :=
  negb (truthy
          (default JNull
             (dict_get (lower (strip s)) mappings ≫= field "mapped_topic_id"))).

(** The lowercased unmapped phrases of a day, with repetitions: the
    phrases extracted for its reviews, in order, that have no mapped topic
    id. *)
Definition unmapped_phrases (mappings : pydict json)
    (extraction_results : list json) : list string :=
  map lower (List.filter (is_unmapped mappings)
                         (concat (map extracted_phrases extraction_results))).

(** The ids are pairwise different, as sets and dicts compare them. *)
Definition distinct_ids (ids : list atom) : Prop :=
  NoDup (map atom_class ids).

(** The phrase a discovered topic was built from. *)
Definition phrase_of (t : topic) : string := hd "" (variations t).

(** The model accepts the phrase in some validation call. *)
Definition accepts (groq_client : GroqClient) (p : string) : Prop :=
  ∃ history names v b,
    groq_client history (ValidationPrompt names p) = Some v
    ∧ obj_get "is_valid" (JBool false) v = Val b
    ∧ truthy b = true.

(** The reply says that the phrase is a valid new topic. *)
Definition accepted_reply (reply : option json) : Prop :=
  ∃ v b, reply = Some v
         ∧ obj_get "is_valid" (JBool false) v = Val b
         ∧ truthy b = true.

(** Between the call logs [before] and [after] the phrase was sent for
    validation, and the model gave [reply]. *)
Definition validated_with (groq_client : GroqClient)
    (before after : list prompt) (p : string) (reply : option json) : Prop :=
  ∃ earlier names later,
    after = before ++ earlier ++ ValidationPrompt names p :: later
    ∧ reply = groq_client (before ++ earlier) (ValidationPrompt names p).

Definition accepted_in (groq_client : GroqClient)
    (before after : list prompt) (p : string) : Prop :=
  ∃ reply, validated_with groq_client before after p reply
           ∧ accepted_reply reply.

Definition rejected_in (groq_client : GroqClient)
    (before after : list prompt) (p : string) : Prop :=
  ∀ reply, validated_with groq_client before after p reply
           → ¬ accepted_reply reply.

(** The counts of the day once the discovered topics are folded in. *)
Definition fold_in_counts (phrases : list string) (new_topics : list topic)
    (mapped_counts : kdict Z) : kdict Z :=
  fold_left
    (λ c t, kdict_set (topic_id t) (occurrences (phrase_of t) phrases) c)
    new_topics mapped_counts.

(** The model calls of [w'] are those of [w] followed by calls that all
    satisfy [Q]. *)
Definition llm_extends (Q : prompt → Prop) (w w' : world) : Prop :=
  ∃ calls, llm_calls w' = llm_calls w ++ calls ∧ Forall Q calls.

(** A validation call for a phrase that reached the threshold. *)
Definition frequent_validation (phrases : list string) (c : prompt) : Prop :=
  ∃ names q, c = ValidationPrompt names q
             ∧ MIN_TOPIC_OCCURRENCES ≤ occurrences q phrases.

(** One day's input to the consolidator. *)
Record day_input := {
  day_extraction_results : list json;
  day_mappings : pydict json;
  day_date : Z;
  day_reviews : DataFrame
}.

(** The consolidation of consecutive days, one call per day. *)
Definition consolidate_days (days : list day_input) (app_id : string)
    (groq_client : GroqClient) : M unit :=
  for_each
    (λ _ d,
       consolidate_and_discover (day_extraction_results d) (day_mappings d)
         app_id (day_date d) (day_reviews d) groq_client ;;; ret tt)
    days tt.

(** The lowercased unmapped phrases of a day's input. *)
Definition day_phrases (d : day_input) : list string :=
  unmapped_phrases (day_mappings d) (day_extraction_results d).

(** No validation call for the phrase. *)
Definition not_validating (p : string) (c : prompt) : Prop :=
  ∀ names, c ≠ ValidationPrompt names p.

(** ** Reading saved documents *)


(** ** Sample inputs *)

Definition sample_review (id : string) (posted : Z) (text : string) : review :=
  {| reviewId := id; userName := "user"; score := 1; at_ := posted;
     content := text; thumbsUpCount := Some 0; appVersion := None;
     replyContent := None; repliedAt := None |}.

(** Nothing on disk, a silent store, an idle clock. *)
Definition fresh_world : world :=
  {| reviews_csv := ∅; taxonomy_json := ∅; batch_json := ∅;
     details_json := ∅; now := 0; play_store := λ _, [];
     hash_order := λ l, l; llm_calls := []; fetch_calls := [] |}.

(** A client whose every call fails. *)
Definition silent_client : GroqClient := λ _ _, None.

Definition extraction_of (id : string) (phrases : list string) : json :=
  JObj [("reviewId", JStr id); ("extractedTopics", JArr (map JStr phrases))].

Definition mapping_of (phrase : string) (id : json) (confidence : float)
  : json :=
  JObj [("extracted_topic", JStr phrase); ("mapped_topic_id", id);
        ("confidence", JFloat confidence); ("reasoning", JStr "sample")].

Definition acceptance (phrase id name : string) : json :=
  JObj [("topic", JStr phrase); ("is_valid", JBool true);
        ("suggested_topic_id", JStr id);
        ("suggested_topic_name", JStr name);
        ("suggested_category", JStr "issue");
        ("reasoning", JStr "sample")].

(** Five reviews of one day, each with the phrase "App freezes". *)
Definition freeze_day : Z := 100.

Definition freeze_reviews : DataFrame :=
  map (λ id, sample_review id (freeze_day * SECONDS_PER_DAY) "App freezes")
      ["r1"; "r2"; "r3"; "r4"; "r5"].

Definition freeze_extractions : list json :=
  map (λ id, extraction_of id ["App freezes"]) ["r1"; "r2"; "r3"; "r4"; "r5"].

Definition freeze_mappings : pydict json :=
  [("app freezes", mapping_of "app freezes" JNull 0x1p-2%float)].

(** The model accepts every phrase and suggests the given id for it. *)
Definition accepting_client (id name : string) : GroqClient :=
  λ _ p,
    match p with
    | ValidationPrompt _ phrase => Some (acceptance phrase id name)
    | _ => None
    end.

(** The property of the result of a run that succeeds. *)
Definition on_success {A} (o : outcome A) (P : A → world → Prop) : Prop :=
  match o with
  | Ok a w => P a w
  | Raise _ _ => False
  end.

(** The value found by descending through nested objects. *)
Fixpoint at_path (keys : list string) (v : json) : option json :=
  match keys with
  | [] => Some v
  | k :: keys' =>
      match field k v with
      | Some v' => at_path keys' v'
      | None => None
      end
  end.

(** A part of the detailed export saved for a date. *)
Definition saved_detail (w : world) (app_id : string) (date_str : Z)
    (path : list string) : option json :=
  (details_json w !! (app_id, date_str)) ≫= at_path path.

(** The ids of the taxonomy saved for an app. *)
Definition saved_topic_ids (w : world) (app_id : string)
  : option (list atom) :=
  (λ tx, map topic_id (topics tx)) <$> (taxonomy_json w !! app_id).

Definition login_failure : topic :=
  {| topic_id := AStr "login_failure"; topic_name := JStr "Login Failure";
     category := JStr "issue"; variations := ["cannot log in"];
     description := "Auto-discovered topic: cannot log in";
     added_date := 100; is_seed := false; app_specific := true |}.

(** Two reviews of the same day mapped to a seed topic, next to the five
    of [freeze_reviews]. *)
Definition crash_reviews : DataFrame :=
  map (λ id, sample_review id (freeze_day * SECONDS_PER_DAY) "App crash")
      ["c1"; "c2"].

Definition crash_extractions : list json :=
  map (λ id, extraction_of id ["app crash"]) ["c1"; "c2"].

Definition crash_mappings : pydict json :=
  [("app crash", mapping_of "app crash" (JStr "app_technical") 0x1.cp-1%float)].

(** The same two reviews mapped to a topic whose id is a number. *)
Definition numbered_mappings : pydict json :=
  [("app crash", mapping_of "app crash" (JInt 7) 0x1.cp-1%float)].

(** A store covering 2024-06-01 to 2024-06-30 (days 19875 to 19904), and
    a feed with one page: a review of 2024-07-03, one of 2024-07-01, the
    stored review of 2024-06-30 again, and an older one. *)
Definition june_store : DataFrame :=
  [sample_review "j30" (19904 * SECONDS_PER_DAY) "late again";
   sample_review "j01" (19875 * SECONDS_PER_DAY) "cold food"].

Definition july_feed : list page_reply :=
  [Page [sample_review "x03" (19907 * SECONDS_PER_DAY) "too new";
         sample_review "x01" (19905 * SECONDS_PER_DAY + 3600) "app crash";
         sample_review "j30" (19904 * SECONDS_PER_DAY) "late again, edited";
         sample_review "j29" (19903 * SECONDS_PER_DAY) "too old"]
        (Some "next")].

Definition june_world : world :=
  {| reviews_csv := {[ "app" := june_store ]}; taxonomy_json := ∅;
     batch_json := ∅; details_json := ∅; now := 0;
     play_store := λ _, july_feed; hash_order := λ l, l;
     llm_calls := []; fetch_calls := [] |}.

(** No store yet, and a feed whose second page lists the last review of
    the first page again, as happens when a review arrives between two
    requests. *)
Definition overlapping_feed : list page_reply :=
  [Page [sample_review "a" (100 * SECONDS_PER_DAY) "late";
         sample_review "b" (99 * SECONDS_PER_DAY + 7200) "cold"]
        (Some "next");
   Page [sample_review "b" (99 * SECONDS_PER_DAY + 7200) "cold";
         sample_review "c" (99 * SECONDS_PER_DAY + 3600) "slow"]
        None].

Definition overlapping_world : world :=
  {| reviews_csv := ∅; taxonomy_json := ∅; batch_json := ∅;
     details_json := ∅; now := 0; play_store := λ _, overlapping_feed;
     hash_order := λ l, l; llm_calls := []; fetch_calls := [] |}.

(** A store with a single review, of day 100. *)
Definition one_review_world : world :=
  {| reviews_csv := {[ "app" := [sample_review "r1" (100 * SECONDS_PER_DAY) "ok"] ]};
     taxonomy_json := ∅; batch_json := ∅; details_json := ∅; now := 0;
     play_store := λ _, []; hash_order := λ l, l;
     llm_calls := []; fetch_calls := [] |}.

(** A review on each of two consecutive days, and a client whose
    extraction reply for the review of day 99 is a list of bare strings;
    its other calls fail. *)
Definition two_days : DataFrame :=
  [sample_review "d100" (100 * SECONDS_PER_DAY) "late delivery";
   sample_review "d99" (99 * SECONDS_PER_DAY) "late delivery"].

Definition bare_strings_client : GroqClient :=
  λ _ p,
    match p with
    | ExtractionPrompt reviews =>
        if bool_decide ("d99" ∈ map reviewId reviews)
        then Some (JArr [JStr "late delivery"])
        else None
    | _ => None
    end.

(** A client that answers a batch mapping with a confident id at low
    confidence. *)
Definition low_confidence_client : GroqClient :=
  λ _ p,
    match p with
    | BatchMappingPrompt _ ts =>
        Some (JArr (map (λ t, mapping_of t (JStr "app_technical") 0x1p-1%float)
                        ts))
    | _ => None
    end.

(** Three reviews a day with the phrase "slow refund", on two days. *)
Definition refund_day (day : Z) : day_input :=
  {| day_extraction_results :=
       map (λ id, extraction_of id ["Slow refund"]) ["a"; "b"; "c"];
     day_mappings := [("slow refund", mapping_of "slow refund" JNull 0x1p-2%float)];
     day_date := day;
     day_reviews :=
       map (λ id, sample_review id (day * SECONDS_PER_DAY) "Slow refund")
           ["a"; "b"; "c"] |}.

(** ** More vocabulary *)

(** The rows stored for an app, none when there is no file. *)
Definition store_of (w : world) (app_id : string) : DataFrame :=
  default [] (reviews_csv w !! app_id).

(** The time stamp of every row lies between the cutoff and the
    reference. *)
Definition between (cutoff_date reference_date : Z) (df : DataFrame) : Prop :=
  Forall (λ r, cutoff_date ≤ at_ r ≤ reference_date) df.

(** The rows of all pages of a feed. *)
Definition feed_rows (replies : list page_reply) : DataFrame :=
  concat (map (λ reply, match reply with
                        | Page result _ => result
                        | PageError => []
                        end) replies).

(** The world after some more model calls, and nothing else. *)
Definition log_llm_calls (calls : list prompt) (w : world) : world :=
  fold_left (λ w p, log_llm_call p w) calls w.

(** Only the log of model calls grew. *)
Definition only_llm_calls (w w' : world) : Prop :=
  ∃ calls, w' = log_llm_calls calls w.

(** The world once the topics discovered in a day are added to the
    taxonomy [tx] of the app. *)
Definition with_discovered (app_id : string) (tx : taxonomy)
    (new_topics : list topic) (w : world) : world :=
  if is_empty new_topics then w
  else set_taxonomy_json
         (insert app_id
            (with_last_updated (now w)
               (with_topics
                  (topics tx
                   ++ List.filter
                        (λ t, negb (set_mem (topic_id t)
                                            (map topic_id (topics tx))))
                        new_topics)
                  tx)))
         w.

(** The phrase occurrences a tally has counted, mapped or not. *)
Definition tallied (acc : tally) : Z :=
  sum_values (topic_counts acc) + len (unmapped_topics acc).

(** The count of every topic is the number of reviews attached to it. *)
Definition counts_match_reviews (acc : tally) : Prop :=
  ∀ id, kget0 id (topic_counts acc)
        = len (default [] (kdict_get id (reviews_by_topic acc))).

(** Every character of the string passes the test. *)
Fixpoint string_forall (f : ascii → bool) (s : string) : bool :=
  match s with
  | EmptyString => true
  | String c s' => f c && string_forall f s'
  end.

(** A lowercase letter, a digit or an underscore. *)
Definition is_slug_char (c : ascii) : bool :=
  islower c || isdigit c || Ascii.eqb c "_".

(** Most frequent first. *)
Definition by_count_desc (l : list (string * Z)) : Prop :=
  Sorted (λ a b, snd b ≤ snd a) l.

(** The model gives no list in reply to an extraction prompt. *)
Definition extraction_fails (groq_client : GroqClient) : Prop :=
  ∀ history reviews items,
    groq_client history (ExtractionPrompt reviews) ≠ Some (JArr items).

(** The items collected from the replies to the batches of an extraction
    that starts after the calls of [history]: the items of a reply that is
    a list, and an empty list of topics per review of the batch
    otherwise. *)
Fixpoint collected_replies (groq_client : GroqClient) (history : list prompt)
    (batches : list DataFrame) : list json :=
  match batches with
  | [] => []
  | batch :: batches =>
      match groq_client history (ExtractionPrompt batch) with
      | Some (JArr items) => items
      | _ => map empty_extraction batch
      end
      ++ collected_replies groq_client (history ++ [ExtractionPrompt batch])
           batches
  end.

(** An item of an extraction reply whose topics can be counted: a dict
    whose [extractedTopics], when it has one, is a string, a list or a
    dict. *)
Definition has_sized_topics (r : json) : bool :=
  match r with
  | JObj _ | JDict _ =>
      match field "extractedTopics" r with
      | None | Some (JStr _) | Some (JArr _) | Some (JObj _)
      | Some (JDict _) => true
      | Some _ => false
      end
  | _ => false
  end.

(** A batch is not empty and not larger than the batch size. *)
Definition batch_sized {A} (n : nat) (batch : list A) : Prop :=
  (0 < length batch ≤ n)%nat.

(** The result is the item of the reply when the confidence of the item,
    0.0 if it has none, is not below the threshold; otherwise it is the
    item with [mapped_topic_id] set to [None] and every other field as it
    was. *)
Definition gated_from (item result : json) : Prop :=
  ∃ below,
    lt_float (default (JFloat 0%float) (field "confidence" item))
             CONFIDENCE_THRESHOLD = Val below
    ∧ (below = false → result = item)
    ∧ (below = true →
       field "mapped_topic_id" result = Some JNull
       ∧ ∀ k, k ≠ "mapped_topic_id" → field k result = field k item).

(** * Properties *)

(** ** Dictionaries *)

Section Dict.
Context {V : Type}.
Implicit Types (d : pydict V) (k : string) (v : V).

Lemma dict_get_set_eq k v d : dict_get k (dict_set k v d) = Some v.
Proof.
  induction d as [|[k' v'] d IH]; simpl.
  - by rewrite String.eqb_refl.
  - destruct (String.eqb_spec k k') as [->|Hne]; simpl.
    + by rewrite String.eqb_refl.
    + by apply String.eqb_neq in Hne as ->.
Qed.

Lemma dict_get_set_ne k k' v d :
  k ≠ k' → dict_get k' (dict_set k v d) = dict_get k' d.
Proof.
  intros Hne. induction d as [|[k0 v0] d IH]; simpl.
  - destruct (String.eqb_spec k' k); congruence.
  - destruct (String.eqb_spec k k0) as [->|Hk]; simpl.
    + destruct (String.eqb_spec k' k0); congruence.
    + destruct (String.eqb_spec k' k0); congruence.
Qed.

Lemma dict_get_set k k' v d :
  dict_get k' (dict_set k v d) = if String.eqb k k' then Some v else dict_get k' d.
Proof.
  destruct (String.eqb_spec k k') as [->|Hne].
  - apply dict_get_set_eq.
  - by apply dict_get_set_ne.
Qed.

Lemma dict_keys_set k v d :
  dict_keys (dict_set k v d) =
    if bool_decide (k ∈ dict_keys d) then dict_keys d else dict_keys d ++ [k].
Proof.
  induction d as [|[k' v'] d IH]; simpl; [done|].
  destruct (String.eqb_spec k k') as [->|Hne]; simpl.
  - rewrite bool_decide_eq_true_2; [done | left].
  - rewrite IH. unfold dict_keys; simpl.
    destruct (bool_decide_reflect (k ∈ map fst d)) as [Hin|Hin].
    + rewrite bool_decide_eq_true_2; [done | by right].
    + rewrite bool_decide_eq_false_2; [done|].
      intros [->|?]%elem_of_cons; done.
Qed.

Lemma dict_get_None k d : dict_get k d = None ↔ k ∉ dict_keys d.
Proof.
  induction d as [|[k' v'] d IH]; simpl.
  - split; [intros _; apply not_elem_of_nil | done].
  - unfold dict_keys; simpl. destruct (String.eqb_spec k k') as [->|Hne].
    + split; [done | intros []; left].
    + rewrite IH. unfold dict_keys. rewrite not_elem_of_cons. tauto.
Qed.

Lemma dict_get_Some_elem k v d : dict_get k d = Some v → (k, v) ∈ d.
Proof.
  induction d as [|[k' v'] d IH]; simpl; [done|].
  destruct (String.eqb_spec k k') as [->|Hne].
  - intros [= ->]. left.
  - intros. right. auto.
Qed.
End Dict.

(** ** The monad *)

Lemma bind_Ok {A B} (c : M A) (k : A → M B) w b w' :
  bind c k w = Ok b w' → ∃ a w1, c w = Ok a w1 ∧ k a w1 = Ok b w'.
Proof. unfold bind. destruct (c w) as [a w1|]; [eauto | done]. Qed.

Lemma lift_Ok {A} (c : pyres A) w a w' :
  lift c w = Ok a w' → c = Val a ∧ w' = w.
Proof. unfold lift. destruct c; [by intros [= -> ->] | done]. Qed.

Lemma ret_Ok {A} (a : A) w a' w' : ret a w = Ok a' w' → a' = a ∧ w' = w.
Proof. by intros [= -> ->]. Qed.

Lemma pbind_Val {A B} (c : pyres A) (k : A → pyres B) b :
  pbind c k = Val b → ∃ a, c = Val a ∧ k a = Val b.
Proof. destruct c; [eauto | done]. Qed.

(** Invariants of loops. *)
Lemma for_each_Ok_inv {A S} (P : S → Prop) (f : S → A → M S) l :
  (∀ s x w s' w', x ∈ l → P s → f s x w = Ok s' w' → P s') →
  ∀ s w s' w', P s → for_each f l s w = Ok s' w' → P s'.
Proof.
  induction l as [|x l IH]; simpl; intros Hf s w s' w' Hs Hrun.
  - by apply ret_Ok in Hrun as [-> _].
  - apply bind_Ok in Hrun as (s1 & w1 & Hx & Hrest).
    eapply IH; [|eapply Hf; [left|exact Hs|exact Hx]|exact Hrest].
    intros s2 y w2 s3 w3 Hy. apply Hf. by right.
Qed.


Lemma pmap_Val_Forall {A B} (P : B → Prop) (f : A → pyres B) l :
  (∀ x y, f x = Val y → P y) →
  ∀ ys, pmap f l = Val ys → Forall P ys.
Proof.
  intros Hf. induction l as [|x l IH]; simpl; intros ys Hrun.
  - injection Hrun as <-. constructor.
  - apply pbind_Val in Hrun as (y & Hy & Hrun).
    apply pbind_Val in Hrun as (ys' & Hys & [= <-]).
    constructor; eauto.
Qed.

(** ** Confidence gating *)

Lemma failed_mapping_gated t reason : gated (failed_mapping t reason).
Proof. intros _. eexists. split; [reflexivity|]. reflexivity. Qed.

Lemma gate_dict_gated d below :
  lt_float (get_default "confidence" (JFloat 0%float) d) CONFIDENCE_THRESHOLD
    = Val below →
  gated (JObj (if below then dict_set "mapped_topic_id" JNull d else d)).
Proof.
  intros Hlt (c & Hc & Hbelow). destruct below.
  - eexists. split; [reflexivity|]. apply dict_get_set_eq.
  - simpl in Hc. injection Hc as <-. congruence.
Qed.

Lemma map_single_topic_gated t tx groq_client w r w' :
  map_single_topic t tx groq_client w = Ok r w' → gated r.
Proof.
  unfold map_single_topic. intros Hrun.
  apply bind_Ok in Hrun as (result & w1 & _ & Hrun).
  destruct result as [[| | | | |items|d|]|].
  1-6, 8, 9: apply ret_Ok in Hrun as [-> _]; apply failed_mapping_gated.
  apply bind_Ok in Hrun as (below & w2 & Hlt & Hrun).
  apply lift_Ok in Hlt as [Hlt _]. apply ret_Ok in Hrun as [-> _].
  by apply gate_dict_gated.
Qed.

Lemma apply_confidence_threshold_gated r r' :
  apply_confidence_threshold r = Val r' → gated r'.
Proof.
  unfold apply_confidence_threshold. intros Hrun.
  apply pbind_Val in Hrun as (c & Hc & Hrun).
  apply pbind_Val in Hrun as (below & Hlt & Hrun).
  destruct r as [| | | | | |d|]; try done.
  injection Hrun as <-. simpl in Hc. injection Hc as <-.
  by apply gate_dict_gated.
Qed.

Lemma map_topics_batch_gated ts tx groq_client w results w' :
  map_topics_batch ts tx groq_client w = Ok results w' → Forall gated results.
Proof.
  unfold map_topics_batch. destruct (is_empty ts).
  { intros [-> _]%ret_Ok. constructor. }
  intros Hrun. apply bind_Ok in Hrun as (result & w1 & _ & Hrun).
  assert (Hfail : Forall gated
            (map (λ t, failed_mapping t "Batch mapping failed") ts)).
  { apply Forall_forall. intros r (t & -> & _)%list_elem_of_fmap.
    apply failed_mapping_gated. }
  destruct result as [[| | | | |items|d|]|];
    try (apply ret_Ok in Hrun as [-> _]; exact Hfail).
  apply lift_Ok in Hrun as [Hrun _].
  eapply pmap_Val_Forall; [|exact Hrun].
  apply apply_confidence_threshold_gated.
Qed.

Lemma record_mapping_gated mappings r mappings' :
  all_gated mappings → gated r →
  record_mapping mappings r = Val mappings' → all_gated mappings'.
Proof.
  intros Hall Hr Hrun. unfold record_mapping in Hrun.
  apply pbind_Val in Hrun as (t & _ & Hrun).
  apply pbind_Val in Hrun as (s & _ & [= <-]).
  intros key r'. rewrite dict_get_set.
  destruct (lower s =? key)%string; [by intros [= <-] | apply Hall].
Qed.

Lemma record_mappings_gated results :
  Forall gated results →
  ∀ mappings mappings', all_gated mappings →
    pfor_each record_mapping results mappings = Val mappings' →
    all_gated mappings'.
Proof.
  induction 1 as [|r results Hr _ IH]; simpl; intros m m' Hm Hrun.
  - by injection Hrun as <-.
  - apply pbind_Val in Hrun as (m1 & Hm1 & Hrun).
    eapply IH; [|exact Hrun]. eapply record_mapping_gated; eauto.
Qed.

Lemma map_topics_to_taxonomy_gated ers tx groq_client w mappings w' :
  map_topics_to_taxonomy ers tx groq_client w = Ok mappings w' →
  all_gated mappings.
Proof.
  unfold map_topics_to_taxonomy. intros Hrun.
  apply bind_Ok in Hrun as (all_topics & w1 & _ & Hrun).
  apply bind_Ok in Hrun as (ordered & w2 & _ & Hrun).
  destruct (is_empty ordered).
  { apply ret_Ok in Hrun as [-> _]. by intros key r. }
  revert Hrun. apply for_each_Ok_inv; [|by intros key r].
  intros m batch w3 m' w4 _ Hm Hstep.
  apply bind_Ok in Hstep as (results & w5 & Hbatch & Hrec).
  apply lift_Ok in Hrec as [Hrec _].
  eapply record_mappings_gated; [|exact Hm|exact Hrec].
  eapply map_topics_batch_gated, Hbatch.
Qed.

(** C1. Every mapping result the topic mapper produces, from a single
    call, from a batch call or as a value of the dictionary handed to the
    consolidator, has a null [mapped_topic_id] whenever its confidence is
    below the confidence threshold, whatever id the model returned. *)
Theorem confidence_gating (groq_client : GroqClient) (r : json) :
  mapper_result groq_client r →
  confidence_below_threshold r →
  mapped_topic_id_null r.
Proof.
  intros [t tx w w' Hrun|ts tx w w' results Hrun Hin
         |ers tx w w' mappings key Hrun Hget] Hbelow.
  - by eapply map_single_topic_gated.
  - apply map_topics_batch_gated in Hrun.
    rewrite Forall_forall in Hrun. by apply Hrun.
  - apply map_topics_to_taxonomy_gated in Hrun. by eapply Hrun.
Qed.

(** ** Sorting and deduplication *)

Lemma insert_desc_perm r df : insert_desc r df ≡ₚ r :: df.
Proof.
  induction df as [|x df IH]; simpl; [done|].
  destruct (at_ x <=? at_ r); [done|].
  rewrite IH. apply Permutation_swap.
Qed.

Lemma sort_values_desc_perm df : sort_values_desc df ≡ₚ df.
Proof.
  induction df as [|r df IH]; simpl; [done|].
  by rewrite insert_desc_perm, IH.
Qed.

Lemma insert_desc_sorted r df : sorted_desc df → sorted_desc (insert_desc r df).
Proof.
  unfold sorted_desc. induction df as [|x df IH]; simpl; intros Hs.
  - repeat constructor.
  - destruct (Z.leb_spec (at_ x) (at_ r)) as [Hle|Hgt].
    + constructor; [done|]. by constructor.
    + apply Sorted_inv in Hs as [Hs Hhd]. constructor; [by apply IH|].
      destruct df as [|y df]; simpl.
      * constructor. lia.
      * destruct (Z.leb_spec (at_ y) (at_ r)); constructor; [lia|].
        by apply HdRel_inv in Hhd.
Qed.

Lemma sort_values_desc_sorted df : sorted_desc (sort_values_desc df).
Proof.
  induction df as [|r df IH]; simpl; [constructor|].
  by apply insert_desc_sorted.
Qed.

Lemma insert_desc_sorted_head r df :
  sorted_desc (r :: df) → insert_desc r df = r :: df.
Proof.
  intros [_ Hhd]%Sorted_inv. destruct df as [|x df]; simpl; [done|].
  apply HdRel_inv in Hhd. by destruct (Z.leb_spec (at_ x) (at_ r)); [|lia].
Qed.

Lemma sort_values_desc_id df : sorted_desc df → sort_values_desc df = df.
Proof.
  induction df as [|r df IH]; simpl; intros Hs; [done|].
  rewrite IH; [|by apply Sorted_inv in Hs as [? _]].
  by apply insert_desc_sorted_head.
Qed.

Lemma last_with_id_None id df : last_with_id id df = None ↔ id ∉ ids df.
Proof.
  induction df as [|r df IH]; simpl.
  - split; [intros _; apply not_elem_of_nil | done].
  - rewrite not_elem_of_cons. destruct (last_with_id id df) as [r'|].
    + split; [done|]. intros [_ Hnot]. by apply IH in Hnot.
    + destruct (String.eqb_spec id (reviewId r)) as [->|Hne].
      * split; [done | by intros [[] _]].
      * split; [intros _; split; [done | by apply IH] | done].
Qed.

Lemma last_with_id_Some id df r :
  last_with_id id df = Some r → reviewId r = id ∧ r ∈ df.
Proof.
  induction df as [|x df IH]; simpl; [done|].
  destruct (last_with_id id df) as [r'|].
  - intros [= ->]. destruct IH as [? ?]; [done|]. split; [done | by right].
  - destruct (String.eqb_spec id (reviewId x)) as [->|Hne]; [|done].
    intros [= ->]. split; [done | left].
Qed.

Lemma last_with_id_app id df1 df2 :
  last_with_id id (df1 ++ df2) =
    match last_with_id id df2 with
    | Some r => Some r
    | None => last_with_id id df1
    end.
Proof.
  induction df1 as [|x df1 IH]; simpl.
  - by destruct (last_with_id id df2).
  - rewrite IH. by destruct (last_with_id id df2).
Qed.

Lemma elem_of_drop_duplicates_last r df :
  r ∈ drop_duplicates_last df ↔ last_with_id (reviewId r) df = Some r.
Proof.
  induction df as [|x df IH]; simpl.
  - split; [by intros ?%elem_of_nil | done].
  - case_bool_decide as Hin.
    + rewrite IH. destruct (last_with_id (reviewId r) df) as [r'|] eqn:Hl.
      * done.
      * split; [done|]. apply last_with_id_None in Hl.
        destruct (String.eqb_spec (reviewId r) (reviewId x)) as [Heq|]; [|done].
        intros [= ->]. done.
    + rewrite elem_of_cons, IH.
      destruct (last_with_id (reviewId r) df) as [r'|] eqn:Hl.
      * split; [|by right]. intros [->|?]; [|done].
        apply last_with_id_Some in Hl as [Hid Hr'].
        destruct Hin. rewrite <- Hid. by apply list_elem_of_fmap_2.
      * destruct (String.eqb_spec (reviewId r) (reviewId x)) as [Heq|Hne].
        -- split; [intros [->|?]; done | intros [= ->]; by left].
        -- split; [intros [->|?]; done | done].
Qed.

Lemma ids_drop_duplicates_last id df :
  id ∈ ids (drop_duplicates_last df) ↔ id ∈ ids df.
Proof.
  unfold ids. induction df as [|x df IH]; simpl; [done|].
  case_bool_decide as Hin; simpl.
  - rewrite IH, elem_of_cons. split; [by right|]. by intros [->|?].
  - by rewrite !elem_of_cons, IH.
Qed.

Lemma NoDup_ids_drop_duplicates_last df : NoDup (ids (drop_duplicates_last df)).
Proof.
  induction df as [|x df IH]; simpl; [constructor|].
  case_bool_decide as Hin; [done|]. simpl. constructor; [|done].
  by rewrite ids_drop_duplicates_last.
Qed.

Lemma drop_duplicates_last_NoDup df :
  NoDup (ids df) → drop_duplicates_last df = df.
Proof.
  induction df as [|x df IH]; simpl; [done|].
  intros [Hnot Hnd]%NoDup_cons.
  rewrite bool_decide_eq_false_2; [|done]. by rewrite IH.
Qed.

Lemma drop_duplicates_last_covered df1 df2 :
  (∀ r, r ∈ df1 → reviewId r ∈ ids df2) →
  drop_duplicates_last (df1 ++ df2) = drop_duplicates_last df2.
Proof.
  induction df1 as [|x df1 IH]; simpl; intros Hcov; [done|].
  rewrite bool_decide_eq_true_2.
  - apply IH. intros r Hr. apply Hcov. by right.
  - rewrite map_app, elem_of_app. right. apply Hcov. left.
Qed.

Lemma elem_of_merge r existing incoming :
  r ∈ merge existing incoming ↔ r ∈ drop_duplicates_last (existing ++ incoming).
Proof. unfold merge. by rewrite sort_values_desc_perm. Qed.

Lemma ids_merge_perm existing incoming :
  ids (merge existing incoming) ≡ₚ ids (drop_duplicates_last (existing ++ incoming)).
Proof. unfold merge, ids. by rewrite sort_values_desc_perm. Qed.

(** C4. The merge of [smart_scrape] concatenates the stored and the
    incoming rows, keeps for every review id the last row of the
    concatenation, which is the incoming copy whenever the id is incoming,
    and orders the result newest first; merging two one-row tables with the
    same id yields the incoming row alone. *)
Theorem merge_right_biased (existing incoming : DataFrame) :
  let merged := merge existing incoming in
  NoDup (ids merged)
  ∧ (∀ id, id ∈ ids merged ↔ id ∈ ids existing ∨ id ∈ ids incoming)
  ∧ (∀ r, r ∈ merged ↔ last_with_id (reviewId r) (existing ++ incoming) = Some r)
  ∧ (∀ r, r ∈ merged → reviewId r ∈ ids incoming →
          last_with_id (reviewId r) incoming = Some r ∧ r ∈ incoming)
  ∧ (∀ r, r ∈ merged → reviewId r ∉ ids incoming →
          last_with_id (reviewId r) existing = Some r ∧ r ∈ existing)
  ∧ sorted_desc merged
  ∧ (∀ a b, reviewId a = reviewId b → merge [a] [b] = [b]).
Proof.
  intros merged. subst merged. repeat split.
  - rewrite ids_merge_perm. apply NoDup_ids_drop_duplicates_last.
  - rewrite ids_merge_perm, ids_drop_duplicates_last.
    unfold ids. rewrite map_app. apply elem_of_app.
  - rewrite ids_merge_perm, ids_drop_duplicates_last.
    unfold ids. rewrite map_app. apply elem_of_app.
  - by rewrite elem_of_merge, elem_of_drop_duplicates_last.
  - by rewrite elem_of_merge, elem_of_drop_duplicates_last.
  - apply elem_of_merge, elem_of_drop_duplicates_last in H.
    rewrite last_with_id_app in H.
    destruct (last_with_id (reviewId r) incoming) eqn:Hl; [done|].
    by apply last_with_id_None in Hl.
  - apply elem_of_merge, elem_of_drop_duplicates_last in H.
    rewrite last_with_id_app in H.
    destruct (last_with_id (reviewId r) incoming) eqn:Hl.
    + injection H as ->. by apply last_with_id_Some in Hl as [_ ?].
    + by apply last_with_id_None in Hl.
  - apply elem_of_merge, elem_of_drop_duplicates_last in H.
    rewrite last_with_id_app in H. apply last_with_id_None in H0.
    by rewrite H0 in H.
  - apply elem_of_merge, elem_of_drop_duplicates_last in H.
    rewrite last_with_id_app in H. apply last_with_id_None in H0.
    rewrite H0 in H. by apply last_with_id_Some in H as [_ ?].
  - apply sort_values_desc_sorted.
  - intros a b Hid. unfold merge. simpl.
    rewrite bool_decide_eq_true_2; [done|]. rewrite Hid. left.
Qed.

Lemma merge_self_Permutation (store : DataFrame) :
  NoDup (ids store) → merge store store ≡ₚ store.
Proof.
  intros Hnd. unfold merge. rewrite sort_values_desc_perm.
  rewrite drop_duplicates_last_covered.
  - by rewrite drop_duplicates_last_NoDup.
  - intros r Hr. by apply list_elem_of_fmap_2.
Qed.

(** Whatever the store holds, merging it with itself keeps its set of
    ids. *)
Lemma merge_self_ids (store : DataFrame) id :
  id ∈ ids (merge store store) ↔ id ∈ ids store.
Proof.
  rewrite ids_merge_perm, ids_drop_duplicates_last.
  unfold ids. rewrite map_app, elem_of_app. tauto.
Qed.

(** X6. A merged store merged with itself is the same store again. *)
Lemma merge_of_merge (existing incoming : DataFrame) :
  let store := merge existing incoming in merge store store ≡ₚ store.
Proof.
  apply merge_self_Permutation. rewrite ids_merge_perm.
  apply NoDup_ids_drop_duplicates_last.
Qed.

(** Merging a table with itself leaves one row per review id. *)
Lemma merge_self_length (store : DataFrame) :
  length (merge store store) = length (remove_dups (ids store)).
Proof.
  rewrite <- (length_map reviewId (merge store store)).
  fold (ids (merge store store)).
  apply Permutation_length, NoDup_Permutation.
  - rewrite ids_merge_perm. apply NoDup_ids_drop_duplicates_last.
  - apply NoDup_remove_dups.
  - intros id. rewrite merge_self_ids. by rewrite elem_of_remove_dups.
Qed.

(** ** The scrape cache *)

Lemma fold_min_le (l : list Z) a : fold_left Z.min l a ≤ a.
Proof.
  revert a. induction l as [|x l IH]; simpl; intros a; [lia|].
  specialize (IH (Z.min a x)). lia.
Qed.

Lemma fold_min_lower (l : list Z) a x : x ∈ l → fold_left Z.min l a ≤ x.
Proof.
  revert a. induction l as [|y l IH]; simpl; intros a Hin.
  - by apply elem_of_nil in Hin.
  - apply elem_of_cons in Hin as [->|Hin]; [|by apply IH].
    pose proof (fold_min_le l (Z.min a y)). lia.
Qed.

Lemma fold_max_ge (l : list Z) a : a ≤ fold_left Z.max l a.
Proof.
  revert a. induction l as [|x l IH]; simpl; intros a; [lia|].
  specialize (IH (Z.max a x)). lia.
Qed.

Lemma fold_max_upper (l : list Z) a x : x ∈ l → x ≤ fold_left Z.max l a.
Proof.
  revert a. induction l as [|y l IH]; simpl; intros a Hin.
  - by apply elem_of_nil in Hin.
  - apply elem_of_cons in Hin as [->|Hin]; [|by apply IH].
    pose proof (fold_max_ge l (Z.max a y)). lia.
Qed.

(** [at_min] and [at_max] bound the time stamps of the store. *)
Lemma at_min_max_bounds (df : DataFrame) r :
  r ∈ df → at_min df ≤ at_ r ≤ at_max df.
Proof.
  destruct df as [|x df]; [by intros ?%elem_of_nil|].
  intros [->|Hin]%elem_of_cons; simpl.
  - split; [apply fold_min_le | apply fold_max_ge].
  - split; [apply fold_min_lower | apply fold_max_upper];
      by apply list_elem_of_fmap_2.
Qed.

Lemma filter_by_date_range_within df start_date end_date :
  within_window start_date end_date
    (filter_by_date_range df start_date end_date).
Proof.
  unfold within_window, filter_by_date_range.
  destruct df as [|x df]; [constructor|].
  apply Forall_forall. intros r Hr.
  apply list_elem_of_In, filter_In in Hr as [_ Hr].
  unfold in_date_range in Hr. lia.
Qed.

Lemma filter_by_date_range_sub df start_date end_date r :
  r ∈ filter_by_date_range df start_date end_date → r ∈ df.
Proof.
  unfold filter_by_date_range. destruct df as [|x df]; [done|].
  intros Hr. by apply list_elem_of_In, filter_In in Hr as [?%list_elem_of_In _].
Qed.

Lemma filter_by_date_range_rows df start_date end_date :
  filter_by_date_range df start_date end_date
  = rows_in_window start_date end_date df.
Proof.
  unfold filter_by_date_range, rows_in_window.
  destruct df as [|x df]; [done|].
  apply filter_ext. intros r. unfold in_date_range.
  case_bool_decide as Hin.
  - apply andb_true_iff. split; apply Z.leb_le; lia.
  - apply andb_false_iff.
    destruct (Z.leb_spec (date start_date) (date (at_ r))); [|by left].
    right. apply Z.leb_gt. lia.
Qed.

Lemma rows_in_window_within df start_date end_date :
  within_window start_date end_date (rows_in_window start_date end_date df).
Proof.
  rewrite <- filter_by_date_range_rows. apply filter_by_date_range_within.
Qed.

(** C3. With a non-empty store, [smart_scrape] follows the decision table
    in order: a covered window is served from the store, the rows
    returned being the stored rows dated within the window, and the world
    is left as it was (no fetch, no write); otherwise a window ending
    after the newest stored day costs exactly one fetch, with cutoff the
    newest stored time stamp and reference the end of the window, the
    merged table is saved, and the rows returned are the rows of the
    merged table dated within the window; otherwise the window starts
    before the oldest stored day and the stored rows dated within the
    window are served with no fetch. *)
Theorem smart_scrape_decision_table (app_id : string) (target_date : Z)
    (w : world) (store : DataFrame) :
  reviews_csv w !! app_id = Some store →
  store ≠ [] →
  let start_date := fst (get_trend_date_range target_date) in
  let end_date := snd (get_trend_date_range target_date) in
  (covered start_date end_date store →
     smart_scrape app_id target_date w
       = Ok (rows_in_window start_date end_date store) w)
  ∧ (¬ covered start_date end_date store →
     date (at_max store) < date end_date →
     ∃ fetched w',
       let the_call := {| fc_app_id := app_id;
                          fc_reference_date := end_date;
                          fc_cutoff_date := at_max store |} in
       fetch_reviews_by_date_range app_id end_date (at_max store) w
         = Ok fetched (log_fetch_call the_call w)
       ∧ smart_scrape app_id target_date w
           = Ok (rows_in_window start_date end_date (merge store fetched)) w'
       ∧ fetch_calls w' = fetch_calls w ++ [the_call]
       ∧ reviews_csv w' = <[app_id := merge store fetched]> (reviews_csv w)
       ∧ within_window start_date end_date
           (rows_in_window start_date end_date (merge store fetched)))
  ∧ (¬ covered start_date end_date store →
     ¬ date (at_max store) < date end_date →
     date start_date < date (at_min store)
     ∧ smart_scrape app_id target_date w
         = Ok (rows_in_window start_date end_date store) w).
Proof.
  intros Hstore Hne start_date end_date.
  assert (Hrun : smart_scrape app_id target_date w =
    (if (date (at_min store) <=? date start_date)
        && (date end_date <=? date (at_max store))
     then ret (rows_in_window start_date end_date store)
     else if date (at_max store) <? date end_date then
       new_reviews <-
         fetch_reviews_by_date_range app_id end_date (at_max store) ;;
       save_reviews_csv app_id (merge store new_reviews) ;;;
       ret (rows_in_window start_date end_date (merge store new_reviews))
     else if date start_date <? date (at_min store) then
       ret (rows_in_window start_date end_date store)
     else ret (rows_in_window start_date end_date store)) w).
  { unfold smart_scrape, get_trend_date_range, bind at 1.
    unfold reviews_csv_exists. rewrite Hstore.
    rewrite bool_decide_eq_true_2; [|by eexists]. simpl.
    unfold bind at 1, load_reviews_csv. rewrite Hstore. simpl.
    destruct store as [|r0 store0]; [done|]. cbn [is_empty].
    destruct (_ && _); [by rewrite filter_by_date_range_rows|].
    destruct (date (at_max _) <? _).
    { unfold bind, fetch_reviews_by_date_range, save_reviews_csv, ret.
      by rewrite filter_by_date_range_rows. }
    by destruct (_ <? _); rewrite filter_by_date_range_rows. }
  rewrite Hrun. unfold covered. split; [|split].
  - intros [Hmin Hmax].
    destruct (Z.leb_spec (date (at_min store)) (date start_date)); [|lia].
    destruct (Z.leb_spec (date end_date) (date (at_max store))); [|lia].
    done.
  - intros Hnot Hnewer.
    assert ((date (at_min store) <=? date start_date)
            && (date end_date <=? date (at_max store)) = false) as ->.
    { apply andb_false_iff. right. apply Z.leb_gt. lia. }
    destruct (Z.ltb_spec (date (at_max store)) (date end_date)); [|lia].
    eexists _, _. simpl. split; [reflexivity|].
    split; [reflexivity|]. simpl. split; [done|]. split; [done|].
    apply rows_in_window_within.
  - intros Hnot Hold. split; [lia|].
    assert ((date (at_min store) <=? date start_date)
            && (date end_date <=? date (at_max store)) = false) as ->.
    { apply andb_false_iff.
      destruct (Z.leb_spec (date (at_min store)) (date start_date));
        [right; apply Z.leb_gt; lia | by left]. }
    destruct (Z.ltb_spec (date (at_max store)) (date end_date)); [lia|].
    by destruct (date start_date <? date (at_min store)).
Qed.

(** ** Counters *)

Lemma dict_get_elem_NoDup {V} k (v : V) (d : pydict V) :
  NoDup (dict_keys d) → (k, v) ∈ d → dict_get k d = Some v.
Proof.
  unfold dict_keys. induction d as [|[k' v'] d IH]; simpl.
  - by intros _ ?%elem_of_nil.
  - intros [Hnot Hnd]%NoDup_cons [[= -> ->]|Hin]%elem_of_cons.
    + by rewrite String.eqb_refl.
    + destruct (String.eqb_spec k k') as [->|Hne]; [|by apply IH].
      destruct Hnot. by apply (list_elem_of_fmap_2 fst _ (k', v)).
Qed.

Lemma dict_set_keys_NoDup {V} k (v : V) (d : pydict V) :
  NoDup (dict_keys d) → NoDup (dict_keys (dict_set k v d)).
Proof.
  intros Hnd. rewrite dict_keys_set. case_bool_decide as Hin; [done|].
  apply NoDup_app. split; [done|]. split; [|apply NoDup_singleton].
  intros x Hx ->%list_elem_of_singleton. done.
Qed.

Lemma occurrences_cons k x l :
  occurrences k (x :: l) = (if String.eqb k x then 1 else 0) + occurrences k l.
Proof.
  unfold occurrences, len. simpl. destruct (String.eqb k x); simpl; lia.
Qed.

Lemma occurrences_nonneg k l : 0 ≤ occurrences k l.
Proof. unfold occurrences, len. lia. Qed.

Lemma occurrences_pos k l : k ∈ l ↔ 0 < occurrences k l.
Proof.
  induction l as [|x l IH].
  - split; [by intros ?%elem_of_nil | by cbv].
  - rewrite occurrences_cons, elem_of_cons.
    pose proof (occurrences_nonneg k l).
    destruct (String.eqb_spec k x) as [->|Hne]; [split; [lia | by left]|].
    rewrite IH. split; [intros [?|?]; [done | lia] | intros; right; lia].
Qed.

Lemma counter_incr_get0 k k' c :
  get0 k' (counter_incr k c) = get0 k' c + (if String.eqb k' k then 1 else 0).
Proof.
  unfold get0, counter_incr. rewrite dict_get_set.
  destruct (String.eqb_spec k k') as [->|Hne].
  - rewrite String.eqb_refl. by destruct (dict_get k' c).
  - apply not_eq_sym, String.eqb_neq in Hne as ->. lia.
Qed.

Lemma counter_fold_get0 k l c :
  get0 k (fold_left (λ c k, counter_incr k c) l c) = get0 k c + occurrences k l.
Proof.
  revert c. induction l as [|x l IH]; intros c; simpl.
  - unfold occurrences, len. simpl. lia.
  - rewrite IH, counter_incr_get0, occurrences_cons. lia.
Qed.

Lemma counter_fold_keys k l c :
  k ∈ dict_keys (fold_left (λ c k, counter_incr k c) l c)
  ↔ k ∈ dict_keys c ∨ k ∈ l.
Proof.
  revert c. induction l as [|x l IH]; intros c; simpl.
  - split; [by left | by intros [?|?%elem_of_nil]].
  - rewrite IH. unfold counter_incr. rewrite dict_keys_set, elem_of_cons.
    case_bool_decide as Hin.
    + split; [intros [?|?]; auto | intros [?|[->|?]]; auto].
    + rewrite elem_of_app, list_elem_of_singleton. tauto.
Qed.

Lemma counter_fold_NoDup l c :
  NoDup (dict_keys c) →
  NoDup (dict_keys (fold_left (λ c k, counter_incr k c) l c)).
Proof.
  revert c. induction l as [|x l IH]; intros c Hnd; simpl; [done|].
  apply IH. by apply dict_set_keys_NoDup.
Qed.

Lemma Counter_keys_NoDup l : NoDup (dict_keys (Counter l)).
Proof. apply counter_fold_NoDup. constructor. Qed.

Lemma Counter_elem k n l :
  (k, n) ∈ Counter l ↔ k ∈ l ∧ n = occurrences k l.
Proof.
  pose proof (counter_fold_get0 k l []) as Hget.
  pose proof (counter_fold_keys k l []) as Hkeys.
  fold (Counter l) in Hget, Hkeys. unfold get0 in Hget. simpl in Hget.
  split.
  - intros Hin. split.
    + destruct Hkeys as [[?%elem_of_nil|?] _]; [|done|done].
      by apply (list_elem_of_fmap_2 fst _ (k, n)).
    + apply dict_get_elem_NoDup in Hin; [|apply Counter_keys_NoDup].
      rewrite Hin in Hget. simpl in Hget. lia.
  - intros [Hin ->]. apply dict_get_Some_elem.
    destruct (dict_get k (Counter l)) as [n|] eqn:Hk.
    + simpl in Hget. by rewrite Hget.
    + apply dict_get_None in Hk. destruct Hk. apply Hkeys. by right.
Qed.

Lemma Counter_get k l :
  dict_get k (Counter l) = if bool_decide (k ∈ l) then Some (occurrences k l)
                           else None.
Proof.
  case_bool_decide as Hin.
  - apply dict_get_elem_NoDup; [apply Counter_keys_NoDup|].
    by apply Counter_elem.
  - apply dict_get_None. intros Hk. apply Hin.
    by apply counter_fold_keys in Hk as [?%elem_of_nil|?].
Qed.

Lemma filter_Permutation {A} (f : A → bool) (l l' : list A) :
  l ≡ₚ l' → List.filter f l ≡ₚ List.filter f l'.
Proof.
  induction 1 as [|x l l' _ IH|x y l|l1 l2 l3 _ IH1 _ IH2]; simpl.
  - done.
  - destruct (f x); by rewrite IH.
  - destruct (f x), (f y); try done. apply Permutation_swap.
  - by rewrite IH1.
Qed.

Lemma filter_map_comm {A B} (f : B → bool) (g : A → B) (l : list A) :
  List.filter f (map g l) = map g (List.filter (λ x, f (g x)) l).
Proof.
  induction l as [|x l IH]; simpl; [done|].
  destruct (f (g x)); simpl; by rewrite IH.
Qed.

Lemma Counter_Permutation l :
  Counter l ≡ₚ map (λ q, (q, occurrences q l)) (remove_dups l).
Proof.
  apply NoDup_Permutation.
  - eapply (NoDup_fmap_1 fst). apply Counter_keys_NoDup.
  - assert (Inj (=) (=) (λ q : string, (q, occurrences q l))).
    { by intros q q' [= ->]. }
    apply (NoDup_fmap_2 _), NoDup_remove_dups.
  - intros [k n]. rewrite Counter_elem, list_elem_of_fmap. split.
    + intros [Hin ->]. exists k. split; [done|].
      by apply elem_of_remove_dups.
    + intros (q & [= -> ->] & Hq). split; [|done].
      by apply elem_of_remove_dups.
Qed.

(** The number of counter entries below the threshold is the number of
    distinct phrases that occur fewer times than the threshold. *)
Lemma below_threshold_count l :
  len (List.filter below_threshold (Counter l)) =
  len (List.filter (λ q, occurrences q l <? MIN_TOPIC_OCCURRENCES)
                   (remove_dups l)).
Proof.
  unfold len. f_equal.
  rewrite (Permutation_length (filter_Permutation _ _ _ (Counter_Permutation l))).
  by rewrite filter_map_comm, length_map.
Qed.


(** ** Dictionaries with any hashable key *)

Lemma atom_eqb_eq a b : atom_eqb a b = true ↔ atom_class a = atom_class b.
Proof. unfold atom_eqb. by rewrite bool_decide_eq_true. Qed.

Lemma atom_eqb_refl a : atom_eqb a a = true.
Proof. by apply atom_eqb_eq. Qed.

Lemma atom_eqb_str s s' : atom_eqb (AStr s) (AStr s') = String.eqb s s'.
Proof.
  unfold atom_eqb. simpl. case_bool_decide as Heq.
  - injection Heq as ->. by rewrite String.eqb_refl.
  - symmetry. apply String.eqb_neq. congruence.
Qed.

Lemma set_mem_spec x s :
  set_mem x s = true ↔ atom_class x ∈ map atom_class s.
Proof.
  unfold set_mem. induction s as [|y s IH]; simpl.
  - split; [done | by intros ?%elem_of_nil].
  - rewrite orb_true_iff, IH, elem_of_cons, atom_eqb_eq. tauto.
Qed.

Lemma set_mem_false x s :
  set_mem x s = false ↔ atom_class x ∉ map atom_class s.
Proof.
  rewrite <- set_mem_spec. by destruct (set_mem x s); split.
Qed.

Section KDict.
Context {V : Type}.
Implicit Types (d : kdict V) (k : atom) (v : V).

Lemma kdict_get_set k k' v d :
  kdict_get k' (kdict_set k v d)
  = if atom_eqb k' k then Some v else kdict_get k' d.
Proof.
  induction d as [|[k0 v0] d IH]; simpl; [done|].
  destruct (atom_eqb k k0) eqn:Hk; simpl.
  - apply atom_eqb_eq in Hk. unfold atom_eqb in *. rewrite Hk.
    by destruct (bool_decide (atom_class k' = atom_class k0)).
  - rewrite IH. unfold atom_eqb in *.
    apply bool_decide_eq_false in Hk.
    destruct (bool_decide_reflect (atom_class k' = atom_class k));
      destruct (bool_decide_reflect (atom_class k' = atom_class k0));
      congruence.
Qed.

Lemma kdict_get_set_eq k v d : kdict_get k (kdict_set k v d) = Some v.
Proof. by rewrite kdict_get_set, atom_eqb_refl. Qed.

Lemma kdict_get_class k k' d :
  atom_class k = atom_class k' → kdict_get k d = kdict_get k' d.
Proof.
  intros Heq. induction d as [|[k0 v0] d IH]; simpl; [done|].
  unfold atom_eqb. rewrite Heq. by rewrite IH.
Qed.
End KDict.

Lemma fold_left_add_acc (l : list Z) a :
  fold_left Z.add l a = a + fold_left Z.add l 0.
Proof.
  revert a. induction l as [|x l IH]; simpl; intros a; [lia|].
  rewrite (IH (a + x)), (IH (0 + x)). lia.
Qed.

Lemma sum_values_cons {K} (k : K) v (c : list (K * Z)) :
  sum_values ((k, v) :: c) = v + sum_values c.
Proof. unfold sum_values. simpl. by rewrite fold_left_add_acc. Qed.

Lemma sum_values_kdict_set k v (c : kdict Z) :
  sum_values (kdict_set k v c) = sum_values c - kget0 k c + v.
Proof.
  unfold kget0. induction c as [|[k' v'] c IH]; simpl.
  - rewrite sum_values_cons. unfold sum_values. simpl. lia.
  - destruct (atom_eqb k k'); simpl.
    + rewrite !sum_values_cons. lia.
    + rewrite !sum_values_cons, IH. lia.
Qed.

Lemma sum_values_kcounter_incr k (c : kdict Z) :
  sum_values (kcounter_incr k c) = sum_values c + 1.
Proof.
  unfold kcounter_incr. rewrite sum_values_kdict_set. unfold kget0.
  destruct (kdict_get k c); simpl; lia.
Qed.

Lemma kcounter_incr_kget0 k k' (c : kdict Z) :
  kget0 k' (kcounter_incr k c)
  = kget0 k' c + (if atom_eqb k' k then 1 else 0).
Proof.
  unfold kget0, kcounter_incr. rewrite kdict_get_set.
  destruct (atom_eqb k' k) eqn:Hk; [|lia].
  apply atom_eqb_eq in Hk. rewrite (kdict_get_class k' k) by done.
  destruct (kdict_get k c); simpl; lia.
Qed.

Lemma len_app {A} (l1 l2 : list A) : len (l1 ++ l2) = len l1 + len l2.
Proof. unfold len. rewrite length_app. lia. Qed.

Lemma len_cons {A} (x : A) (l : list A) : len (x :: l) = 1 + len l.
Proof. unfold len. simpl length. lia. Qed.

(** A dict whose keys are all strings is a JSON object. *)
Lemma str_keyed_strings (d : pydict json) :
  str_keyed (map (λ kv, (AStr (fst kv), snd kv)) d) = Some d.
Proof.
  induction d as [|[k v] d IH]; simpl; [done|]. by rewrite IH.
Qed.

Lemma py_dict_nil : py_dict [] = JObj [].
Proof. reflexivity. Qed.

(** A field read from a dict built by [py_dict]. *)
Lemma field_py_dict k entries :
  field k (py_dict entries) = kdict_get (AStr k) entries.
Proof.
  unfold py_dict. destruct (str_keyed entries) as [d|] eqn:Hd; [|done].
  simpl. revert d Hd.
  induction entries as [|[[| | | |s] v] entries IH]; intros d Hd;
    simpl in Hd; try done.
  - by injection Hd as <-.
  - destruct (str_keyed entries) as [d'|]; [|done].
    injection Hd as <-. simpl. rewrite atom_eqb_str.
    destruct (String.eqb k s); [done|]. by apply IH.
Qed.

(** ** The stored taxonomy *)

Lemma with_topics_with_topics ts ts' tx :
  with_topics ts (with_topics ts' tx) = with_topics ts tx.
Proof. by destruct tx. Qed.

Lemma add_topics_fold (existing_ids : list atom) (new_topics : list topic) :
  ∀ acc,
    fold_left
      (λ acc t, if set_mem (topic_id t) existing_ids then acc
                else with_topics (topics acc ++ [t]) acc)
      new_topics acc
    = with_topics
        (topics acc
         ++ List.filter (λ t, negb (set_mem (topic_id t) existing_ids))
              new_topics)
        acc.
Proof.
  induction new_topics as [|t new_topics IH]; simpl; intros acc.
  - rewrite app_nil_r. by destruct acc.
  - rewrite IH. destruct (set_mem (topic_id t) existing_ids); simpl; [done|].
    by rewrite with_topics_with_topics, <- app_assoc.
Qed.

(** What [add_topics_to_taxonomy] saves: the stored topics, followed by
    the candidates whose id was not stored before the call. *)
Lemma add_topics_to_taxonomy_saves app_id new_topics w tx :
  taxonomy_json w !! app_id = Some tx →
  add_topics_to_taxonomy app_id new_topics w
  = Ok tt
      (set_taxonomy_json
         (insert app_id
            (with_last_updated (now w)
               (with_topics
                  (topics tx
                   ++ List.filter
                        (λ t, negb (set_mem (topic_id t)
                                            (map topic_id (topics tx))))
                        new_topics)
                  tx)))
         w).
Proof.
  intros Hstored. unfold add_topics_to_taxonomy, bind, load_app_taxonomy.
  rewrite Hstored. unfold save_app_taxonomy. by rewrite add_topics_fold.
Qed.

(** Candidates whose id is stored already leave the topics as they
    were. *)
Lemma add_topics_existing_skipped app_id new_topics w tx :
  taxonomy_json w !! app_id = Some tx →
  Forall (λ t, set_mem (topic_id t) (map topic_id (topics tx)) = true)
         new_topics →
  on_success (add_topics_to_taxonomy app_id new_topics w)
    (λ _ w', topics <$> (taxonomy_json w' !! app_id) = Some (topics tx)).
Proof.
  intros Hstored Hall. rewrite (add_topics_to_taxonomy_saves _ _ _ _ Hstored).
  simpl. rewrite lookup_insert_eq. simpl. f_equal.
  rewrite <- (app_nil_r (topics tx)) at 2. f_equal.
  induction Hall as [|t new_topics Ht _ IH]; simpl; [done|].
  by rewrite Ht.
Qed.

Lemma distinct_ids_filter (f : topic → bool) (ts : list topic) :
  distinct_ids (map topic_id ts) →
  distinct_ids (map topic_id (List.filter f ts)).
Proof.
  unfold distinct_ids. induction ts as [|t ts IH]; simpl; [done|].
  intros [Hnot Hnd]%NoDup_cons. destruct (f t); simpl; [|by apply IH].
  apply NoDup_cons. split; [|by apply IH].
  intros Hin. apply Hnot.
  apply list_elem_of_fmap in Hin as (a & -> & Ha).
  apply list_elem_of_fmap in Ha as (t' & -> & Ht').
  apply list_elem_of_In, filter_In in Ht' as [Ht'%list_elem_of_In _].
  apply list_elem_of_fmap. exists (topic_id t'). split; [done|].
  by apply list_elem_of_fmap_2.
Qed.

(** X13. Candidates with pairwise distinct ids keep the stored ids
    pairwise distinct. *)
Lemma add_topics_distinct_candidates app_id new_topics w tx :
  taxonomy_json w !! app_id = Some tx →
  distinct_ids (map topic_id (topics tx)) →
  distinct_ids (map topic_id new_topics) →
  on_success (add_topics_to_taxonomy app_id new_topics w)
    (λ _ w', ∃ ids, saved_topic_ids w' app_id = Some ids ∧ distinct_ids ids).
Proof.
  intros Hstored Hnd Hnew. rewrite (add_topics_to_taxonomy_saves _ _ _ _ Hstored).
  simpl. unfold saved_topic_ids. simpl. rewrite lookup_insert_eq. simpl.
  eexists. split; [reflexivity|]. unfold distinct_ids in *.
  rewrite !map_app. apply NoDup_app.
  split; [done|]. split.
  - intros c Hc Hc'.
    apply list_elem_of_fmap in Hc' as (a & -> & Ha).
    apply list_elem_of_fmap in Ha as (t & -> & Ht).
    apply list_elem_of_In, filter_In in Ht as [_ Ht].
    apply negb_true_iff, set_mem_false in Ht. done.
  - by apply distinct_ids_filter.
Qed.

Lemma load_app_taxonomy_Ok app_id w :
  ∃ tx w', load_app_taxonomy app_id w = Ok tx w' ∧ llm_calls w' = llm_calls w.
Proof.
  unfold load_app_taxonomy. destruct (taxonomy_json w !! app_id); eauto.
Qed.

Lemma add_topics_to_taxonomy_Ok app_id new_topics w :
  ∃ w', add_topics_to_taxonomy app_id new_topics w = Ok tt w'
        ∧ llm_calls w' = llm_calls w.
Proof.
  unfold add_topics_to_taxonomy, bind.
  destruct (load_app_taxonomy_Ok app_id w) as (tx & w1 & -> & Heq).
  unfold save_app_taxonomy. eauto.
Qed.

Lemma load_app_taxonomy_stored app_id w :
  ∃ tx w',
    load_app_taxonomy app_id w = Ok tx w'
    ∧ taxonomy_json w' !! app_id = Some tx
    ∧ load_app_taxonomy app_id w' = Ok tx w'
    ∧ llm_calls w' = llm_calls w
    ∧ batch_json w' = batch_json w
    ∧ details_json w' = details_json w
    ∧ reviews_csv w' = reviews_csv w
    ∧ fetch_calls w' = fetch_calls w
    ∧ now w' = now w.
Proof.
  unfold load_app_taxonomy.
  destruct (taxonomy_json w !! app_id) as [tx|] eqn:Hstored.
  - exists tx, w. by rewrite Hstored.
  - eexists _, _. split; [reflexivity|]. simpl.
    by rewrite lookup_insert_eq.
Qed.

Lemma load_app_taxonomy_hash_order app_id w tx w' :
  load_app_taxonomy app_id w = Ok tx w' → hash_order w' = hash_order w.
Proof.
  unfold load_app_taxonomy. destruct (taxonomy_json w !! app_id).
  - by intros [= _ <-].
  - by intros [= _ <-].
Qed.

(** ** Logs of model calls *)

Lemma only_llm_calls_refl w : only_llm_calls w w.
Proof. by exists []. Qed.

Lemma only_llm_calls_trans w1 w2 w3 :
  only_llm_calls w1 w2 → only_llm_calls w2 w3 → only_llm_calls w1 w3.
Proof.
  intros [c1 ->] [c2 ->]. exists (c1 ++ c2).
  unfold log_llm_calls. by rewrite fold_left_app.
Qed.

Lemma log_llm_calls_files calls w :
  taxonomy_json (log_llm_calls calls w) = taxonomy_json w
  ∧ reviews_csv (log_llm_calls calls w) = reviews_csv w
  ∧ batch_json (log_llm_calls calls w) = batch_json w
  ∧ details_json (log_llm_calls calls w) = details_json w
  ∧ fetch_calls (log_llm_calls calls w) = fetch_calls w
  ∧ now (log_llm_calls calls w) = now w.
Proof.
  revert w. induction calls as [|p calls IH]; intros w; [done|].
  simpl. by destruct (IH (log_llm_call p w)) as (-> & -> & -> & -> & -> & ->).
Qed.

(** ** The unmapped phrases of a day *)

Lemma obj_get_field k fallback r x :
  obj_get k fallback r = Val x → x = default fallback (field k r).
Proof.
  destruct r; simpl; try done.
  - intros [= <-]. unfold get_default. by destruct (dict_get k fields).
  - intros [= <-]. by destruct (kdict_get (AStr k) entries).
Qed.

Lemma omap_str_chars s :
  omap (λ t, match t with JStr s => Some s | _ => None end) (map JStr (chars s))
  = chars s.
Proof. induction (chars s) as [|c l IH]; csimpl; [done | by rewrite IH]. Qed.

Lemma omap_str_keys (l : list string) :
  omap (λ t, match t with JStr s => Some s | _ => None end) (map JStr l) = l.
Proof. induction l as [|c l IH]; csimpl; [done | by rewrite IH]. Qed.

Lemma omap_str_atoms {V} (d : list (atom * V)) :
  omap (λ t, match t with JStr s => Some s | _ => None end)
       (map (λ kv, atom_json (fst kv)) d)
  = omap (λ kv, match fst kv with AStr s => Some s | _ => None end) d.
Proof.
  induction d as [|[[| | | |s] v] d IH]; csimpl; rewrite ?IH; done.
Qed.

(** The phrases of an extraction result are the strings among the items
    that the loops iterate. *)
Lemma extracted_phrases_iterate result extracted items :
  obj_get "extractedTopics" (JArr []) result = Val extracted →
  truthy extracted = true →
  iterate extracted = Val items →
  extracted_phrases result
  = omap (λ t, match t with JStr s => Some s | _ => None end) items.
Proof.
  intros Hex%obj_get_field Htruthy Hitems. unfold extracted_phrases.
  destruct (field "extractedTopics" result) as [v|]; simpl in Hex; subst;
    [|by injection Hitems as <-].
  destruct v; simpl in Hitems; try done; injection Hitems as <-.
  - by rewrite omap_str_chars.
  - done.
  - by rewrite omap_str_keys.
  - by rewrite omap_str_atoms.
Qed.

Lemma extracted_phrases_falsy result extracted :
  obj_get "extractedTopics" (JArr []) result = Val extracted →
  truthy extracted = false →
  extracted_phrases result = [].
Proof.
  intros Hex%obj_get_field Hfalsy. unfold extracted_phrases.
  destruct (field "extractedTopics" result) as [v|]; simpl in Hex; subst;
    [|done].
  destruct v as [| | | |s|items|d|d]; try done.
  - by destruct s.
  - by destruct items.
  - by destruct d.
  - by destruct d.
Qed.

Lemma count_topic_unmapped mappings review_data acc t acc' :
  count_topic mappings review_data acc t = Val acc' →
  ∃ s, t = JStr s
       ∧ unmapped_topics acc'
         = unmapped_topics acc ++ (if is_unmapped mappings s then [s] else []).
Proof.
  unfold count_topic. intros Hrun.
  apply pbind_Val in Hrun as (s & Hs & Hrun).
  destruct t as [| | | |s'| | |]; try done. injection Hs as ->.
  exists s. split; [done|].
  apply pbind_Val in Hrun as (mapped_id & Hid & Hrun).
  assert (Hun : is_unmapped mappings s = negb (truthy mapped_id)).
  { unfold is_unmapped. f_equal. f_equal.
    apply obj_get_field in Hid. rewrite Hid.
    by destruct (dict_get (lower (strip s)) mappings). }
  rewrite Hun. destruct (truthy mapped_id); simpl.
  - apply pbind_Val in Hrun as (key & _ & Hrun).
    apply pbind_Val in Hrun as (confidence & _ & [= <-]). simpl.
    by rewrite app_nil_r.
  - by injection Hrun as <-.
Qed.

Lemma count_topics_unmapped mappings review_data items :
  ∀ acc acc',
    pfor_each (count_topic mappings review_data) items acc = Val acc' →
    unmapped_topics acc'
    = unmapped_topics acc
      ++ List.filter (is_unmapped mappings)
           (omap (λ t, match t with JStr s => Some s | _ => None end) items).
Proof.
  induction items as [|t items IH]; simpl; intros acc acc' Hrun.
  - injection Hrun as <-. by rewrite app_nil_r.
  - apply pbind_Val in Hrun as (acc1 & Ht & Hrun).
    apply count_topic_unmapped in Ht as (s & -> & Hacc1).
    rewrite (IH _ _ Hrun), Hacc1. csimpl.
    destruct (is_unmapped mappings s); simpl; by rewrite <- app_assoc.
Qed.

Lemma count_review_unmapped reviews_lookup mappings acc result acc' :
  count_review reviews_lookup mappings acc result = Val acc' →
  unmapped_topics acc'
  = unmapped_topics acc
    ++ List.filter (is_unmapped mappings) (extracted_phrases result).
Proof.
  unfold count_review. intros Hrun.
  apply pbind_Val in Hrun as (review_id & Hid & Hrun).
  apply pbind_Val in Hrun as (extracted & Hex & Hrun).
  apply pbind_Val in Hrun as (review_data & _ & Hrun).
  destruct (truthy extracted) eqn:Htruthy; simpl in Hrun.
  - apply pbind_Val in Hrun as (items & Hitems & Hrun).
    rewrite (extracted_phrases_iterate _ _ _ Hex Htruthy Hitems).
    by apply count_topics_unmapped in Hrun.
  - injection Hrun as <-. simpl.
    by rewrite (extracted_phrases_falsy _ _ Hex Htruthy), app_nil_r.
Qed.

Lemma filter_app_bool {A} (f : A → bool) (l1 l2 : list A) :
  List.filter f (l1 ++ l2) = List.filter f l1 ++ List.filter f l2.
Proof. induction l1 as [|x l1 IH]; simpl; [done|]. destruct (f x); simpl; by rewrite IH. Qed.

(** When the counting loop completes, the unmapped topics are the phrases
    extracted for the reviews, in order, that have no mapped topic id. *)
Lemma count_reviews_unmapped reviews_lookup mappings ers counted :
  count_reviews reviews_lookup mappings ers = Val counted →
  unmapped_topics counted
  = List.filter (is_unmapped mappings) (concat (map extracted_phrases ers)).
Proof.
  unfold count_reviews.
  assert (Hgen : ∀ acc acc',
    pfor_each (count_review reviews_lookup mappings) ers acc = Val acc' →
    unmapped_topics acc'
    = unmapped_topics acc
      ++ List.filter (is_unmapped mappings) (concat (map extracted_phrases ers))).
  { induction ers as [|r ers IH]; simpl; intros acc acc' Hrun.
    - injection Hrun as <-. by rewrite app_nil_r.
    - apply pbind_Val in Hrun as (acc1 & Hr & Hrun).
      rewrite (IH _ _ Hrun), (count_review_unmapped _ _ _ _ _ Hr).
      by rewrite filter_app_bool, app_assoc. }
  intros Hrun. by rewrite (Hgen _ _ Hrun).
Qed.

(** The phrases that the consolidator counts for promotion are the
    unmapped phrases of the day. *)
Lemma unmapped_phrases_counted reviews_lookup mappings ers counted :
  count_reviews reviews_lookup mappings ers = Val counted →
  map lower (unmapped_topics counted) = unmapped_phrases mappings ers.
Proof.
  intros Hrun. unfold unmapped_phrases.
  by rewrite (count_reviews_unmapped _ _ _ _ Hrun).
Qed.

(** ** Counting once *)

Lemma count_topic_tallied mappings review_data acc t acc' :
  count_topic mappings review_data acc t = Val acc' →
  (∃ s, t = JStr s)
  ∧ tallied acc' = tallied acc + 1
  ∧ (counts_match_reviews acc → counts_match_reviews acc').
Proof.
  unfold count_topic. intros Hrun.
  apply pbind_Val in Hrun as (s & Hs & Hrun).
  destruct t as [| | | |s'| | |]; try done. injection Hs as ->.
  split; [by exists s|].
  apply pbind_Val in Hrun as (mapped_id & _ & Hrun).
  destruct (truthy mapped_id).
  - apply pbind_Val in Hrun as (key & _ & Hrun).
    apply pbind_Val in Hrun as (confidence & _ & [= <-]).
    unfold tallied, counts_match_reviews. simpl.
    rewrite sum_values_kcounter_incr. split; [lia|].
    intros Hacc id. rewrite kcounter_incr_kget0. unfold kdict_append.
    rewrite kdict_get_set. specialize (Hacc id). unfold kget0 in *.
    destruct (atom_eqb id key) eqn:Hk; simpl; [|lia].
    apply atom_eqb_eq in Hk.
    rewrite <- (kdict_get_class id key) by done. rewrite Hacc.
    destruct (kdict_get id (reviews_by_topic acc)); simpl;
      rewrite ?len_app; unfold len; simpl; lia.
  - injection Hrun as <-. unfold tallied, counts_match_reviews. simpl.
    rewrite len_app. unfold len. simpl. split; [lia | done].
Qed.

Lemma count_topics_tallied mappings review_data items :
  ∀ acc acc',
    pfor_each (count_topic mappings review_data) items acc = Val acc' →
    tallied acc'
    = tallied acc
      + len (omap (λ t, match t with JStr s => Some s | _ => None end) items)
    ∧ (counts_match_reviews acc → counts_match_reviews acc').
Proof.
  induction items as [|t items IH]; simpl; intros acc acc' Hrun.
  - injection Hrun as <-. unfold len. simpl. split; [lia | done].
  - apply pbind_Val in Hrun as (acc1 & Ht & Hrun).
    apply count_topic_tallied in Ht as ([s ->] & Hone & Hmatch).
    destruct (IH _ _ Hrun) as [Hrest Hmatch']. csimpl.
    rewrite len_cons.
    split; [rewrite Hrest, Hone, <- Z.add_assoc; reflexivity | auto].
Qed.

Lemma count_review_tallied reviews_lookup mappings acc result acc' :
  count_review reviews_lookup mappings acc result = Val acc' →
  tallied acc' = tallied acc + len (extracted_phrases result)
  ∧ (counts_match_reviews acc → counts_match_reviews acc').
Proof.
  unfold count_review. intros Hrun.
  apply pbind_Val in Hrun as (review_id & Hid & Hrun).
  apply pbind_Val in Hrun as (extracted & Hex & Hrun).
  apply pbind_Val in Hrun as (review_data & _ & Hrun).
  destruct (truthy extracted) eqn:Htruthy; simpl in Hrun.
  - apply pbind_Val in Hrun as (items & Hitems & Hrun).
    rewrite (extracted_phrases_iterate _ _ _ Hex Htruthy Hitems).
    by apply count_topics_tallied in Hrun.
  - injection Hrun as <-.
    rewrite (extracted_phrases_falsy _ _ Hex Htruthy).
    unfold tallied, counts_match_reviews, len. simpl. split; [lia | done].
Qed.

Lemma count_reviews_tallied reviews_lookup mappings ers :
  ∀ acc acc',
    pfor_each (count_review reviews_lookup mappings) ers acc = Val acc' →
    tallied acc' = tallied acc + len (concat (map extracted_phrases ers))
    ∧ (counts_match_reviews acc → counts_match_reviews acc').
Proof.
  induction ers as [|r ers IH]; simpl; intros acc acc' Hrun.
  - injection Hrun as <-. unfold len. simpl. split; [lia | done].
  - apply pbind_Val in Hrun as (acc1 & Hr & Hrun).
    destruct (count_review_tallied _ _ _ _ _ Hr) as [Hone Hmatch].
    destruct (IH _ _ Hrun) as [Hrest Hmatch'].
    rewrite len_app. split; [lia | auto].
Qed.

(** ** Model calls of the consolidator *)

Lemma log_llm_calls_app calls1 calls2 w :
  log_llm_calls (calls1 ++ calls2) w
  = log_llm_calls calls2 (log_llm_calls calls1 w).
Proof. unfold log_llm_calls. by rewrite fold_left_app. Qed.

Lemma llm_calls_log_llm_calls calls w :
  llm_calls (log_llm_calls calls w) = llm_calls w ++ calls.
Proof.
  revert w. induction calls as [|p calls IH]; intros w; simpl.
  - by rewrite app_nil_r.
  - rewrite IH. simpl. by rewrite <- app_assoc.
Qed.

Lemma hash_order_log_llm_calls calls w :
  hash_order (log_llm_calls calls w) = hash_order w.
Proof. revert w. induction calls as [|p calls IH]; intros w; simpl; [done|]. by rewrite IH. Qed.

Lemma final_world_bind {A B} (c : M A) (k : A → M B) w :
  final_world (bind c k w) =
    match c w with
    | Ok a w1 => final_world (k a w1)
    | Raise _ w1 => w1
    end.
Proof. unfold bind. by destruct (c w). Qed.

Lemma final_world_lift {A B} (c : pyres A) (k : A → M B) w :
  (∀ a, final_world (k a w) = w) →
  final_world (bind (lift c) k w) = w.
Proof. intros Hk. unfold bind, lift. destruct c; [apply Hk | done]. Qed.

Lemma llm_extends_refl Q w : llm_extends Q w w.
Proof. exists []. by rewrite app_nil_r. Qed.

Lemma llm_extends_same Q w w' : llm_calls w' = llm_calls w → llm_extends Q w w'.
Proof. intros Heq. exists []. by rewrite app_nil_r. Qed.

Lemma llm_extends_trans Q w1 w2 w3 :
  llm_extends Q w1 w2 → llm_extends Q w2 w3 → llm_extends Q w1 w3.
Proof.
  intros (c1 & H1 & HQ1) (c2 & H2 & HQ2). exists (c1 ++ c2).
  split; [by rewrite H2, H1, app_assoc | by apply Forall_app].
Qed.

Lemma llm_extends_impl (Q Q' : prompt → Prop) w w' :
  (∀ c, Q c → Q' c) → llm_extends Q w w' → llm_extends Q' w w'.
Proof.
  intros Himpl (calls & Heq & HQ). exists calls. split; [done|].
  by eapply Forall_impl.
Qed.

Lemma llm_extends_bind {A B} Q (c : M A) (k : A → M B) w :
  llm_extends Q w (final_world (c w)) →
  (∀ a w1, c w = Ok a w1 → llm_extends Q w1 (final_world (k a w1))) →
  llm_extends Q w (final_world (bind c k w)).
Proof.
  intros Hc Hk. rewrite final_world_bind.
  destruct (c w) as [a w1|e w1] eqn:Hcw; [|done].
  eapply llm_extends_trans; [exact Hc | by apply Hk].
Qed.

Lemma llm_extends_for_each {A S} Q (f : S → A → M S) l :
  (∀ s x w, x ∈ l → llm_extends Q w (final_world (f s x w))) →
  ∀ s w, llm_extends Q w (final_world (for_each f l s w)).
Proof.
  induction l as [|x l IH]; simpl; intros Hf s w.
  - apply llm_extends_refl.
  - apply llm_extends_bind; [apply Hf; left|].
    intros s1 w1 _. apply IH. intros s2 y w2 Hy. apply Hf. by right.
Qed.

Lemma llm_extends_lift {A} Q (c : pyres A) w :
  llm_extends Q w (final_world (lift c w)).
Proof. unfold lift. destruct c; apply llm_extends_refl. Qed.

(** A loop that completes, by what it has gone through. *)
Lemma for_each_Ok_ind {A S} (P : list A → S → world → Prop)
    (f : S → A → M S) l :
  (∀ done x s w s' w',
     x ∈ l → P done s w → f s x w = Ok s' w' → P (done ++ [x]) s' w') →
  ∀ done s w s' w',
    P done s w → for_each f l s w = Ok s' w' → P (done ++ l) s' w'.
Proof.
  induction l as [|x l IH]; simpl; intros Hf done s w s' w' Hs Hrun.
  - apply ret_Ok in Hrun as [-> ->]. by rewrite app_nil_r.
  - apply bind_Ok in Hrun as (s1 & w1 & Hx & Hrest).
    replace (done ++ x :: l) with ((done ++ [x]) ++ l)
      by (by rewrite <- app_assoc).
    eapply IH; [|eapply Hf; [left|exact Hs|exact Hx]|exact Hrest].
    intros done' y s2 w2 s3 w3 Hy. apply Hf. by right.
Qed.

Lemma validated_with_later groq_client before after more p reply :
  validated_with groq_client before after p reply →
  validated_with groq_client before (after ++ more) p reply.
Proof.
  intros (earlier & names & later & -> & ->).
  exists earlier, names, (later ++ more). split; [|done].
  by rewrite <- !app_assoc.
Qed.

Lemma accepted_in_later groq_client before after more p :
  accepted_in groq_client before after p →
  accepted_in groq_client before (after ++ more) p.
Proof.
  intros (reply & Hval & Hacc). exists reply.
  split; [by apply validated_with_later | done].
Qed.

Lemma accepted_parsed reply :
  accepted_reply reply
  ↔ ∃ v b, parsed reply = Some v
           ∧ obj_get "is_valid" (JBool false) v = Val b
           ∧ truthy b = true.
Proof.
  split; intros (v & b & Hreply & Hb & Htruthy); exists v, b.
  - subst reply. by destruct v.
  - destruct reply as [[]|]; done.
Qed.

Lemma validate_new_topic_run q names groq_client w :
  validate_new_topic q names groq_client w =
    match pmap str_item (firstn 20 names) with
    | Val existing_str =>
        Ok (match parsed (groq_client (llm_calls w)
                            (ValidationPrompt existing_str q)) with
            | Some v => v
            | None => JObj [("topic", JStr q); ("is_valid", JBool false);
                            ("reasoning", JStr "Failed to validate with LLM")]
            end)
           (log_llm_call (ValidationPrompt existing_str q) w)
    | Exc e => Raise e w
    end.
Proof.
  unfold validate_new_topic, bind, lift, send_message_json.
  destruct (pmap str_item (firstn 20 names)) as [existing_str|e]; [|done].
  by destruct (parsed _).
Qed.

(** What one round of the promotion loop does to the log of model calls:
    nothing below the threshold, at most one validation call otherwise. *)
Lemma consider_topic_below names ur date_str groq_client acc q n w :
  n < MIN_TOPIC_OCCURRENCES →
  consider_topic names ur date_str groq_client acc (q, n) w = Ok acc w.
Proof.
  intros Hn. unfold consider_topic.
  by destruct (Z.leb_spec MIN_TOPIC_OCCURRENCES n); [lia|].
Qed.

Lemma consider_topic_calls names ur date_str groq_client acc q n w :
  llm_extends (λ c, MIN_TOPIC_OCCURRENCES ≤ n ∧ ∃ strs, c = ValidationPrompt strs q)
    w (final_world (consider_topic names ur date_str groq_client acc (q, n) w)).
Proof.
  unfold consider_topic.
  destruct (Z.leb_spec MIN_TOPIC_OCCURRENCES n) as [Hn|Hn];
    [|apply llm_extends_refl].
  rewrite final_world_bind, validate_new_topic_run.
  destruct (pmap str_item (firstn 20 names)) as [strs|e];
    [|apply llm_extends_refl].
  set (p := ValidationPrompt strs q).
  set (v := match parsed _ with Some v => v | None => _ end).
  assert (final_world
            ((is_valid <- lift (obj_get "is_valid" (JBool false) v) ;;
              if truthy is_valid then
                suggested_id <-
                  lift (obj_get "suggested_topic_id"
                                (JStr (generate_topic_id q)) v) ;;
                name <- lift (obj_get "suggested_topic_name"
                                      (JStr (title q)) v) ;;
                cat <- lift (obj_get "suggested_category" (JStr "issue") v) ;;
                id <- lift (as_atom suggested_id) ;;
                ret {| new_topics_to_add :=
                         new_topics_to_add acc
                         ++ [{| topic_id := id; topic_name := name;
                                category := cat; variations := [q];
                                description :=
                                  String.append "Auto-discovered topic: " q;
                                added_date := date_str; is_seed := false;
                                app_specific := true |}];
                       p_topic_counts := kdict_set id n (p_topic_counts acc);
                       p_reviews_by_topic :=
                         kdict_set id (default [] (dict_get q ur))
                                   (p_reviews_by_topic acc);
                       topic_id_to_name :=
                         kdict_set id name (topic_id_to_name acc) |}
              else ret acc) (log_llm_call p w))
          = log_llm_call p w) as ->.
  { apply final_world_lift. intros is_valid.
    destruct (truthy is_valid); [|done].
    apply final_world_lift. intros suggested_id.
    apply final_world_lift. intros name.
    apply final_world_lift. intros cat.
    by apply final_world_lift. }
  exists [p]. split; [done|]. constructor; [|constructor]. split; [done|].
  by exists strs.
Qed.

(** What one round of the promotion loop returns: below the threshold
    nothing changes; at or above it the phrase is sent for validation, and
    the accumulator stays as it was when the reply is not an acceptance,
    and gets one topic more, built from the phrase, when it is. *)
Lemma consider_topic_Ok names ur date_str groq_client acc q n w acc' w' :
  consider_topic names ur date_str groq_client acc (q, n) w = Ok acc' w' →
  (n < MIN_TOPIC_OCCURRENCES ∧ acc' = acc ∧ w' = w)
  ∨ (MIN_TOPIC_OCCURRENCES ≤ n
     ∧ ∃ strs,
         w' = log_llm_call (ValidationPrompt strs q) w
         ∧ ((¬ accepted_reply
                 (groq_client (llm_calls w) (ValidationPrompt strs q))
             ∧ acc' = acc)
            ∨ (accepted_reply
                 (groq_client (llm_calls w) (ValidationPrompt strs q))
               ∧ ∃ t, variations t = [q]
                      ∧ is_seed t = false
                      ∧ app_specific t = true
                      ∧ added_date t = date_str
                      ∧ new_topics_to_add acc' = new_topics_to_add acc ++ [t]
                      ∧ p_topic_counts acc'
                        = kdict_set (topic_id t) n (p_topic_counts acc)))).
Proof.
  unfold consider_topic.
  destruct (Z.leb_spec MIN_TOPIC_OCCURRENCES n) as [Hn|Hn];
    [|intros [-> ->]%ret_Ok; by left].
  intros Hrun. right. split; [done|].
  unfold bind at 1 in Hrun. rewrite validate_new_topic_run in Hrun.
  destruct (pmap str_item (firstn 20 names)) as [strs|e]; [|done].
  exists strs.
  pose proof (accepted_parsed
                (groq_client (llm_calls w) (ValidationPrompt strs q)))
    as Hacc.
  destruct (parsed (groq_client (llm_calls w) (ValidationPrompt strs q)))
    as [v|] eqn:Hreply.
  2:{ apply ret_Ok in Hrun as [-> ->]. split; [done|]. left.
      split; [|done]. intros (v & b & Hv & _)%Hacc. done. }
  apply bind_Ok in Hrun as (b & w1 & [Hb ->]%lift_Ok & Hrun).
  destruct (truthy b) eqn:Htruthy.
  2:{ apply ret_Ok in Hrun as [-> ->]. split; [done|]. left.
      split; [|done]. intros (v' & b' & [= <-] & Hb' & Htruthy')%Hacc.
      rewrite Hb in Hb'. injection Hb' as <-. congruence. }
  apply bind_Ok in Hrun as (suggested_id & w2 & [_ ->]%lift_Ok & Hrun).
  apply bind_Ok in Hrun as (name & w3 & [_ ->]%lift_Ok & Hrun).
  apply bind_Ok in Hrun as (cat & w4 & [_ ->]%lift_Ok & Hrun).
  apply bind_Ok in Hrun as (id & w5 & [_ ->]%lift_Ok & Hrun).
  apply ret_Ok in Hrun as [-> ->]. split; [done|]. right.
  split; [apply Hacc; by exists v, b|].
  by exists {| topic_id := id; topic_name := name; category := cat;
               variations := [q];
               description := String.append "Auto-discovered topic: " q;
               added_date := date_str; is_seed := false;
               app_specific := true |}.
Qed.

Lemma discover_new_topics_calls counted phrases app_id date_str groq_client w :
  llm_extends (frequent_validation phrases) w
    (final_world (discover_new_topics counted (Counter phrases) app_id date_str
                                      groq_client w)).
Proof.
  unfold discover_new_topics. apply llm_extends_bind.
  { destruct (load_app_taxonomy_Ok app_id w) as (tx & w1 & -> & Heq).
    by apply llm_extends_same. }
  intros tx w1 _. apply llm_extends_for_each. intros acc [q n] w2 Hin.
  apply Counter_elem in Hin as [_ ->].
  eapply llm_extends_impl; [|apply consider_topic_calls].
  intros c (Hn & strs & ->). by exists strs, q.
Qed.

(** The topics a day discovers: each is built from a phrase at or above
    the threshold whose validation, made in this run, the model answered
    with an acceptance; every phrase at or above the threshold was sent
    for validation; and the counts are the mapped counts with the
    discovered topics folded in. *)
Lemma discover_new_topics_Ok counted phrases app_id date_str groq_client w
    promoted w' :
  discover_new_topics counted (Counter phrases) app_id date_str groq_client w
    = Ok promoted w' →
  ∃ tx w0,
    load_app_taxonomy app_id w = Ok tx w0
    ∧ only_llm_calls w0 w'
    ∧ Forall
        (λ t, is_seed t = false ∧ app_specific t = true
              ∧ added_date t = date_str
              ∧ ∃ q, variations t = [q]
                     ∧ MIN_TOPIC_OCCURRENCES ≤ occurrences q phrases
                     ∧ accepted_in groq_client (llm_calls w) (llm_calls w') q)
        (new_topics_to_add promoted)
    ∧ (∀ p, p ∈ phrases →
            MIN_TOPIC_OCCURRENCES ≤ occurrences p phrases →
            ∃ reply,
              validated_with groq_client (llm_calls w) (llm_calls w') p reply)
    ∧ p_topic_counts promoted
      = fold_in_counts phrases (new_topics_to_add promoted)
                       (topic_counts counted).
Proof.
  unfold discover_new_topics. intros Hrun.
  apply bind_Ok in Hrun as (tx & w0 & Hload & Hrun).
  exists tx, w0. split; [done|].
  destruct (load_app_taxonomy_Ok app_id w) as (tx' & w0' & Hload' & Hcalls).
  rewrite Hload in Hload'. injection Hload' as <- <-.
  rewrite <- Hcalls.
  pose (P := λ (done : list (string * Z)) (acc : promotion) (wc : world),
    only_llm_calls w0 wc
    ∧ Forall
        (λ t, is_seed t = false ∧ app_specific t = true
              ∧ added_date t = date_str
              ∧ ∃ q, variations t = [q]
                     ∧ MIN_TOPIC_OCCURRENCES ≤ occurrences q phrases
                     ∧ accepted_in groq_client (llm_calls w0) (llm_calls wc) q)
        (new_topics_to_add acc)
    ∧ (∀ q n, (q, n) ∈ done → MIN_TOPIC_OCCURRENCES ≤ n →
              ∃ reply,
                validated_with groq_client (llm_calls w0) (llm_calls wc) q
                               reply)
    ∧ p_topic_counts acc
      = fold_in_counts phrases (new_topics_to_add acc) (topic_counts counted)).
  assert (Hend : P ([] ++ Counter phrases) promoted w').
  { revert Hrun. apply (for_each_Ok_ind P).
    - intros done [q n] acc wc acc' wc' Hin (Honly & Hnew & Hdone & Hcounts)
        Hstep.
      apply Counter_elem in Hin as [_ ->].
      apply consider_topic_Ok in Hstep
        as [(Hn & -> & ->)|(Hn & strs & -> & Hcase)].
      { split; [done|]. split; [done|]. split; [|done].
        intros q' n' [Hq'|[= -> ->]%list_elem_of_singleton]%elem_of_app Hn';
          [exact (Hdone _ _ Hq' Hn') | lia]. }
      destruct Honly as [calls ->].
      assert (Hlog : llm_calls
                       (log_llm_call (ValidationPrompt strs q)
                                     (log_llm_calls calls w0))
                     = llm_calls (log_llm_calls calls w0)
                       ++ [ValidationPrompt strs q]) by done.
      assert (Hval : validated_with groq_client (llm_calls w0)
                       (llm_calls (log_llm_calls calls w0)
                        ++ [ValidationPrompt strs q]) q
                       (groq_client (llm_calls (log_llm_calls calls w0))
                                    (ValidationPrompt strs q))).
      { exists calls, strs, []. rewrite llm_calls_log_llm_calls.
        split; [by rewrite <- app_assoc | done]. }
      unfold P. cbv beta. rewrite Hlog.
      assert (Hnew' : Forall
        (λ t, is_seed t = false ∧ app_specific t = true
              ∧ added_date t = date_str
              ∧ ∃ q0, variations t = [q0]
                      ∧ MIN_TOPIC_OCCURRENCES ≤ occurrences q0 phrases
                      ∧ accepted_in groq_client (llm_calls w0)
                          (llm_calls (log_llm_calls calls w0)
                           ++ [ValidationPrompt strs q]) q0)
        (new_topics_to_add acc)).
      { eapply Forall_impl; [exact Hnew|].
        intros t (? & ? & ? & q0 & ? & ? & Hacc). repeat split; try done.
        exists q0. repeat split; try done. by apply accepted_in_later. }
      assert (Hdone' : ∀ q' n', (q', n') ∈ done ++ [(q, occurrences q phrases)] →
                MIN_TOPIC_OCCURRENCES ≤ n' →
                ∃ reply,
                  validated_with groq_client (llm_calls w0)
                    (llm_calls (log_llm_calls calls w0)
                     ++ [ValidationPrompt strs q]) q' reply).
      { intros q' n' [Hq'|[= -> ->]%list_elem_of_singleton]%elem_of_app Hn'.
        - destruct (Hdone q' n' Hq' Hn') as [reply Hreply].
          exists reply. by apply validated_with_later.
        - by eexists. }
      split; [by exists (calls ++ [ValidationPrompt strs q]);
                rewrite log_llm_calls_app|].
      destruct Hcase as [[_ ->]|(Haccepted & t & Hvar & Hseed & Happ & Hdate
                                 & Hadd & Hset)].
      { by repeat split. }
      rewrite Hadd, Hset. split; [|split; [done|]].
      + apply Forall_app. split; [done|]. constructor; [|constructor].
        repeat split; try done. exists q. repeat split; try done.
        by eexists.
      + unfold fold_in_counts. rewrite fold_left_app. simpl.
        fold (fold_in_counts phrases (new_topics_to_add acc)
                             (topic_counts counted)).
        rewrite <- Hcounts. unfold phrase_of. by rewrite Hvar.
    - unfold P. simpl. split; [apply only_llm_calls_refl|].
      split; [constructor|]. split; [|done].
      by intros q n ?%elem_of_nil. }
  destruct Hend as (Honly & Hnew & Hdone & Hcounts).
  split; [done|]. split; [done|]. split; [|done].
  intros p Hp Hn. apply (Hdone p (occurrences p phrases)); [|done].
  simpl. by apply Counter_elem.
Qed.

(** The run of [consolidate_and_discover], stage by stage, and the batch
    it returns, field by field. *)
Lemma consolidate_and_discover_trace ers mappings app_id date_str df
    groq_client w batch w' :
  consolidate_and_discover ers mappings app_id date_str df groq_client w
    = Ok batch w' →
  ∃ counted promoted tx w0 w1 detailed processed_at,
    count_reviews (build_reviews_lookup df) mappings ers = Val counted
    ∧ load_app_taxonomy app_id w = Ok tx w0
    ∧ discover_new_topics counted (Counter (unmapped_phrases mappings ers))
        app_id date_str groq_client w = Ok promoted w1
    ∧ only_llm_calls w0 w1
    ∧ taxonomy_json w1 !! app_id = Some tx
    ∧ w' = set_details_json (insert (app_id, date_str) detailed)
             (set_batch_json (insert (app_id, date_str) batch)
                (with_discovered app_id tx (new_topics_to_add promoted) w1))
    ∧ batch
      = JObj [("app_id", JStr app_id);
              ("date", JInt date_str);
              ("total_reviews", JInt (len ers));
              ("reviews_with_topics",
                JInt (len ers - len (reviews_with_no_topics counted)));
              ("reviews_without_topics",
                JInt (len (reviews_with_no_topics counted)));
              ("total_topic_mentions",
                JInt (sum_values (p_topic_counts promoted)));
              ("topic_frequencies",
                frequencies_json (p_topic_counts promoted));
              ("new_topics_discovered",
                JArr (map (λ t, atom_json (topic_id t))
                          (new_topics_to_add promoted)));
              ("unmapped_count",
                JInt (len (List.filter below_threshold
                             (Counter (unmapped_phrases mappings ers)))));
              ("processed_at", JInt processed_at)].
Proof.
  unfold consolidate_and_discover. intros Hrun.
  apply bind_Ok in Hrun as (counted & w0' & [Hcount ->]%lift_Ok & Hrun).
  rewrite (unmapped_phrases_counted _ _ _ _ Hcount) in Hrun.
  apply bind_Ok in Hrun as (promoted & w1 & Hdisc & Hrun).
  destruct (discover_new_topics_Ok _ _ _ _ _ _ _ _ Hdisc)
    as (tx & w0 & Hload & Honly & _).
  assert (Hstored : taxonomy_json w1 !! app_id = Some tx).
  { destruct Honly as [calls ->].
    destruct (log_llm_calls_files calls w0) as (-> & _).
    destruct (load_app_taxonomy_stored app_id w)
      as (tx' & w0' & Hload' & Hst & _).
    rewrite Hload in Hload'. by injection Hload' as <- <-. }
  apply bind_Ok in Hrun as ([] & w2 & Hadd & Hrun).
  assert (w2 = with_discovered app_id tx (new_topics_to_add promoted) w1) as ->.
  { unfold with_discovered.
    destruct (is_empty (new_topics_to_add promoted)).
    - by apply ret_Ok in Hadd as [_ ->].
    - rewrite (add_topics_to_taxonomy_saves _ _ _ _ Hstored) in Hadd.
      by injection Hadd as <-. }
  apply bind_Ok in Hrun as (processed_at & w3 & [= <- <-] & Hrun).
  apply bind_Ok in Hrun as ([] & w4 & [= <-] & Hrun).
  apply bind_Ok in Hrun as (generated_at & w5 & [= <- <-] & Hrun).
  apply bind_Ok in Hrun as ([] & w6 & [= <-] & Hrun).
  apply ret_Ok in Hrun as [-> ->].
  by eexists counted, promoted, tx, w0, w1, _, _.
Qed.

Lemma with_discovered_files app_id tx new_topics w :
  reviews_csv (with_discovered app_id tx new_topics w) = reviews_csv w
  ∧ batch_json (with_discovered app_id tx new_topics w) = batch_json w
  ∧ details_json (with_discovered app_id tx new_topics w) = details_json w
  ∧ fetch_calls (with_discovered app_id tx new_topics w) = fetch_calls w
  ∧ llm_calls (with_discovered app_id tx new_topics w) = llm_calls w.
Proof. unfold with_discovered. by destruct (is_empty new_topics). Qed.

(** The model calls at the end of a run that returns are those at the end
    of its discovery stage. *)
Lemma consolidate_and_discover_llm_calls ers mappings app_id date_str df
    groq_client w batch w' :
  consolidate_and_discover ers mappings app_id date_str df groq_client w
    = Ok batch w' →
  ∃ counted promoted w1,
    discover_new_topics counted (Counter (unmapped_phrases mappings ers))
      app_id date_str groq_client w = Ok promoted w1
    ∧ llm_calls w' = llm_calls w1.
Proof.
  intros Hrun. apply consolidate_and_discover_trace in Hrun
    as (counted & promoted & tx & w0 & w1 & detailed & processed_at & _ & _
        & Hdisc & _ & _ & -> & _).
  exists counted, promoted, w1. split; [done|]. simpl.
  by destruct (with_discovered_files app_id tx (new_topics_to_add promoted) w1)
    as (_ & _ & _ & _ & ->).
Qed.

Lemma consolidate_and_discover_calls ers mappings app_id date_str df
    groq_client w :
  llm_extends (frequent_validation (unmapped_phrases mappings ers)) w
    (final_world
       (consolidate_and_discover ers mappings app_id date_str df groq_client w)).
Proof.
  unfold consolidate_and_discover. apply llm_extends_bind.
  { apply llm_extends_lift. }
  intros counted w0 [Hcount ->]%lift_Ok.
  rewrite (unmapped_phrases_counted _ _ _ _ Hcount).
  apply llm_extends_bind; [apply discover_new_topics_calls|].
  intros promoted w1 _. apply llm_extends_same.
  rewrite final_world_bind.
  destruct (is_empty (new_topics_to_add promoted)); [done|].
  by destruct (add_topics_to_taxonomy_Ok app_id (new_topics_to_add promoted) w1)
    as (w2 & -> & Heq).
Qed.

Lemma no_validation_below_threshold phrases p w w' :
  occurrences p phrases < MIN_TOPIC_OCCURRENCES →
  llm_extends (frequent_validation phrases) w w' →
  llm_extends (λ c, ∀ names, c ≠ ValidationPrompt names p) w w'.
Proof.
  intros Hlt. apply llm_extends_impl.
  intros c (names & q & -> & Hq) names' [= _ ->]. lia.
Qed.

(** ** Promotion *)

Lemma consolidate_days_calls (days : list day_input) (app_id : string)
    (groq_client : GroqClient) (Q : prompt → Prop) :
  (∀ d w1, d ∈ days →
     llm_extends Q w1
       (final_world
          (consolidate_and_discover (day_extraction_results d) (day_mappings d)
             app_id (day_date d) (day_reviews d) groq_client w1))) →
  ∀ w, llm_extends Q w (final_world (consolidate_days days app_id groq_client w)).
Proof.
  intros Hday w. unfold consolidate_days. apply llm_extends_for_each.
  intros [] d w1 Hd. apply llm_extends_bind; [by apply Hday|].
  intros batch w2 _. apply llm_extends_refl.
Qed.

(** C7. In a window of days in each of which the unmapped phrase stays
    below [MIN_TOPIC_OCCURRENCES] (so also when it occurs exactly
    [MIN_TOPIC_OCCURRENCES - 1] times a day, and whatever its total over
    the window), no validation call is issued for the phrase in the whole
    run, whether the run completes or a day raises; and in no day's batch,
    from whatever state that day starts, is a topic discovered from the
    phrase: [new_topics_discovered] lists the ids of the topics that the
    promotion loop built that day, and each of them was built from another
    phrase.  The phrases of a day are the extracted phrases without a
    mapped topic id, lowercased, counted for this day alone. *)
Theorem promotion_threshold_per_day (days : list day_input) (app_id : string)
    (groq_client : GroqClient) (p : string) (w : world) :
  (∀ d, d ∈ days →
        occurrences p (day_phrases d) ≤ MIN_TOPIC_OCCURRENCES - 1) →
  llm_extends (not_validating p) w
    (final_world (consolidate_days days app_id groq_client w))
  ∧ ∀ d w1 batch w2,
      d ∈ days →
      consolidate_and_discover (day_extraction_results d) (day_mappings d)
        app_id (day_date d) (day_reviews d) groq_client w1 = Ok batch w2 →
      llm_extends (not_validating p) w1 w2
      ∧ ∃ counted promoted w3,
          count_reviews (build_reviews_lookup (day_reviews d)) (day_mappings d)
                        (day_extraction_results d) = Val counted
          ∧ day_phrases d = map lower (unmapped_topics counted)
          ∧ discover_new_topics counted (Counter (day_phrases d)) app_id
              (day_date d) groq_client w1 = Ok promoted w3
          ∧ field "new_topics_discovered" batch
            = Some (JArr (map (λ t, atom_json (topic_id t))
                              (new_topics_to_add promoted)))
          ∧ ∀ t, t ∈ new_topics_to_add promoted → variations t ≠ [p].
Proof.
  intros Hbelow.
  assert (Hday : ∀ d w1, d ∈ days →
    llm_extends (not_validating p) w1
      (final_world
         (consolidate_and_discover (day_extraction_results d) (day_mappings d)
            app_id (day_date d) (day_reviews d) groq_client w1))).
  { intros d w1 Hd.
    apply (no_validation_below_threshold (day_phrases d));
      [specialize (Hbelow d Hd); lia|].
    apply consolidate_and_discover_calls. }
  split; [by apply consolidate_days_calls|].
  intros d w1 batch w2 Hd Hrun. split.
  - specialize (Hday d w1 Hd). by rewrite Hrun in Hday.
  - apply consolidate_and_discover_trace in Hrun
      as (counted & promoted & tx & w0 & w3 & detailed & processed_at & Hcount
          & _ & Hdisc & _ & _ & _ & ->).
    exists counted, promoted, w3. split; [done|].
    split; [symmetry; by eapply unmapped_phrases_counted|].
    split; [done|]. split; [done|].
    intros t Ht Hvar.
    apply discover_new_topics_Ok in Hdisc as (_ & _ & _ & _ & Hfrom & _).
    rewrite Forall_forall in Hfrom.
    destruct (Hfrom t Ht) as (_ & _ & _ & q & Hq & Hn & _).
    rewrite Hvar in Hq. injection Hq as <-.
    specialize (Hbelow d Hd). unfold day_phrases in Hbelow. lia.
Qed.

(** C10. In a batch that [consolidate_and_discover] emits,
    [unmapped_count] is the number of distinct lowercased unmapped phrases
    (the extracted phrases of the day without a mapped topic id) that
    occur fewer than [MIN_TOPIC_OCCURRENCES] times in the day.
    [topic_frequencies] holds the counts of the mapped topics with the
    counts of the discovered topics folded in; each discovered topic comes
    from a phrase at or above the threshold whose validation call of this
    run the model answered with an acceptance, and every phrase at or
    above the threshold was sent for validation in this run.  So a phrase
    at or above the threshold whose validation is rejected is not among
    the phrases that [unmapped_count] counts, and no discovered topic, and
    with it no entry folded into [topic_frequencies], comes from it. *)
Theorem unmapped_count_below_threshold (ers : list json)
    (mappings : pydict json) (app_id : string) (date_str : Z) (df : DataFrame)
    (groq_client : GroqClient) (w w' : world) (batch : json) :
  consolidate_and_discover ers mappings app_id date_str df groq_client w
    = Ok batch w' →
  let phrases := unmapped_phrases mappings ers in
  field "unmapped_count" batch
  = Some (JInt (len (List.filter
                       (λ q, occurrences q phrases <? MIN_TOPIC_OCCURRENCES)
                       (remove_dups phrases))))
  ∧ ∃ counted promoted w1,
      count_reviews (build_reviews_lookup df) mappings ers = Val counted
      ∧ phrases = map lower (unmapped_topics counted)
      ∧ discover_new_topics counted (Counter phrases) app_id date_str
          groq_client w = Ok promoted w1
      ∧ field "new_topics_discovered" batch
        = Some (JArr (map (λ t, atom_json (topic_id t))
                          (new_topics_to_add promoted)))
      ∧ field "topic_frequencies" batch
        = Some (frequencies_json
                  (fold_in_counts phrases (new_topics_to_add promoted)
                                  (topic_counts counted)))
      ∧ (∀ t, t ∈ new_topics_to_add promoted →
              ∃ q, variations t = [q]
                   ∧ MIN_TOPIC_OCCURRENCES ≤ occurrences q phrases
                   ∧ accepted_in groq_client (llm_calls w) (llm_calls w') q)
      ∧ (∀ q, q ∈ phrases →
              MIN_TOPIC_OCCURRENCES ≤ occurrences q phrases →
              ∃ reply,
                validated_with groq_client (llm_calls w) (llm_calls w') q
                               reply)
      ∧ ∀ q, MIN_TOPIC_OCCURRENCES ≤ occurrences q phrases →
             rejected_in groq_client (llm_calls w) (llm_calls w') q →
             (q ∉ List.filter
                    (λ q, occurrences q phrases <? MIN_TOPIC_OCCURRENCES)
                    (remove_dups phrases))
             ∧ ∀ t, t ∈ new_topics_to_add promoted → variations t ≠ [q].
Proof.
  intros Hrun phrases.
  apply consolidate_and_discover_trace in Hrun
    as (counted & promoted & tx & w0 & w1 & detailed & processed_at & Hcount
        & _ & Hdisc & _ & _ & Hw' & ->).
  fold phrases in Hdisc.
  assert (Hlog : llm_calls w' = llm_calls w1).
  { rewrite Hw'. simpl.
    by destruct (with_discovered_files app_id tx (new_topics_to_add promoted) w1)
      as (_ & _ & _ & _ & ->). }
  rewrite Hlog. clear Hlog.
  split; [simpl; by rewrite below_threshold_count|].
  exists counted, promoted, w1. split; [done|].
  split; [symmetry; by eapply unmapped_phrases_counted|].
  split; [done|]. split; [done|].
  destruct (discover_new_topics_Ok _ _ _ _ _ _ _ _ Hdisc)
    as (_ & _ & _ & _ & Hfrom & Hall & Hcounts).
  rewrite Forall_forall in Hfrom.
  split; [simpl; by rewrite Hcounts|].
  split.
  { intros t Ht. destruct (Hfrom t Ht) as (_ & _ & _ & q & ? & ? & ?).
    by exists q. }
  split; [exact Hall|].
  intros q Hn Hrejected. split.
  { intros Hin. apply list_elem_of_In, filter_In in Hin as [_ Hlt].
    apply Z.ltb_lt in Hlt. lia. }
  intros t Ht Hvar.
  destruct (Hfrom t Ht) as (_ & _ & _ & q' & Hq' & _ & reply & Hval & Hacc).
  rewrite Hvar in Hq'. injection Hq' as <-.
  by apply (Hrejected reply).
Qed.
(** ** Taxonomy growth *)

(** C2, the code at a candidate list that repeats an id: both entries are
    appended, because the ids are collected once, before the loop. *)
Lemma add_topics_duplicate_candidates :
  on_success
    (add_topics_to_taxonomy "app" [login_failure; login_failure] fresh_world)
    (λ _ w',
       saved_topic_ids w' "app"
       = Some (map topic_id (topics (get_seed_topics_as_taxonomy "app" 0))
               ++ [AStr "login_failure"; AStr "login_failure"])
       ∧ ∃ ids, saved_topic_ids w' "app" = Some ids ∧ ¬ NoDup ids).
Proof.
  vm_compute. split; [reflexivity|]. eexists. split; [reflexivity|].
  intros Hnd. do 10 (apply NoDup_cons in Hnd as [_ Hnd]).
  apply NoDup_cons in Hnd as [Hnot _]. apply Hnot. left.
Qed.

(** ** The store after a first scrape *)

(** C5, the code at a feed whose pages overlap: the first scrape saves
    the fetched rows as they come, so the store holds the review listed on
    both pages twice; merging this store with itself keeps its set of ids
    and drops a row. *)
Lemma scraped_store_merge_changes_count :
  on_success (smart_scrape "app" 100 overlapping_world)
    (λ _ w',
       ∃ store,
         reviews_csv w' !! "app" = Some store
         ∧ ids store = ["a"; "b"; "b"; "c"]
         ∧ ¬ NoDup (ids store)
         ∧ (∀ id, id ∈ ids (merge store store) ↔ id ∈ ids store)
         ∧ length store = 4%nat
         ∧ length (merge store store) = 3%nat).
Proof.
  destruct (smart_scrape "app" 100 overlapping_world) as [df w'|e w'] eqn:Hrun;
    vm_compute in Hrun; [|discriminate Hrun].
  injection Hrun as <- <-. cbn [on_success].
  eexists. split; [vm_compute; reflexivity|].
  split; [reflexivity|]. split.
  - intros Hnd. apply NoDup_cons in Hnd as [_ Hnd].
    apply NoDup_cons in Hnd as [Hnot _]. apply Hnot. left.
  - split; [apply merge_self_ids|]. split; vm_compute; reflexivity.
Qed.

(** ** Promotion at concrete days *)

(** C6, the code at a day whose promoted phrase gets an id other than its
    slug: the reviews are listed under the new id and the phrase is still
    listed among the unmapped topics. *)
Lemma promoted_phrase_stays_unmapped :
  generate_topic_id "app freezes" = "app_freezes"
  ∧ on_success
      (consolidate_and_discover freeze_extractions freeze_mappings "app"
         freeze_day freeze_reviews (accepting_client "app_freeze" "App Freeze")
         fresh_world)
      (λ batch w',
         field "new_topics_discovered" batch = Some (JArr [JStr "app_freeze"])
         ∧ field "topic_frequencies" batch = Some (JObj [("app_freeze", JInt 5)])
         ∧ saved_detail w' "app" freeze_day ["topics"; "app_freeze"; "count"]
           = Some (JInt 5)
         ∧ saved_detail w' "app" freeze_day
             ["unmapped_topics"; "app freezes"; "count"]
           = Some (JInt 5)).
Proof. vm_compute. repeat split. Qed.

(** The same day with two more reviews mapped to [app_technical], the id
    the model then suggests for the phrase: the count and the reviews of
    the mapped topic are replaced, not added to. *)
Lemma promoted_phrase_overwrites_mapped_topic :
  on_success
    (consolidate_and_discover (crash_extractions ++ freeze_extractions)
       (crash_mappings ++ freeze_mappings) "app" freeze_day
       (crash_reviews ++ freeze_reviews)
       (accepting_client "app_technical" "App Technical Issue") fresh_world)
    (λ batch w',
       field "total_reviews" batch = Some (JInt 7)
       ∧ field "topic_frequencies" batch
         = Some (JObj [("app_technical", JInt 5)])
       ∧ saved_detail w' "app" freeze_day ["topics"; "app_technical"; "count"]
         = Some (JInt 5)).
Proof. vm_compute. repeat split. Qed.

(** ** The per-day loop *)

(** C8, as the code has it: a date without reviews gets an explicit
    zero-valued batch, with [total_reviews] 0, no topic frequencies and no
    discovered topics, which [process_single_day] returns to its caller;
    the world is left as it was, so the model is not called and the batch
    is not written to the processed batches. *)
Theorem empty_day_zero_batch (reviews_df : DataFrame) (date_str : Z)
    (app_id : string) (groq_client : GroqClient) (w : world) :
  get_reviews_for_date reviews_df date_str = [] →
  process_single_day reviews_df date_str app_id groq_client w
  = Ok (JObj [("app_id", JStr app_id);
              ("date", JInt date_str);
              ("total_reviews", JInt 0);
              ("topic_frequencies", JObj []);
              ("new_topics_discovered", JArr [])])
       w.
Proof. intros Hempty. unfold process_single_day. by rewrite Hempty. Qed.

Lemma empty_day_zero_batch_witness :
  process_single_day two_days 98 "app" silent_client fresh_world
  = Ok (JObj [("app_id", JStr "app");
              ("date", JInt 98);
              ("total_reviews", JInt 0);
              ("topic_frequencies", JObj []);
              ("new_topics_discovered", JArr [])])
       fresh_world.
Proof. apply (empty_day_zero_batch two_days 98). reflexivity. Defined.

(** C8, the claim at a window with one empty day: after the whole run the
    day with a review has a saved batch, the empty day has none. *)
Lemma empty_day_batch_not_persisted :
  get_date_strings_in_range 100 = [99; 100]
  ∧ on_success (smart_scrape "app" 100 one_review_world)
      (λ reviews_df _, get_reviews_for_date reviews_df 99 = [])
  ∧ on_success (orchestrate_analysis "app" 100 silent_client one_review_world)
      (λ _ w',
         batch_json w' !! ("app", 99) = None
         ∧ (batch_json w' !! ("app", 100)) ≫= field "total_reviews"
           = Some (JInt 1)).
Proof. vm_compute. repeat split. Qed.

(** C9, as the code has it: when a day fails, the loop stops there; the
    days before it were processed, the exception leaves the loop with the
    world of the failure, and the days after it are not processed. *)
Theorem per_day_loop_stops_at_failure (reviews_df : DataFrame)
    (before after : list Z) (failing : Z) (app_id : string)
    (groq_client : GroqClient) (w w1 w2 : world) (e : exn) :
  process_days reviews_df before app_id groq_client w = Ok tt w1 →
  process_single_day reviews_df failing app_id groq_client w1 = Raise e w2 →
  process_days reviews_df (before ++ failing :: after) app_id groq_client w
  = Raise e w2.
Proof.
  unfold process_days. revert w.
  induction before as [|d before IH]; simpl; intros w Hbefore Hfail.
  - apply ret_Ok in Hbefore as [_ ->]. unfold bind. by rewrite Hfail.
  - apply bind_Ok in Hbefore as ([] & w3 & Hd & Hrest).
    unfold bind at 1. rewrite Hd. by apply IH.
Qed.

Lemma per_day_loop_stops_at_failure_witness :
  process_days two_days ([] ++ 99 :: [100]) "app" bare_strings_client fresh_world
  = Raise AttributeError
      (final_world
         (process_single_day two_days 99 "app" bare_strings_client fresh_world)).
Proof.
  apply (per_day_loop_stops_at_failure two_days [] [100] 99 "app"
           bare_strings_client fresh_world fresh_world).
  - reflexivity.
  - vm_compute. reflexivity.
Defined.

(** C9, the claim at a window of two days: the first day fails on a reply
    that lists bare strings, and the second day, which the same client
    processes and saves when it is run alone, is never reached. *)
Lemma later_day_not_processed_after_failure :
  (∃ w', process_days two_days [99; 100] "app" bare_strings_client fresh_world
         = Raise AttributeError w'
         ∧ batch_json w' !! ("app", 100) = None
         ∧ taxonomy_json w' !! "app" = None
         ∧ llm_calls w'
           = [ExtractionPrompt [sample_review "d99" (99 * SECONDS_PER_DAY)
                                              "late delivery"]])
  ∧ on_success
      (process_days two_days [100] "app" bare_strings_client fresh_world)
      (λ _ w', (batch_json w' !! ("app", 100)) ≫= field "total_reviews"
               = Some (JInt 1)).
Proof.
  split.
  - eexists. split; [vm_compute; reflexivity|]. vm_compute. by repeat split.
  - vm_compute. reflexivity.
Qed.

(** ** Inputs at which the hypotheses hold *)

Lemma confidence_gating_witness :
  mapped_topic_id_null
    (JObj [("extracted_topic", JStr "app crash"); ("mapped_topic_id", JNull);
           ("confidence", JFloat 0x1p-1%float); ("reasoning", JStr "sample")]).
Proof.
  apply (confidence_gating low_confidence_client).
  - apply (from_mappings _ _ [extraction_of "r1" ["App crash"]]
             (get_seed_topics_as_taxonomy "app" 0) fresh_world
             (log_llm_call
                (BatchMappingPrompt (get_seed_topics_as_taxonomy "app" 0)
                                    ["app crash"]) fresh_world)
             [("app crash", JObj [("extracted_topic", JStr "app crash");
                                  ("mapped_topic_id", JNull);
                                  ("confidence", JFloat 0x1p-1%float);
                                  ("reasoning", JStr "sample")])]
             "app crash").
    + vm_compute. reflexivity.
    + reflexivity.
  - exists (JFloat 0x1p-1%float). split; reflexivity.
Defined.

Lemma merge_right_biased_witness :
  merge [sample_review "1" 0 "a"] [sample_review "1" 0 "b"]
  = [sample_review "1" 0 "b"].
Proof.
  destruct (merge_right_biased [] []) as (_ & _ & _ & _ & _ & _ & Hone).
  apply Hone. reflexivity.
Defined.

Lemma smart_scrape_decision_table_witness :
  ∃ fetched w',
    smart_scrape "app" 19906 june_world
    = Ok (rows_in_window (19905 * SECONDS_PER_DAY) (19906 * SECONDS_PER_DAY)
                         (merge june_store fetched)) w'
    ∧ fetch_calls w'
      = [{| fc_app_id := "app";
            fc_reference_date := 19906 * SECONDS_PER_DAY;
            fc_cutoff_date := 19904 * SECONDS_PER_DAY |}].
Proof.
  destruct (smart_scrape_decision_table "app" 19906 june_world june_store)
    as (_ & Hnewer & _).
  - reflexivity.
  - discriminate.
  - destruct Hnewer as (fetched & w' & _ & Hrun & Hcalls & _).
    + intros [_ Hmax]. vm_compute in Hmax. by apply Hmax.
    + by vm_compute.
    + exists fetched, w'. split; [exact Hrun | exact Hcalls].
Defined.

Lemma promotion_threshold_per_day_witness :
  llm_extends (not_validating "slow refund") fresh_world
    (final_world
       (consolidate_days [refund_day 100; refund_day 101] "app"
          (accepting_client "slow_refund" "Slow Refund") fresh_world)).
Proof.
  apply (promotion_threshold_per_day [refund_day 100; refund_day 101]).
  intros d Hd.
  apply elem_of_cons in Hd as [->|Hd]; [by vm_compute|].
  apply elem_of_cons in Hd as [->|Hd]; [by vm_compute|].
  by apply elem_of_nil in Hd.
Defined.

Lemma unmapped_count_below_threshold_witness :
  ∃ batch,
    field "total_reviews" batch = Some (JInt 3)
    ∧ field "unmapped_count" batch
      = Some (JInt (len (List.filter
                           (λ q, occurrences q (day_phrases (refund_day 100))
                                 <? MIN_TOPIC_OCCURRENCES)
                           (remove_dups (day_phrases (refund_day 100)))))).
Proof.
  edestruct (unmapped_count_below_threshold
               (day_extraction_results (refund_day 100))
               (day_mappings (refund_day 100)) "app" 100
               (day_reviews (refund_day 100)) silent_client fresh_world)
    as (Hcount & _).
  - vm_compute. reflexivity.
  - eexists. split; [|exact Hcount]. reflexivity.
Defined.
(** ** More on the taxonomy, the window and the batches *)

Lemma date_parse_iso_date day : date (parse_iso_date day) = day.
Proof. unfold date, parse_iso_date, SECONDS_PER_DAY. by apply Z.div_mul. Qed.


(** X7. The window ends at midnight, so comparing days and comparing time
    stamps agree on whether newer reviews are needed. *)
Lemma newer_reviews_needed_iff (store : DataFrame) target_date :
  let end_date := snd (get_trend_date_range target_date) in
  date (at_max store) < date end_date ↔ at_max store < end_date.
Proof.
  simpl. rewrite date_parse_iso_date.
  unfold date, parse_iso_date, SECONDS_PER_DAY. split; intros Hlt.
  - destruct (Z.lt_ge_cases (at_max store) (target_date * 86400)); [done|].
    assert (target_date ≤ at_max store / 86400); [|lia].
    apply Z.div_le_lower_bound; lia.
  - apply Z.div_lt_upper_bound; lia.
Qed.

(** Slicing into batches loses no element and keeps the order. *)
Lemma chunks_concat {A} (n : nat) (l : list A) :
  (0 < n)%nat → concat (chunks n l) = l.
Proof.
  intros Hn. unfold chunks.
  assert (Hgen : ∀ fuel (l : list A),
            (length l ≤ fuel)%nat → concat (chunks_fuel fuel n l) = l).
  { induction fuel as [|fuel IH]; intros l' Hlen; simpl.
    - destruct l'; [done | simpl in Hlen; lia].
    - destruct l' as [|x l']; [done|].
      simpl concat. rewrite IH.
      + apply firstn_skipn.
      + rewrite length_skipn. simpl in *. lia. }
  by apply Hgen.
Qed.


(** * More properties of the code *)

(** ** Fetching *)

Lemma scan_page_between result reference_date cutoff_date acc :
  between cutoff_date reference_date acc →
  between cutoff_date reference_date
    (fst (scan_page result reference_date cutoff_date acc)).
Proof.
  revert acc. induction result as [|r result IH]; simpl; intros acc Hacc; [done|].
  destruct (Z.ltb_spec (at_ r) cutoff_date); [done|].
  apply IH. destruct (Z.leb_spec (at_ r) reference_date); [|done].
  apply Forall_app. split; [done|]. by repeat constructor.
Qed.

Lemma scan_page_sub result reference_date cutoff_date acc r :
  r ∈ fst (scan_page result reference_date cutoff_date acc) →
  r ∈ acc ∨ r ∈ result.
Proof.
  revert acc. induction result as [|x result IH]; simpl; intros acc Hr; [by left|].
  destruct (at_ x <? cutoff_date); [by left|].
  apply IH in Hr as [Hr|Hr]; [|right; by right].
  destruct (at_ x <=? reference_date); [|by left].
  apply elem_of_app in Hr as [Hr|Hr]; [by left|].
  apply list_elem_of_singleton in Hr as ->. right. left.
Qed.

Lemma fetch_pages_between replies reference_date cutoff_date acc :
  between cutoff_date reference_date acc →
  between cutoff_date reference_date
    (fetch_pages replies reference_date cutoff_date acc).
Proof.
  revert acc. induction replies as [|reply replies IH]; simpl; intros acc Hacc;
    [done|].
  destruct reply as [|result token]; [done|].
  destruct result as [|r result]; [done|].
  pose proof (scan_page_between (r :: result) reference_date cutoff_date acc Hacc)
    as Hscan.
  destruct (scan_page (r :: result) reference_date cutoff_date acc)
    as [acc' crossed].
  destruct crossed; [done|]. destruct token; [by apply IH | done].
Qed.

Lemma fetch_pages_sub replies reference_date cutoff_date acc r :
  r ∈ fetch_pages replies reference_date cutoff_date acc →
  r ∈ acc ∨ r ∈ feed_rows replies.
Proof.
  revert acc. induction replies as [|reply replies IH]; simpl; intros acc Hr;
    [by left|].
  destruct reply as [|result token]; [by left|].
  destruct result as [|x result]; [by left|].
  pose proof (scan_page_sub (x :: result) reference_date cutoff_date acc r)
    as Hscan.
  unfold feed_rows. simpl. fold (feed_rows replies).
  destruct (scan_page (x :: result) reference_date cutoff_date acc)
    as [acc' crossed].
  simpl in Hscan.
  assert (Hacc' : r ∈ acc' → r ∈ acc ∨ r ∈ x :: result ++ feed_rows replies).
  { intros Hin. destruct (Hscan Hin) as [?|Hx]; [by left|]. right.
    apply elem_of_cons in Hx as [->|Hx]; [left|].
    right. apply elem_of_app. by left. }
  destruct crossed; [by apply Hacc'|].
  destruct token; [|by apply Hacc'].
  apply IH in Hr as [Hr|Hr]; [by apply Hacc'|].
  right. right. apply elem_of_app. by right.
Qed.

Lemma _convert_to_dataframe_perm reviews_list :
  _convert_to_dataframe reviews_list ≡ₚ reviews_list.
Proof.
  unfold _convert_to_dataframe. destruct reviews_list; [done|].
  apply sort_values_desc_perm.
Qed.

Lemma _convert_to_dataframe_sorted reviews_list :
  sorted_desc (_convert_to_dataframe reviews_list).
Proof.
  unfold _convert_to_dataframe. destruct reviews_list; [constructor|].
  apply sort_values_desc_sorted.
Qed.

Lemma fetched_between replies reference_date cutoff_date :
  between cutoff_date reference_date
    (_convert_to_dataframe (fetch_pages replies reference_date cutoff_date [])).
Proof.
  unfold between. rewrite _convert_to_dataframe_perm.
  apply fetch_pages_between. constructor.
Qed.

(** X1. A fetch returns rows of the feed whose time stamp lies between the
    cutoff and the reference, newest first; it logs the call and touches
    nothing else. *)
Theorem fetch_reviews_by_date_range_bounds (app_id : string)
    (reference_date cutoff_date : Z) (w : world) :
  ∃ df,
    fetch_reviews_by_date_range app_id reference_date cutoff_date w
    = Ok df (log_fetch_call {| fc_app_id := app_id;
                               fc_reference_date := reference_date;
                               fc_cutoff_date := cutoff_date |} w)
    ∧ between cutoff_date reference_date df
    ∧ sorted_desc df
    ∧ ∀ r, r ∈ df → r ∈ feed_rows (play_store w app_id).
Proof.
  eexists. split; [reflexivity|]. split; [|split].
  - apply fetched_between.
  - apply _convert_to_dataframe_sorted.
  - intros r Hr. rewrite _convert_to_dataframe_perm in Hr.
    by apply fetch_pages_sub in Hr as [?%elem_of_nil|?].
Qed.

Lemma scan_page_crosses before old rest reference_date cutoff_date acc :
  Forall (λ r, cutoff_date ≤ at_ r) before →
  at_ old < cutoff_date →
  scan_page (before ++ old :: rest) reference_date cutoff_date acc
  = (acc ++ List.filter (λ r, at_ r <=? reference_date) before, true).
Proof.
  intros Hbefore Hold. revert acc.
  induction Hbefore as [|r before Hr _ IH]; simpl; intros acc.
  - destruct (Z.ltb_spec (at_ old) cutoff_date); [|lia]. by rewrite app_nil_r.
  - destruct (Z.ltb_spec (at_ r) cutoff_date); [lia|].
    rewrite IH. destruct (at_ r <=? reference_date); [|done].
    by rewrite <- app_assoc.
Qed.

(** X2. A fetch stops at the first row older than the cutoff: the rest of that
    page and the pages after it have no part in what it returns. *)
Theorem fetch_stops_at_cutoff (app_id : string) (reference_date cutoff_date : Z)
    (w : world) (before rest : DataFrame) (old : review)
    (token : option string) (more : list page_reply) :
  play_store w app_id = Page (before ++ old :: rest) token :: more →
  Forall (λ r, cutoff_date ≤ at_ r) before →
  at_ old < cutoff_date →
  on_success (fetch_reviews_by_date_range app_id reference_date cutoff_date w)
    (λ df _,
       df = _convert_to_dataframe
              (List.filter (λ r, at_ r <=? reference_date) before)).
Proof.
  intros Hfeed Hbefore Hold. unfold fetch_reviews_by_date_range. simpl.
  rewrite Hfeed. simpl.
  destruct (before ++ old :: rest) as [|x l] eqn:Hpage.
  { by destruct before. }
  rewrite <- Hpage. by rewrite scan_page_crosses.
Qed.

Lemma fetch_stops_at_cutoff_witness :
  on_success
    (fetch_reviews_by_date_range "app" (19906 * SECONDS_PER_DAY)
       (19904 * SECONDS_PER_DAY) june_world)
    (λ df _,
       df = [sample_review "x01" (19905 * SECONDS_PER_DAY + 3600) "app crash";
             sample_review "j30" (19904 * SECONDS_PER_DAY) "late again, edited"]).
Proof.
  pose proof (fetch_stops_at_cutoff "app" (19906 * SECONDS_PER_DAY)
                (19904 * SECONDS_PER_DAY) june_world
                [sample_review "x03" (19907 * SECONDS_PER_DAY) "too new";
                 sample_review "x01" (19905 * SECONDS_PER_DAY + 3600) "app crash";
                 sample_review "j30" (19904 * SECONDS_PER_DAY) "late again, edited"]
                []
                (sample_review "j29" (19903 * SECONDS_PER_DAY) "too old")
                (Some "next") []) as Hstop.
  destruct (fetch_reviews_by_date_range "app" (19906 * SECONDS_PER_DAY)
              (19904 * SECONDS_PER_DAY) june_world) as [df w'|e w'].
  - simpl in *. rewrite Hstop.
    + reflexivity.
    + reflexivity.
    + repeat constructor; by vm_compute.
    + by vm_compute.
  - simpl in *. apply Hstop.
    + reflexivity.
    + repeat constructor; by vm_compute.
    + by vm_compute.
Defined.

(** ** The scrape cache, whatever the store *)

Lemma smart_scrape_without_store app_id target_date w :
  store_of w app_id = [] →
  smart_scrape app_id target_date w
  = (let '(start_date, end_date) := get_trend_date_range target_date in
     all_reviews <- fetch_reviews_by_date_range app_id end_date start_date ;;
     save_reviews_csv app_id all_reviews ;;;
     ret all_reviews) w.
Proof.
  unfold store_of. intros Hnone.
  unfold smart_scrape, get_trend_date_range, bind at 1, reviews_csv_exists.
  destruct (reviews_csv w !! app_id) as [store|] eqn:Hstore.
  - simpl in Hnone. subst store.
    rewrite bool_decide_eq_true_2; [|by eexists]. simpl.
    unfold bind at 1, load_reviews_csv. by rewrite Hstore.
  - rewrite bool_decide_eq_false_2; [done|]. by intros [? ?].
Qed.

Lemma smart_scrape_with_store app_id target_date w :
  store_of w app_id ≠ [] →
  let store := store_of w app_id in
  let start_date := fst (get_trend_date_range target_date) in
  let end_date := snd (get_trend_date_range target_date) in
  smart_scrape app_id target_date w
  = (if (date (at_min store) <=? date start_date)
        && (date end_date <=? date (at_max store))
     then ret (filter_by_date_range store start_date end_date)
     else if date (at_max store) <? date end_date then
       new_reviews <-
         fetch_reviews_by_date_range app_id end_date (at_max store) ;;
       save_reviews_csv app_id (merge store new_reviews) ;;;
       ret (filter_by_date_range (merge store new_reviews) start_date end_date)
     else ret (filter_by_date_range store start_date end_date)) w.
Proof.
  unfold store_of. intros Hne.
  unfold smart_scrape, get_trend_date_range, bind at 1, reviews_csv_exists.
  destruct (reviews_csv w !! app_id) as [store|] eqn:Hstore; [|done].
  simpl in Hne. rewrite bool_decide_eq_true_2; [|by eexists]. simpl.
  unfold bind at 1, load_reviews_csv. rewrite Hstore. simpl.
  destruct store as [|r store]; [done|].
  set (df := r :: store). change (is_empty df) with false. cbv beta iota.
  destruct ((date (at_min df) <=? _) && _); [reflexivity|].
  destruct (date (at_max df) <? _); [reflexivity|].
  by destruct (_ <? date (at_min df)).
Qed.

(** X3. Without a store, or with an empty one, [smart_scrape] fetches the
    whole window once, with the start of the window as cutoff, saves the
    rows as the store and returns them. *)
Theorem smart_scrape_first_fetch (app_id : string) (target_date : Z)
    (w : world) :
  store_of w app_id = [] →
  let start_date := fst (get_trend_date_range target_date) in
  let end_date := snd (get_trend_date_range target_date) in
  let the_call := {| fc_app_id := app_id; fc_reference_date := end_date;
                     fc_cutoff_date := start_date |} in
  ∃ fetched,
    fetch_reviews_by_date_range app_id end_date start_date w
    = Ok fetched (log_fetch_call the_call w)
    ∧ smart_scrape app_id target_date w
      = Ok fetched
           (set_reviews_csv (insert app_id fetched) (log_fetch_call the_call w)).
Proof.
  intros Hnone. rewrite smart_scrape_without_store by done.
  eexists. split; reflexivity.
Qed.

Lemma smart_scrape_first_fetch_witness :
  ∃ fetched,
    smart_scrape "app" 100 fresh_world
    = Ok fetched
         (set_reviews_csv (insert "app" fetched)
            (log_fetch_call {| fc_app_id := "app";
                               fc_reference_date := 100 * SECONDS_PER_DAY;
                               fc_cutoff_date := 99 * SECONDS_PER_DAY |}
                            fresh_world)).
Proof.
  destruct (smart_scrape_first_fetch "app" 100 fresh_world) as (fetched & _ & Hrun).
  - reflexivity.
  - exists fetched. exact Hrun.
Defined.





Lemma ids_merge_existing existing incoming id :
  id ∈ ids existing → id ∈ ids (merge existing incoming).
Proof.
  intros Hid. rewrite ids_merge_perm, ids_drop_duplicates_last.
  unfold ids. rewrite map_app, elem_of_app. by left.
Qed.

(** X5. [smart_scrape] never drops a stored review id, and leaves the stores
    of other apps alone. *)
Theorem smart_scrape_keeps_ids (app_id : string) (target_date : Z) (w : world) :
  let w' := final_world (smart_scrape app_id target_date w) in
  (∀ id, id ∈ ids (store_of w app_id) → id ∈ ids (store_of w' app_id))
  ∧ ∀ other, other ≠ app_id → reviews_csv w' !! other = reviews_csv w !! other.
Proof.
  destruct (decide (store_of w app_id = [])) as [Hnone|Hstore].
  - rewrite smart_scrape_without_store by done. simpl. split.
    + rewrite Hnone. by intros id ?%elem_of_nil.
    + intros other Hother. by rewrite lookup_insert_ne.
  - rewrite smart_scrape_with_store by done.
    repeat match goal with |- context [if ?b then _ else _] => destruct b end;
      simpl; (split; [|intros other Hother; by rewrite ?lookup_insert_ne]);
      try done.
    intros id Hid. unfold store_of at 1. simpl. rewrite lookup_insert_eq. simpl.
    by apply ids_merge_existing.
Qed.

(** ** Dates *)



(** ** The stored taxonomy *)

Lemma seed_ids_distinct app_id clock :
  distinct_ids
    (map topic_id (topics (get_seed_topics_as_taxonomy app_id clock))).
Proof.
  unfold distinct_ids, get_seed_topics_as_taxonomy. simpl.
  repeat (apply NoDup_cons; split;
          [intros Hin; repeat (apply elem_of_cons in Hin as [Hin|Hin];
                               [discriminate Hin|]);
           by apply elem_of_nil in Hin|]).
  apply NoDup_nil_2.
Qed.

(** X10. The first access to the taxonomy of an app creates it from the ten
    seed topics, all marked as seeds and not app-specific, with distinct
    ids, and saves it; loading again returns the same taxonomy and changes
    nothing. *)
Theorem load_app_taxonomy_seeds (app_id : string) (w : world) :
  taxonomy_json w !! app_id = None →
  ∃ tx w',
    load_app_taxonomy app_id w = Ok tx w'
    ∧ taxonomy_json w' !! app_id = Some tx
    ∧ length (topics tx) = 10%nat
    ∧ Forall (λ t, is_seed t = true ∧ app_specific t = false) (topics tx)
    ∧ distinct_ids (map topic_id (topics tx))
    ∧ NoDup (map topic_id (topics tx))
    ∧ load_app_taxonomy app_id w' = Ok tx w'.
Proof.
  intros Habsent. unfold load_app_taxonomy at 1. rewrite Habsent.
  eexists _, _. split; [reflexivity|]. simpl.
  split; [by rewrite lookup_insert_eq|]. split; [done|].
  split; [by repeat constructor|].
  split; [exact (seed_ids_distinct app_id (now w))|].
  split.
  { apply (NoDup_fmap_1 atom_class). exact (seed_ids_distinct app_id (now w)). }
  unfold load_app_taxonomy. simpl. by rewrite lookup_insert_eq.
Qed.

Lemma load_app_taxonomy_seeds_witness :
  ∃ tx w', load_app_taxonomy "app" fresh_world = Ok tx w'
           ∧ length (topics tx) = 10%nat.
Proof.
  destruct (load_app_taxonomy_seeds "app" fresh_world)
    as (tx & w' & Hload & _ & Hlen & _).
  - reflexivity.
  - by exists tx, w'.
Defined.

Lemma add_topics_after_load app_id new_topics w tx w1 :
  load_app_taxonomy app_id w = Ok tx w1 →
  add_topics_to_taxonomy app_id new_topics w
  = add_topics_to_taxonomy app_id new_topics w1.
Proof.
  intros Hload.
  destruct (load_app_taxonomy_stored app_id w)
    as (tx' & w1' & Hload' & _ & Hagain & _).
  rewrite Hload in Hload'. injection Hload' as <- <-.
  unfold add_topics_to_taxonomy, bind. by rewrite Hload, Hagain.
Qed.

Lemma add_topics_to_taxonomy_result app_id new_topics w :
  ∃ tx w1,
    load_app_taxonomy app_id w = Ok tx w1
    ∧ taxonomy_json w1 !! app_id = Some tx
    ∧ add_topics_to_taxonomy app_id new_topics w
      = Ok tt
          (set_taxonomy_json
             (insert app_id
                (with_last_updated (now w1)
                   (with_topics
                      (topics tx
                       ++ List.filter
                            (λ t, negb (set_mem (topic_id t)
                                                (map topic_id (topics tx))))
                            new_topics)
                      tx)))
             w1).
Proof.
  destruct (load_app_taxonomy_stored app_id w)
    as (tx & w1 & Hload & Hstored & _).
  exists tx, w1. rewrite (add_topics_after_load _ _ _ _ _ Hload).
  by rewrite (add_topics_to_taxonomy_saves _ _ _ _ Hstored).
Qed.

Lemma candidate_ids_stored (tx : taxonomy) (new_topics : list topic) t :
  t ∈ new_topics →
  set_mem (topic_id t)
    (map topic_id
       (topics tx
        ++ List.filter
             (λ t, negb (set_mem (topic_id t) (map topic_id (topics tx))))
             new_topics))
  = true.
Proof.
  intros Ht. apply set_mem_spec. rewrite !map_app, elem_of_app.
  destruct (set_mem (topic_id t) (map topic_id (topics tx))) eqn:Hmem.
  - left. by apply set_mem_spec.
  - right. apply list_elem_of_fmap_2, list_elem_of_fmap_2.
    apply list_elem_of_In, filter_In.
    split; [by apply list_elem_of_In|]. by rewrite Hmem.
Qed.

(** X11. [add_topics_to_taxonomy] only appends: the topics stored before the
    call are the first topics stored after it, unchanged and in order;
    what follows them are candidates; and every candidate's id is among
    the ids stored after the call. *)
Theorem add_topics_appends (app_id : string) (new_topics : list topic)
    (w : world) :
  ∃ tx w1 tx' w',
    load_app_taxonomy app_id w = Ok tx w1
    ∧ add_topics_to_taxonomy app_id new_topics w = Ok tt w'
    ∧ taxonomy_json w' !! app_id = Some tx'
    ∧ (∃ added, topics tx' = topics tx ++ added
                ∧ ∀ t, t ∈ added → t ∈ new_topics)
    ∧ ∀ t, t ∈ new_topics →
           set_mem (topic_id t) (map topic_id (topics tx')) = true.
Proof.
  destruct (add_topics_to_taxonomy_result app_id new_topics w)
    as (tx & w1 & Hload & Hstored & Hadd).
  exists tx, w1. eexists _, _. split; [done|]. split; [exact Hadd|]. simpl.
  split; [by rewrite lookup_insert_eq|]. simpl. split.
  - eexists. split; [reflexivity|].
    intros t Ht. by apply list_elem_of_In, filter_In in Ht as [?%list_elem_of_In _].
  - apply candidate_ids_stored.
Qed.

(** X12. Adding the same candidates a second time changes no topic. *)
Theorem add_topics_twice (app_id : string) (new_topics : list topic)
    (w : world) :
  on_success (add_topics_to_taxonomy app_id new_topics w)
    (λ _ w1,
       on_success (add_topics_to_taxonomy app_id new_topics w1)
         (λ _ w2,
            topics <$> (taxonomy_json w2 !! app_id)
            = topics <$> (taxonomy_json w1 !! app_id))).
Proof.
  destruct (add_topics_to_taxonomy_result app_id new_topics w)
    as (tx & w0 & _ & _ & Hadd).
  rewrite Hadd.
  match goal with |- on_success (Ok tt ?w1) _ => remember w1 as w1' eqn:Hw1 end.
  cbn [on_success].
  assert (Hstored : taxonomy_json w1' !! app_id
                    = Some (with_last_updated (now w0)
                              (with_topics
                                 (topics tx
                                  ++ List.filter
                                       (λ t, negb (set_mem (topic_id t)
                                                     (map topic_id (topics tx))))
                                       new_topics)
                                 tx))).
  { subst w1'. simpl. by rewrite lookup_insert_eq. }
  pose proof (add_topics_existing_skipped app_id new_topics w1' _ Hstored)
    as Hskip.
  rewrite Hstored. apply Hskip. apply Forall_forall.
  intros t Ht. by apply candidate_ids_stored.
Qed.

Lemma add_topics_distinct_candidates_witness :
  on_success
    (add_topics_to_taxonomy "app" [login_failure]
       (final_world (load_app_taxonomy "app" fresh_world)))
    (λ _ w', ∃ ids, saved_topic_ids w' "app" = Some ids ∧ distinct_ids ids).
Proof.
  apply (add_topics_distinct_candidates "app" [login_failure] _
           (get_seed_topics_as_taxonomy "app" 0)).
  - reflexivity.
  - apply seed_ids_distinct.
  - apply NoDup_singleton.
Defined.
(** ** What the consolidator writes *)



(** ** What the consolidator discovers *)

(** X15. [consolidate_and_discover] only appends to the taxonomy: the topics
    stored before stay first, unchanged and in order, and each topic after
    them is app-specific, not a seed, dated with the day of the batch, has
    an id that was not among the stored ids, and was built from a phrase at
    or above the threshold whose validation call of this run the model
    answered with an acceptance. *)
Theorem consolidate_grows_taxonomy (ers : list json) (mappings : pydict json)
    (app_id : string) (date_str : Z) (df : DataFrame)
    (groq_client : GroqClient) (w w' : world) (batch : json) :
  consolidate_and_discover ers mappings app_id date_str df groq_client w
    = Ok batch w' →
  ∃ tx w0 tx' added,
    load_app_taxonomy app_id w = Ok tx w0
    ∧ taxonomy_json w' !! app_id = Some tx'
    ∧ topics tx' = topics tx ++ added
    ∧ Forall
        (λ t, is_seed t = false ∧ app_specific t = true
              ∧ added_date t = date_str
              ∧ set_mem (topic_id t) (map topic_id (topics tx)) = false
              ∧ ∃ q, variations t = [q]
                     ∧ MIN_TOPIC_OCCURRENCES
                       ≤ occurrences q (unmapped_phrases mappings ers)
                     ∧ accepted_in groq_client (llm_calls w) (llm_calls w') q)
        added.
Proof.
  intros Hrun. apply consolidate_and_discover_trace in Hrun
    as (counted & promoted & tx & w0 & w1 & detailed & processed_at & Hcount
        & Hload & Hdisc & _ & Hstored & Hw' & _).
  assert (Hlog : llm_calls w' = llm_calls w1).
  { rewrite Hw'. simpl.
    by destruct (with_discovered_files app_id tx (new_topics_to_add promoted) w1)
      as (_ & _ & _ & _ & ->). }
  rewrite Hlog. exists tx, w0.
  destruct (discover_new_topics_Ok _ _ _ _ _ _ _ _ Hdisc)
    as (_ & _ & _ & _ & Hfrom & _).
  rewrite Hw'. simpl. unfold with_discovered.
  destruct (is_empty (new_topics_to_add promoted)).
  { exists tx, []. rewrite app_nil_r. by repeat split. }
  eexists _, _. split; [done|]. simpl.
  split; [by rewrite lookup_insert_eq|]. split; [reflexivity|].
  apply Forall_forall. intros t Ht.
  apply list_elem_of_In, filter_In in Ht as [Ht%list_elem_of_In Hfresh].
  apply negb_true_iff in Hfresh.
  rewrite Forall_forall in Hfrom.
  destruct (Hfrom t Ht) as (? & ? & ? & ?). by repeat split.
Qed.

Lemma consolidate_grows_taxonomy_witness :
  ∃ tx', taxonomy_json
           (final_world
              (consolidate_and_discover freeze_extractions freeze_mappings "app"
                 freeze_day freeze_reviews
                 (accepting_client "app_freeze" "App Freeze") fresh_world))
         !! "app" = Some tx'
         ∧ ∃ added, topics tx'
                    = topics (get_seed_topics_as_taxonomy "app" 0) ++ added.
Proof.
  edestruct (consolidate_grows_taxonomy freeze_extractions freeze_mappings "app"
               freeze_day freeze_reviews
               (accepting_client "app_freeze" "App Freeze") fresh_world)
    as (tx & w0 & tx' & added & Hload & Hstored & Htopics & _).
  - vm_compute. reflexivity.
  - exists tx'. split; [exact Hstored|]. exists added.
    injection Hload as <- _. exact Htopics.
Defined.

(** X16. When no validation call of the run is answered with an acceptance
    (the model rejects, answers [null], or its calls fail), the day
    discovers nothing: [new_topics_discovered] is empty,
    [topic_frequencies] holds the mapped counts alone, and the taxonomy is
    the one loaded at the start. *)
Theorem nothing_discovered_without_acceptance (ers : list json)
    (mappings : pydict json) (app_id : string) (date_str : Z) (df : DataFrame)
    (groq_client : GroqClient) (w w' : world) (batch : json) :
  consolidate_and_discover ers mappings app_id date_str df groq_client w
    = Ok batch w' →
  (∀ p, rejected_in groq_client (llm_calls w) (llm_calls w') p) →
  field "new_topics_discovered" batch = Some (JArr [])
  ∧ (∃ counted,
       count_reviews (build_reviews_lookup df) mappings ers = Val counted
       ∧ field "topic_frequencies" batch
         = Some (frequencies_json (topic_counts counted)))
  ∧ ∃ tx w0, load_app_taxonomy app_id w = Ok tx w0
             ∧ taxonomy_json w' = taxonomy_json w0.
Proof.
  intros Hrun Hnone.
  apply consolidate_and_discover_trace in Hrun
    as (counted & promoted & tx & w0 & w1 & detailed & processed_at & Hcount
        & Hload & Hdisc & [calls Hw1] & _ & Hw' & ->).
  assert (Hlog : llm_calls w' = llm_calls w1).
  { rewrite Hw'. simpl.
    by destruct (with_discovered_files app_id tx (new_topics_to_add promoted) w1)
      as (_ & _ & _ & _ & ->). }
  rewrite Hlog in Hnone.
  destruct (discover_new_topics_Ok _ _ _ _ _ _ _ _ Hdisc)
    as (_ & _ & _ & _ & Hfrom & _ & Hcounts).
  assert (Hnil : new_topics_to_add promoted = []).
  { destruct (new_topics_to_add promoted) as [|t l]; [done|].
    apply Forall_cons in Hfrom
      as [(_ & _ & _ & q & _ & _ & reply & Hval & Hacc) _].
    by destruct (Hnone q reply). }
  rewrite Hnil in *. simpl in Hcounts. rewrite Hcounts.
  split; [done|]. split; [by exists counted|].
  exists tx, w0. split; [done|]. rewrite Hw'. unfold with_discovered. simpl.
  rewrite Hw1. by destruct (log_llm_calls_files calls w0) as (-> & _).
Qed.

Lemma nothing_discovered_without_acceptance_witness :
  ∃ batch,
    field "new_topics_discovered" batch = Some (JArr [])
    ∧ field "total_reviews" batch = Some (JInt 5).
Proof.
  edestruct (nothing_discovered_without_acceptance freeze_extractions
               freeze_mappings "app" freeze_day freeze_reviews
               (λ _ _, Some JNull) fresh_world) as (Hnew & _).
  - vm_compute. reflexivity.
  - intros p reply (earlier & names & later & _ & ->)
      (v & b & [= <-] & Hb & _). discriminate Hb.
  - eexists. split; [exact Hnew|]. reflexivity.
Defined.

(** ** Counting once *)

(** X17. When the counting loop completes, every extracted phrase of the day
    was counted once, under its mapped topic or as unmapped; and the count
    of each mapped topic is the number of reviews attached to it. *)
Theorem count_reviews_counts_once (reviews_lookup : pydict (pydict json))
    (mappings : pydict json) (ers : list json) (counted : tally) :
  count_reviews reviews_lookup mappings ers = Val counted →
  sum_values (topic_counts counted) + len (unmapped_topics counted)
  = len (concat (map extracted_phrases ers))
  ∧ ∀ id, kget0 id (topic_counts counted)
          = len (default [] (kdict_get id (reviews_by_topic counted))).
Proof.
  unfold count_reviews. intros Hrun.
  destruct (count_reviews_tallied _ _ _ _ _ Hrun) as [Htotal Hmatch].
  split; [exact Htotal|]. by apply Hmatch.
Qed.

Lemma count_reviews_counts_once_witness :
  ∃ counted,
    count_reviews (build_reviews_lookup (crash_reviews ++ freeze_reviews))
      (numbered_mappings ++ freeze_mappings)
      (crash_extractions ++ freeze_extractions) = Val counted
    ∧ topic_counts counted = [(AInt 7, 2)]
    ∧ sum_values (topic_counts counted) + len (unmapped_topics counted) = 7.
Proof.
  eexists. split; [vm_compute; reflexivity|]. split; [reflexivity|].
  match goal with
  | |- sum_values (topic_counts ?c) + _ = _ =>
      destruct (count_reviews_counts_once
                  (build_reviews_lookup (crash_reviews ++ freeze_reviews))
                  (numbered_mappings ++ freeze_mappings)
                  (crash_extractions ++ freeze_extractions) c) as [Htotal _];
      [vm_compute; reflexivity | rewrite Htotal; reflexivity]
  end.
Defined.
(** ** Topic ids *)

Lemma string_forall_impl (f g : ascii → bool) s :
  (∀ c, f c = true → g c = true) →
  string_forall f s = true → string_forall g s = true.
Proof.
  intros Hfg. induction s as [|c s IH]; simpl; [done|].
  intros [Hc Hs]%andb_true_iff. apply andb_true_iff. auto.
Qed.

Lemma remove_special_chars s :
  string_forall (λ c, islower c || isdigit c || isspace c) (remove_special s)
  = true.
Proof.
  induction s as [|c s IH]; simpl; [done|].
  destruct (islower c || isdigit c || isspace c) eqn:Hc; simpl; [|done].
  by rewrite Hc.
Qed.

Lemma lstrip_forall f s :
  string_forall f s = true → string_forall f (lstrip s) = true.
Proof.
  induction s as [|c s IH]; simpl; [done|].
  intros [Hc Hs]%andb_true_iff. destruct (isspace c); [by apply IH|].
  simpl. by rewrite Hc, Hs.
Qed.

Lemma rstrip_forall f s :
  string_forall f s = true → string_forall f (rstrip s) = true.
Proof.
  induction s as [|c s IH]; simpl; [done|].
  intros [Hc Hs]%andb_true_iff. specialize (IH Hs).
  destruct (rstrip s) as [|c' r].
  - destruct (isspace c); simpl; [done | by rewrite Hc].
  - simpl in *. by rewrite Hc, IH.
Qed.

Lemma rstrip_underscore_forall f s :
  string_forall f s = true → string_forall f (rstrip_underscore s) = true.
Proof.
  induction s as [|c s IH]; simpl; [done|].
  intros [Hc Hs]%andb_true_iff. specialize (IH Hs).
  destruct (rstrip_underscore s) as [|c' r].
  - destruct (Ascii.eqb c "_"); simpl; [done | by rewrite Hc].
  - simpl in *. by rewrite Hc, IH.
Qed.

Lemma rstrip_underscore_length s :
  (String.length (rstrip_underscore s) ≤ String.length s)%nat.
Proof.
  induction s as [|c s IH]; simpl; [done|].
  destruct (rstrip_underscore s) as [|c' r].
  - destruct (Ascii.eqb c "_"); simpl; lia.
  - simpl in *. lia.
Qed.

Lemma substring_forall f n m s :
  string_forall f s = true → string_forall f (substring n m s) = true.
Proof.
  revert n m. induction s as [|c s IH]; intros n m; simpl.
  - by destruct n, m.
  - intros [Hc Hs]%andb_true_iff. destruct n as [|n].
    + destruct m as [|m]; simpl; [done|]. by rewrite Hc, IH.
    + by apply IH.
Qed.

Lemma substring_length n m s : (String.length (substring n m s) ≤ m)%nat.
Proof.
  revert n m. induction s as [|c s IH]; intros n m; simpl.
  - destruct n, m; simpl; lia.
  - destruct n as [|n].
    + destruct m as [|m]; simpl; [lia|]. specialize (IH 0%nat m). lia.
    + apply IH.
Qed.

Lemma spaces_to_underscore_chars in_run s :
  string_forall (λ c, islower c || isdigit c || isspace c) s = true →
  string_forall is_slug_char (spaces_to_underscore in_run s) = true.
Proof.
  revert in_run. induction s as [|c s IH]; intros in_run; simpl; [done|].
  intros [Hc Hs]%andb_true_iff. destruct (isspace c) eqn:Hspace.
  - destruct in_run; simpl; by apply IH.
  - simpl. rewrite IH by done. unfold is_slug_char.
    rewrite orb_false_r in Hc. by rewrite Hc.
Qed.

Lemma lower_char_idemp c : lower_char (lower_char c) = lower_char c.
Proof. destruct c as [[] [] [] [] [] [] [] []]; reflexivity. Qed.

Lemma lower_idemp s : lower (lower s) = lower s.
Proof.
  induction s as [|c s IH]; simpl; [done|]. by rewrite lower_char_idemp, IH.
Qed.

(** X18. A generated topic id consists of lowercase letters, digits and
    underscores, is at most 30 characters long, and does not depend on the
    case of the name it is generated from. *)
Theorem generate_topic_id_slug (topic_name : string) :
  string_forall is_slug_char (generate_topic_id topic_name) = true
  ∧ (String.length (generate_topic_id topic_name) ≤ 30)%nat
  ∧ generate_topic_id (lower topic_name) = generate_topic_id topic_name.
Proof.
  split; [|split].
  - unfold generate_topic_id.
    assert (Hslug : string_forall is_slug_char
                      (spaces_to_underscore false
                         (strip (remove_special (lower topic_name)))) = true).
    { apply spaces_to_underscore_chars, lstrip_forall, rstrip_forall,
        remove_special_chars. }
    destruct (Nat.ltb _ _); [|done].
    by apply rstrip_underscore_forall, substring_forall.
  - unfold generate_topic_id.
    destruct (Nat.ltb_spec 30
                (String.length
                   (spaces_to_underscore false
                      (strip (remove_special (lower topic_name))))));
      [|lia].
    etransitivity; [apply rstrip_underscore_length | apply substring_length].
  - unfold generate_topic_id. by rewrite lower_idemp.
Qed.

(** ** The frequency summary *)

Lemma insert_by_count_perm item l : insert_by_count item l ≡ₚ item :: l.
Proof.
  induction l as [|x l IH]; simpl; [done|].
  destruct (snd x <=? snd item); [done|].
  rewrite IH. apply Permutation_swap.
Qed.

Lemma sorted_by_count_perm l : sorted_by_count l ≡ₚ l.
Proof.
  induction l as [|x l IH]; simpl; [done|].
  by rewrite insert_by_count_perm, IH.
Qed.

Lemma insert_by_count_sorted item l :
  by_count_desc l → by_count_desc (insert_by_count item l).
Proof.
  unfold by_count_desc. induction l as [|x l IH]; simpl; intros Hs.
  - repeat constructor.
  - destruct (Z.leb_spec (snd x) (snd item)) as [Hle|Hgt].
    + constructor; [done|]. by constructor.
    + apply Sorted_inv in Hs as [Hs Hhd]. constructor; [by apply IH|].
      destruct l as [|y l]; simpl.
      * constructor. lia.
      * destruct (Z.leb_spec (snd y) (snd item)); constructor; [lia|].
        by apply HdRel_inv in Hhd.
Qed.

Lemma sorted_by_count_sorted l : by_count_desc (sorted_by_count l).
Proof.
  induction l as [|x l IH]; simpl; [constructor|].
  by apply insert_by_count_sorted.
Qed.

Lemma frequency_items_count_json (c : pydict Z) :
  frequency_items (map (λ '(k, n), (k, JInt n)) c) = Val c.
Proof.
  induction c as [|[k n] c IH]; simpl; [done|]. by rewrite IH.
Qed.

(** X19. The frequency summary of a batch lists the topics of its
    [topic_frequencies] with their counts, each once, the most frequent
    first; a batch without frequencies gives the empty summary. *)
Theorem get_topic_frequency_summary_sorted (fields : pydict json)
    (counts : pydict Z) :
  (dict_get "topic_frequencies" fields = Some (count_json counts) →
   ∃ summary,
     get_topic_frequency_summary (JObj fields) = Val summary
     ∧ summary ≡ₚ counts
     ∧ by_count_desc summary)
  ∧ (dict_get "topic_frequencies" fields = None →
     get_topic_frequency_summary (JObj fields) = Val []).
Proof.
  unfold get_topic_frequency_summary. simpl. unfold get_default. split.
  - intros ->. simpl. rewrite frequency_items_count_json. simpl.
    eexists. split; [reflexivity|].
    split; [apply sorted_by_count_perm | apply sorted_by_count_sorted].
  - by intros ->.
Qed.

Lemma get_topic_frequency_summary_sorted_witness :
  get_topic_frequency_summary
    (JObj [("topic_frequencies",
            count_json [("pricing", 3); ("app_technical", 10)])])
  = Val [("app_technical", 10); ("pricing", 3)].
Proof.
  destruct (get_topic_frequency_summary_sorted
              [("topic_frequencies",
                count_json [("pricing", 3); ("app_technical", 10)])]
              [("pricing", 3); ("app_technical", 10)]) as [Hsome _].
  destruct Hsome as (summary & Hrun & _); [reflexivity|].
  rewrite Hrun. vm_compute in Hrun. by injection Hrun as <-.
Defined.

(** ** Retries *)

(** X20. [send_message] returns the content of the first call that does not
    raise, makes at most three calls, sleeps one second after the first
    failure and two after the second, and after a third failure returns
    [None] without sleeping again. *)
Theorem send_message_retries (api : nat → api_reply) :
  (sent_attempts (send_message api) ≤ MAX_RETRIES)%nat
  ∧ (∀ c, api 0%nat = ApiContent c →
          send_message api
          = {| sent_response := c; sent_attempts := 1; sent_sleeps := [] |})
  ∧ (∀ c, api 0%nat = ApiError → api 1%nat = ApiContent c →
          send_message api
          = {| sent_response := c; sent_attempts := 2; sent_sleeps := [1] |})
  ∧ (∀ c, api 0%nat = ApiError → api 1%nat = ApiError →
          api 2%nat = ApiContent c →
          send_message api
          = {| sent_response := c; sent_attempts := 3;
               sent_sleeps := [1; 2] |})
  ∧ (api 0%nat = ApiError → api 1%nat = ApiError → api 2%nat = ApiError →
     send_message api
     = {| sent_response := None; sent_attempts := 3; sent_sleeps := [1; 2] |}).
Proof.
  unfold send_message, MAX_RETRIES. simpl.
  destruct (api 0%nat) as [|c0] eqn:H0; simpl.
  2:{ split; [lia|]. repeat split; try done. by intros c [= ->]. }
  destruct (api 1%nat) as [|c1] eqn:H1; simpl.
  2:{ split; [lia|]. repeat split; try done. by intros c _ [= ->]. }
  destruct (api 2%nat) as [|c2] eqn:H2; simpl.
  2:{ split; [lia|]. repeat split; try done. by intros c _ _ [= ->]. }
  split; [lia|]. by repeat split.
Qed.

Lemma send_message_retries_witness :
  send_message (λ n, if Nat.eqb n 1 then ApiContent (Some "ok") else ApiError)
  = {| sent_response := Some "ok"; sent_attempts := 2; sent_sleeps := [1] |}.
Proof.
  destruct (send_message_retries
              (λ n, if Nat.eqb n 1 then ApiContent (Some "ok") else ApiError))
    as (_ & _ & Hsecond & _).
  by apply Hsecond.
Defined.

(** ** Batches of model calls *)

Lemma chunks_fuel_sized {A} (n : nat) :
  (0 < n)%nat →
  ∀ fuel (l : list A), Forall (batch_sized n) (chunks_fuel fuel n l).
Proof.
  intros Hn. induction fuel as [|fuel IH]; intros l; simpl; [constructor|].
  destruct l as [|x l]; [constructor|]. constructor; [|apply IH].
  unfold batch_sized. rewrite length_firstn. simpl length.
  destruct n; [lia|]. simpl. lia.
Qed.

Lemma chunks_sized {A} (n : nat) (l : list A) :
  (0 < n)%nat → Forall (batch_sized n) (chunks n l).
Proof. intros Hn. by apply chunks_fuel_sized. Qed.

Lemma extract_topics_from_batch_run reviews groq_client w :
  reviews ≠ [] →
  extract_topics_from_batch reviews groq_client w
  = Ok (match groq_client (llm_calls w) (ExtractionPrompt reviews) with
        | Some (JArr items) => items
        | _ => map empty_extraction reviews
        end)
       (log_llm_call (ExtractionPrompt reviews) w).
Proof.
  intros Hne. unfold extract_topics_from_batch.
  destruct reviews as [|r reviews]; [done|].
  unfold bind, send_message_json. simpl.
  destruct (groq_client _ _) as [[| | | | | | |]|]; reflexivity.
Qed.

Lemma extract_batches_run groq_client batches :
  Forall (λ b : DataFrame, b ≠ []) batches →
  ∀ acc w,
    for_each
      (λ all_results batch,
         batch_results <- extract_topics_from_batch batch groq_client ;;
         ret (all_results ++ batch_results))
      batches acc w
    = Ok (acc ++ collected_replies groq_client (llm_calls w) batches)
         (log_llm_calls (map ExtractionPrompt batches) w).
Proof.
  induction 1 as [|batch batches Hne _ IH]; intros acc w; simpl.
  - by rewrite app_nil_r.
  - unfold bind at 1. unfold bind at 1.
    rewrite extract_topics_from_batch_run by done. simpl.
    rewrite IH. simpl. by rewrite app_assoc.
Qed.

Lemma collected_replies_fails groq_client :
  extraction_fails groq_client →
  ∀ batches history,
    collected_replies groq_client history batches
    = map empty_extraction (concat batches).
Proof.
  intros Hfails. induction batches as [|batch batches IH]; intros history;
    simpl; [done|].
  rewrite IH, map_app. f_equal.
  destruct (groq_client _ _) as [[| | | | |items| |]|] eqn:Hreply; try done.
  by destruct (Hfails _ _ _ Hreply).
Qed.

Lemma batch_sized_nonempty {A} n (batches : list (list A)) :
  Forall (batch_sized n) batches → Forall (λ b, b ≠ []) batches.
Proof.
  intros Hall. eapply Forall_impl; [exact Hall|].
  intros b [Hpos _] ->. simpl in Hpos. lia.
Qed.

Lemma count_extracted_sized r :
  (has_sized_topics r = true → ∃ n, count_extracted r = Val n)
  ∧ (has_sized_topics r = false →
     count_extracted r = Exc AttributeError
     ∨ count_extracted r = Exc TypeError).
Proof.
  unfold count_extracted, has_sized_topics.
  destruct r as [| | | | | |d|d]; simpl;
    try (split; [done | by left]).
  - unfold get_default.
    destruct (dict_get "extractedTopics" d) as [[]|]; simpl;
      (split; [by eauto | by (intros; (done || by right))]).
  - destruct (kdict_get (AStr "extractedTopics") d) as [[]|]; simpl;
      (split; [by eauto | by (intros; (done || by right))]).
Qed.

Lemma pmap_count_extracted results :
  (forallb has_sized_topics results = true →
   ∃ ns, pmap count_extracted results = Val ns)
  ∧ (forallb has_sized_topics results = false →
     pmap count_extracted results = Exc AttributeError
     ∨ pmap count_extracted results = Exc TypeError).
Proof.
  induction results as [|r results [IHok IHbad]]; simpl; [by split; eauto|].
  destruct (count_extracted_sized r) as [Hok Hbad].
  destruct (has_sized_topics r); simpl.
  - destruct (Hok eq_refl) as [n ->]. simpl. split.
    + intros Hall. destruct (IHok Hall) as [ns ->]. simpl. eauto.
    + intros Hall. by destruct (IHbad Hall) as [->| ->]; [left | right].
  - split; [done|]. intros _. by destruct (Hbad eq_refl) as [->| ->]; [left | right].
Qed.

Lemma has_sized_topics_empty (reviews_df : DataFrame) :
  forallb has_sized_topics (map empty_extraction reviews_df) = true.
Proof. by induction reviews_df. Qed.

(** The run of [extract_topics_for_reviews]: the replies of all batches
    are collected first, then their topics are counted. *)
Lemma extract_topics_for_reviews_run (reviews_df : DataFrame)
    (groq_client : GroqClient) (w : world) :
  let batches := chunks BATCH_SIZE reviews_df in
  let all_results := collected_replies groq_client (llm_calls w) batches in
  extract_topics_for_reviews reviews_df groq_client w
  = match pmap count_extracted all_results with
    | Val _ => Ok all_results (log_llm_calls (map ExtractionPrompt batches) w)
    | Exc e => Raise e (log_llm_calls (map ExtractionPrompt batches) w)
    end.
Proof.
  unfold extract_topics_for_reviews.
  destruct reviews_df as [|r reviews_df]; [done|].
  change (is_empty (r :: reviews_df)) with false. cbv iota zeta.
  assert (Hsized : Forall (batch_sized BATCH_SIZE)
                     (chunks BATCH_SIZE (r :: reviews_df)))
    by (apply chunks_sized; unfold BATCH_SIZE; lia).
  unfold bind at 1.
  rewrite (extract_batches_run groq_client _ (batch_sized_nonempty _ _ Hsized)).
  unfold bind, lift. simpl app.
  by destruct (pmap count_extracted _).
Qed.

Lemma extract_topics_for_reviews_fails (reviews_df : DataFrame)
    (groq_client : GroqClient) (w : world) :
  extraction_fails groq_client →
  extract_topics_for_reviews reviews_df groq_client w
  = Ok (map empty_extraction reviews_df)
       (log_llm_calls (map ExtractionPrompt (chunks BATCH_SIZE reviews_df)) w).
Proof.
  intros Hfails. rewrite extract_topics_for_reviews_run. cbv zeta.
  rewrite (collected_replies_fails _ Hfails).
  rewrite chunks_concat by (unfold BATCH_SIZE; lia).
  destruct (pmap_count_extracted (map empty_extraction reviews_df)) as [Hok _].
  by destruct (Hok (has_sized_topics_empty reviews_df)) as [ns ->].
Qed.

(** X21. [extract_topics_for_reviews] sends the reviews to the model in
    batches of at most [BATCH_SIZE], in order and each review once, one
    call per batch and none for an empty table, whether it then returns or
    raises.  It collects the items of each reply that is a list, and an
    empty list of topics per review of the batch for any other reply; it
    returns the collected items when each of them is a dict whose
    [extractedTopics] has a length, and raises [AttributeError] or
    [TypeError] otherwise, after the last call.  When the model gives no
    list in reply, it returns an empty list of topics for every review. *)
Theorem extract_topics_for_reviews_batches (reviews_df : DataFrame)
    (groq_client : GroqClient) (w : world) :
  let batches := chunks BATCH_SIZE reviews_df in
  let w' := log_llm_calls (map ExtractionPrompt batches) w in
  let all_results := collected_replies groq_client (llm_calls w) batches in
  concat batches = reviews_df
  ∧ Forall (batch_sized BATCH_SIZE) batches
  ∧ (forallb has_sized_topics all_results = true →
     extract_topics_for_reviews reviews_df groq_client w = Ok all_results w')
  ∧ (forallb has_sized_topics all_results = false →
     extract_topics_for_reviews reviews_df groq_client w
       = Raise AttributeError w'
     ∨ extract_topics_for_reviews reviews_df groq_client w
       = Raise TypeError w')
  ∧ (extraction_fails groq_client →
     extract_topics_for_reviews reviews_df groq_client w
       = Ok (map empty_extraction reviews_df) w').
Proof.
  intros batches w' all_results.
  split; [apply chunks_concat; unfold BATCH_SIZE; lia|].
  split; [apply chunks_sized; unfold BATCH_SIZE; lia|].
  pose proof (extract_topics_for_reviews_run reviews_df groq_client w) as Hrun.
  cbv zeta in Hrun. fold batches in Hrun. fold all_results in Hrun.
  fold w' in Hrun.
  destruct (pmap_count_extracted all_results) as [Hok Hbad].
  split; [|split].
  - intros Hsized. destruct (Hok Hsized) as [ns Hns]. by rewrite Hrun, Hns.
  - intros Hsized.
    destruct (Hbad Hsized) as [He|He]; rewrite Hrun, He; [by left | by right].
  - intros Hfails. by apply extract_topics_for_reviews_fails.
Qed.

Lemma extract_topics_for_reviews_batches_witness :
  extract_topics_for_reviews two_days bare_strings_client fresh_world
  = Raise AttributeError
      (log_llm_calls (map ExtractionPrompt (chunks BATCH_SIZE two_days))
                     fresh_world).
Proof.
  destruct (extract_topics_for_reviews_batches two_days bare_strings_client
              fresh_world) as (_ & _ & _ & Hbad & _).
  destruct (Hbad eq_refl) as [Hrun|Hrun]; [exact Hrun|].
  vm_compute in Hrun. discriminate Hrun.
Defined.
(** ** Mapping in batches *)

Lemma map_topics_batch_run extracted_topics tx groq_client w :
  extracted_topics ≠ [] →
  map_topics_batch extracted_topics tx groq_client w
  = match groq_client (llm_calls w) (BatchMappingPrompt tx extracted_topics) with
    | Some (JArr items) => lift (pmap apply_confidence_threshold items)
    | _ => ret (map (λ t, failed_mapping t "Batch mapping failed")
                    extracted_topics)
    end (log_llm_call (BatchMappingPrompt tx extracted_topics) w).
Proof.
  intros Hne. unfold map_topics_batch.
  destruct extracted_topics as [|t ts]; [done|].
  unfold bind, send_message_json. simpl.
  destruct (groq_client _ _) as [[| | | | | | |]|]; reflexivity.
Qed.

Lemma apply_confidence_threshold_gated_from item result :
  apply_confidence_threshold item = Val result → gated_from item result.
Proof.
  unfold apply_confidence_threshold. intros Hrun.
  apply pbind_Val in Hrun as (c & Hc & Hrun).
  apply pbind_Val in Hrun as (below & Hlt & Hrun).
  destruct item as [| | | | | |d|]; try done.
  injection Hrun as <-. simpl in Hc. injection Hc as <-.
  exists below. split; [exact Hlt|]. split.
  - by intros ->.
  - intros ->. simpl. split; [apply dict_get_set_eq|].
    intros k Hk. by apply dict_get_set_ne, not_eq_sym.
Qed.

Lemma pmap_Val_Forall2 {A B} (R : A → B → Prop) (f : A → pyres B) l :
  (∀ x y, f x = Val y → R x y) →
  ∀ ys, pmap f l = Val ys → Forall2 R l ys.
Proof.
  intros Hf. induction l as [|x l IH]; simpl; intros ys Hrun.
  - injection Hrun as <-. constructor.
  - apply pbind_Val in Hrun as (y & Hy & Hrun).
    apply pbind_Val in Hrun as (ys' & Hys & [= <-]).
    constructor; eauto.
Qed.

(** X22. When the model answers a batch with a list, the mappings returned
    follow that list item by item: one result per item of the reply, equal
    to the item when its confidence is not below the threshold, and
    otherwise the item with [mapped_topic_id] set to [None] and every
    other field as it was. *)
Theorem map_topics_batch_follows_reply (extracted_topics : list string)
    (tx : taxonomy) (groq_client : GroqClient) (w w' : world)
    (items results : list json) :
  extracted_topics ≠ [] →
  groq_client (llm_calls w) (BatchMappingPrompt tx extracted_topics)
  = Some (JArr items) →
  map_topics_batch extracted_topics tx groq_client w = Ok results w' →
  Forall2 gated_from items results
  ∧ w' = log_llm_call (BatchMappingPrompt tx extracted_topics) w.
Proof.
  intros Hne Hreply. rewrite map_topics_batch_run by done. rewrite Hreply.
  intros [Hrun ->]%lift_Ok. split; [|done].
  eapply pmap_Val_Forall2; [|exact Hrun].
  apply apply_confidence_threshold_gated_from.
Qed.

Lemma map_topics_batch_follows_reply_witness :
  Forall2 gated_from
    [mapping_of "app crash" (JStr "app_technical") 0x1p-1%float]
    [mapping_of "app crash" JNull 0x1p-1%float]
  ∧ ¬ gated_from (mapping_of "app crash" (JStr "app_technical") 0x1p-1%float)
                 (mapping_of "app crash" (JStr "app_technical") 0x1p-1%float).
Proof.
  split.
  - eapply (map_topics_batch_follows_reply ["app crash"]
              (get_seed_topics_as_taxonomy "app" 0) low_confidence_client
              fresh_world).
    + discriminate.
    + reflexivity.
    + vm_compute. reflexivity.
  - intros (below & Hlt & _ & Hbelow). vm_compute in Hlt.
    injection Hlt as <-. by destruct (Hbelow eq_refl) as [Hnull _].
Defined.

(** X23. An empty batch costs no model call and maps nothing; and when the
    reply to a batch is not a list, every requested topic comes back
    unmapped, in order, with confidence 0. *)
Theorem map_topics_batch_fallback (extracted_topics : list string)
    (tx : taxonomy) (groq_client : GroqClient) (w : world) :
  map_topics_batch [] tx groq_client w = Ok [] w
  ∧ (extracted_topics ≠ [] →
     (∀ items, groq_client (llm_calls w)
                 (BatchMappingPrompt tx extracted_topics) ≠ Some (JArr items)) →
     map_topics_batch extracted_topics tx groq_client w
     = Ok (map (λ t, JObj [("extracted_topic", JStr t);
                           ("mapped_topic_id", JNull);
                           ("confidence", JFloat 0%float);
                           ("reasoning", JStr "Batch mapping failed")])
               extracted_topics)
          (log_llm_call (BatchMappingPrompt tx extracted_topics) w)).
Proof.
  split; [done|]. intros Hne Hnolist. rewrite map_topics_batch_run by done.
  destruct (groq_client _ _) as [[| | | | |items| |]|] eqn:Hreply; try done.
  by destruct (Hnolist items).
Qed.

Lemma map_topics_batch_fallback_witness :
  map_topics_batch ["app crash"] (get_seed_topics_as_taxonomy "app" 0)
    silent_client fresh_world
  = Ok [JObj [("extracted_topic", JStr "app crash");
              ("mapped_topic_id", JNull);
              ("confidence", JFloat 0%float);
              ("reasoning", JStr "Batch mapping failed")]]
       (log_llm_call
          (BatchMappingPrompt (get_seed_topics_as_taxonomy "app" 0)
                              ["app crash"]) fresh_world).
Proof.
  destruct (map_topics_batch_fallback ["app crash"]
              (get_seed_topics_as_taxonomy "app" 0) silent_client fresh_world)
    as [_ Hfall].
  apply Hfall; [discriminate|]. intros items. discriminate.
Defined.






(** ** A day without the model *)

Lemma collect_empty_extractions (day : DataFrame) (acc : list string) :
  pfor_each collect_topics (map empty_extraction day) acc = Val acc.
Proof. induction day as [|r day IH]; simpl; [done | exact IH]. Qed.

Lemma count_empty_extractions reviews_lookup mappings (day : DataFrame) :
  ∀ acc,
    pfor_each (count_review reviews_lookup mappings)
              (map empty_extraction day) acc
    = Val {| topic_counts := topic_counts acc;
             unmapped_topics := unmapped_topics acc;
             reviews_by_topic := reviews_by_topic acc;
             reviews_with_no_topics :=
               reviews_with_no_topics acc
               ++ map (λ r, JObj (default [("reviewId", JStr (reviewId r))]
                                    (dict_get (reviewId r) reviews_lookup)))
                      day;
             unmapped_reviews := unmapped_reviews acc |}.
Proof.
  induction day as [|r day IH]; intros acc; simpl.
  - rewrite app_nil_r. by destruct acc.
  - rewrite IH. simpl. by rewrite <- app_assoc.
Qed.

Lemma map_topics_to_taxonomy_empty (day : DataFrame) (tx : taxonomy)
    (groq_client : GroqClient) (w : world) :
  hash_order w [] = [] →
  map_topics_to_taxonomy (map empty_extraction day) tx groq_client w = Ok [] w.
Proof.
  intros Horder. unfold map_topics_to_taxonomy, bind.
  rewrite collect_empty_extractions. simpl lift. cbv beta iota.
  by rewrite Horder.
Qed.

Lemma consolidate_without_topics (day : DataFrame) (app_id : string)
    (date_str : Z) (groq_client : GroqClient) (tx : taxonomy) (w : world) :
  load_app_taxonomy app_id w = Ok tx w →
  ∃ batch w',
    consolidate_and_discover (map empty_extraction day) [] app_id date_str day
                             groq_client w = Ok batch w'
    ∧ batch_json w' !! (app_id, date_str) = Some batch
    ∧ field "total_reviews" batch = Some (JInt (len day))
    ∧ field "reviews_without_topics" batch = Some (JInt (len day))
    ∧ field "topic_frequencies" batch = Some (JObj [])
    ∧ field "new_topics_discovered" batch = Some (JArr [])
    ∧ llm_calls w' = llm_calls w.
Proof.
  intros Hload. unfold consolidate_and_discover, count_reviews.
  rewrite count_empty_extractions.
  unfold bind at 1. simpl lift. cbv beta iota.
  unfold bind at 1, discover_new_topics. unfold bind at 1. rewrite Hload.
  simpl. eexists _, _. split; [reflexivity|]. simpl.
  split; [by rewrite lookup_insert_eq|].
  unfold len. rewrite !length_map. done.
Qed.

(** X25. When every call to the model fails, a day with reviews is still
    processed: its batch is saved, counts all its reviews as reviews
    without topics, and holds no topic frequency and no discovered topic;
    the only calls made are the extraction calls. *)
Theorem process_single_day_without_model (reviews_df : DataFrame)
    (date_str : Z) (app_id : string) (groq_client : GroqClient) (w : world) :
  (∀ history p, groq_client history p = None) →
  hash_order w [] = [] →
  get_reviews_for_date reviews_df date_str ≠ [] →
  let day := get_reviews_for_date reviews_df date_str in
  ∃ batch w',
    process_single_day reviews_df date_str app_id groq_client w = Ok batch w'
    ∧ batch_json w' !! (app_id, date_str) = Some batch
    ∧ field "total_reviews" batch = Some (JInt (len day))
    ∧ field "reviews_without_topics" batch = Some (JInt (len day))
    ∧ field "topic_frequencies" batch = Some (JObj [])
    ∧ field "new_topics_discovered" batch = Some (JArr [])
    ∧ llm_calls w' = llm_calls w ++ map ExtractionPrompt (chunks BATCH_SIZE day).
Proof.
  intros Hfails Horder Hday day. unfold process_single_day. fold day.
  assert (Hne : is_empty day = false).
  { unfold day. by destruct (get_reviews_for_date reviews_df date_str). }
  rewrite Hne.
  assert (Hextract :
    extract_topics_for_reviews day groq_client w
    = Ok (map empty_extraction day)
         (log_llm_calls (map ExtractionPrompt (chunks BATCH_SIZE day)) w)).
  { apply extract_topics_for_reviews_fails.
    intros history reviews items. by rewrite Hfails. }
  set (w1 := log_llm_calls (map ExtractionPrompt (chunks BATCH_SIZE day)) w)
    in Hextract.
  destruct (load_app_taxonomy_stored app_id w1)
    as (tx & w2 & Hload & Hstored & Hagain & Hllm & _).
  assert (Horder2 : hash_order w2 [] = []).
  { rewrite (load_app_taxonomy_hash_order _ _ _ _ Hload). unfold w1.
    by rewrite hash_order_log_llm_calls. }
  destruct (consolidate_without_topics day app_id date_str groq_client tx w2
              Hagain)
    as (batch & w' & Hrun & Hsaved & Htotal & Hwithout & Hfreq & Hnew & Hcalls).
  exists batch, w'. split.
  - unfold bind. rewrite Hextract, Hload.
    rewrite (map_topics_to_taxonomy_empty day tx groq_client w2 Horder2).
    exact Hrun.
  - repeat (split; [assumption|]).
    rewrite Hcalls, Hllm. unfold w1. apply llm_calls_log_llm_calls.
Qed.

Lemma process_single_day_without_model_witness :
  ∃ batch w',
    process_single_day two_days 100 "app" silent_client fresh_world
    = Ok batch w'
    ∧ field "total_reviews" batch = Some (JInt 1)
    ∧ field "topic_frequencies" batch = Some (JObj []).
Proof.
  destruct (process_single_day_without_model two_days 100 "app" silent_client
              fresh_world)
    as (batch & w' & Hrun & _ & Htotal & _ & Hfreq & _).
  - reflexivity.
  - reflexivity.
  - discriminate.
  - exists batch, w'. split; [exact Hrun|]. split; [exact Htotal | exact Hfreq].
Defined.

(** ** More on dates *)

Lemma date_range_from_in_range fuel end_date :
  ∀ start_date current,
    start_date ≤ current →
    Forall (λ d, is_date_in_range d start_date end_date = true)
           (date_range_from fuel current end_date).
Proof.
  induction fuel as [|fuel IH]; intros start_date current Hle; simpl;
    [constructor|].
  destruct (Z.leb_spec current end_date) as [Hin|_]; [|constructor].
  constructor.
  - unfold is_date_in_range. apply andb_true_iff. split; by apply Z.leb_le.
  - apply IH. unfold SECONDS_PER_DAY. lia.
Qed.

(** X9. Whatever the two ends, every time stamp that [date_range] lists
    passes [is_date_in_range] for these ends, and two neighbours in the
    list are one day apart. *)
Theorem date_range_in_range (start_date end_date : Z) :
  Forall (λ d, is_date_in_range d start_date end_date = true)
         (date_range start_date end_date)
  ∧ ∀ i d, date_range start_date end_date !! i = Some d →
           d = start_date + Z.of_nat i * SECONDS_PER_DAY.
Proof.
  split; [by apply date_range_from_in_range|].
  unfold date_range.
  generalize (Z.to_nat (date end_date - date start_date + 1)) as fuel.
  intros fuel. revert start_date.
  induction fuel as [|fuel IH]; intros start_date i d; simpl; [done|].
  destruct (start_date <=? end_date); [|done].
  destruct i as [|i]; simpl.
  - intros [= <-]. lia.
  - intros Hd%IH. lia.
Qed.

(** ** A run without reviews *)

(** X26. When an app has no stored reviews and the fetch from the store
    returns none, the analysis stops after the scrape: it saves the empty
    review table, calls the model for nothing, and writes no batch, no
    detail file and no taxonomy. *)
Theorem orchestrate_analysis_no_reviews (app_id : string) (target_date : Z)
    (groq_client : GroqClient) (w : world) :
  store_of w app_id = [] →
  (let '(start_date, end_date) := get_trend_date_range target_date in
   fetch_pages (play_store w app_id) end_date start_date [] = []) →
  ∃ w',
    orchestrate_analysis app_id target_date groq_client w = Ok tt w'
    ∧ reviews_csv w' !! app_id = Some []
    ∧ llm_calls w' = llm_calls w
    ∧ batch_json w' = batch_json w
    ∧ details_json w' = details_json w
    ∧ taxonomy_json w' = taxonomy_json w.
Proof.
  intros Hstore Hfetch. unfold orchestrate_analysis, bind at 1.
  rewrite smart_scrape_without_store by done.
  unfold get_trend_date_range in *. unfold bind, fetch_reviews_by_date_range.
  rewrite Hfetch. simpl. eexists. split; [reflexivity|]. simpl.
  by rewrite lookup_insert_eq.
Qed.

Lemma orchestrate_analysis_no_reviews_witness :
  ∃ w',
    orchestrate_analysis "app" 100 silent_client fresh_world = Ok tt w'
    ∧ reviews_csv w' !! "app" = Some [].
Proof.
  destruct (orchestrate_analysis_no_reviews "app" 100 silent_client fresh_world)
    as (w' & Hrun & Hcsv & _).
  - reflexivity.
  - reflexivity.
  - exists w'. by split.
Defined.

